(** * zella: a quadrature sine generator driving a bipolar stepper

    Shallow embedding of the two Arduino sketches of the repository:

    - the [spinner] sketch (waveform sampler, gain compensation, control
      loop with the preset toggle and the rotary encoder);
    - the older [teensySine] sketch (slider-driven control loop).

    Integers are modelled as [Z] with the wrap-around of their C type
    written out.  The sketches are built for a Teensy 3.5, whose tool chain
    compiles with single-precision constants, so every [float] expression of
    the control loop is evaluated in IEEE 754 binary32, modelled by the
    executable specification [SpecFloat] at precision 24 and maximal
    exponent 128 (round to nearest, ties to even).  The sine table is built
    with the library functions [sin] and [pow]: a sample is modelled as its
    exact real value plus the rounding error of its floating-point
    evaluation, followed by the truncating cast to [uint16_t]; the
    properties of the table are proved for every evaluation whose error
    stays below a quarter of a quantization unit. *)

From Stdlib Require Import ZArith List Bool Lia Floats.SpecFloat.
From Stdlib Require Import Reals Lra.
Import ListNotations.

Local Open Scope Z_scope.

(** ** Single-precision arithmetic *)

Module F32.

Definition prec : Z := 24.
Definition emax : Z := 128.

Definition float := spec_float.

Definition add : float -> float -> float := SFadd prec emax.
Definition mul : float -> float -> float := SFmul prec emax.
Definition sub : float -> float -> float := SFsub prec emax.
Definition div : float -> float -> float := SFdiv prec emax.

Definition ltb : float -> float -> bool := SFltb.
Definition leb : float -> float -> bool := SFleb.
Definition eqb : float -> float -> bool := SFeqb.
(** C's [a > b] and [a != b]. *)
Definition gtb (a b : float) : bool := SFltb b a.
Definition neqb (a b : float) : bool := negb (SFeqb a b).

(** Conversion of an integer to [float] (rounds to nearest). *)
Definition of_Z (n : Z) : float := binary_normalize prec emax n 0 false.

(** A decimal literal [n / d] with [n] and [d] exactly representable:
    the correctly rounded quotient is the value of the literal. *)
Definition lit (n d : Z) : float := div (of_Z n) (of_Z d).

Definition valid (x : float) : bool := valid_binary prec emax x.

Definition is_nan (x : float) : bool :=
  match x with S754_nan => true | _ => false end.

Definition is_finite (x : float) : bool :=
  match x with S754_zero _ | S754_finite _ _ _ => true | _ => false end.

(** Conversion to an integer truncates toward zero; it is undefined on
    NaN and on the infinities. *)
Definition trunc (x : float) : option Z :=
  match x with
  | S754_zero _ => Some 0
  | S754_finite s m e =>
      Some (cond_Zopp s
              (match e with
               | Z0 => Zpos m
               | Zpos _ => Zpos m * 2 ^ e
               | Zneg p => Zpos m / 2 ^ Zpos p
               end))
  | _ => None
  end.

(** The cast [(int8_t) x]: undefined when the truncated value does not
    fit the destination type. *)
Definition to_int8 (x : float) : option Z :=
  match trunc x with
  | Some z => if (-128 <=? z) && (z <=? 127) then Some z else None
  | None => None
  end.

(** *** Vocabulary of the rounding lemmas *)

Definition fexp32 (x : Z) : Z := fexp prec emax x.

(** How far [binary_round_aux] shifts a mantissa [m] at exponent [e]. *)
Definition shift (m e : Z) : Z := Z.max 0 (fexp32 (Zdigits2 m + e) - e).

(** The float built from a rounded mantissa. *)
Definition pack (s : bool) (m e : Z) : spec_float :=
  match m with
  | Z0 => S754_zero s
  | Zpos p =>
      if e <=? emax - prec then S754_finite s p e else S754_infinity s
  | Zneg _ => S754_nan
  end.

(** A mantissa of exactly [prec] digits. *)
Definition normal_m (m : positive) : Prop := 2 ^ 23 <= Zpos m < 2 ^ 24.

End F32.

(** ** Observable effects *)

Inductive level := LOW | HIGH.

Definition level_eqb (a b : level) : bool :=
  match a, b with
  | LOW, LOW | HIGH, HIGH => true
  | _, _ => false
  end.

Inductive dac_pin := DAC_PIN_A | DAC_PIN_B.

(** The calls on the peripherals that the properties speak of, in program
    order, and the calls of [log10].  A value read outside its array, or a
    cast that is undefined, is recorded as [None]. *)
Inductive event :=
| AnalogWrite (p : dac_pin) (v : option Z)
| WireBeginTransmission (addr : Z)
| WireWrite (b : option Z)
| WireEndTransmission
| OledClearDisplay
| OledSetCursor (x y : Z)
| OledPrintlnRPM (rpm : F32.float)
| OledDisplay
| TimerEnd
| TimerBegin (micros : F32.float)
| CallLog10 (x : F32.float).

(** ** Settings shared by both sketches *)

Definition SAMPLES_PER_CYCLE : Z := 600.
Definition DAC_RESOLUTION : Z := 12.
Definition STEP_ANGLE : F32.float := F32.lit 75 10.

Definition uint32 (z : Z) : Z := z mod 2 ^ 32.
Definition int32 (z : Z) : Z := (z + 2 ^ 31) mod 2 ^ 32 - 2 ^ 31.

(** ** The waveform sampler ([sample], identical in both sketches) *)

Module Sampler.

Record wave := { waveIndexA : Z; waveIndexB : Z }.

Definition init : wave :=
  {| waveIndexA := SAMPLES_PER_CYCLE / 4; waveIndexB := 0 |}.

(** [waveIndex++; if (waveIndex > SAMPLES_PER_CYCLE) waveIndex = 0;] *)
Definition advance (w : Z) : Z :=
  let w' := uint32 (w + 1) in
  if w' >? SAMPLES_PER_CYCLE then 0 else w'.

Section SineTable.
(** The contents of [uint16_t sineTable[SAMPLES_PER_CYCLE]]. *)
Variable sineTable : list Z.

(** [sineTable[i]]: defined inside the declared bounds only. *)
Definition sineTable_at (i : Z) : option Z :=
  if (0 <=? i) && (i <? SAMPLES_PER_CYCLE)
  then Some (nth (Z.to_nat i) sineTable 0)
  else None.

Definition sample (s : wave) : wave * list event :=
  let a := advance (waveIndexA s) in
  let b := advance (waveIndexB s) in
  ({| waveIndexA := a; waveIndexB := b |},
   [AnalogWrite DAC_PIN_A (sineTable_at a);
    AnalogWrite DAC_PIN_B (sineTable_at b)]).

(** The state after [n] timer ticks, and the events of the last tick. *)
Fixpoint ticks (n : nat) (s : wave) : wave :=
  match n with
  | O => s
  | S n' => fst (sample (ticks n' s))
  end.

Definition last_tick (n : nat) (s : wave) : list event :=
  match n with
  | O => []
  | S n' => snd (sample (ticks n' s))
  end.
End SineTable.

(** The quadrature relation between the two phase indices. *)
Definition quadrature (s : wave) : bool :=
  (waveIndexA s - waveIndexB s) mod SAMPLES_PER_CYCLE
  =? SAMPLES_PER_CYCLE / 4.

Definition in_bounds (i : Z) : bool :=
  (0 <=? i) && (i <? SAMPLES_PER_CYCLE).

End Sampler.

(** ** The sine table ([createSineTable], identical in both sketches) *)

Module Table.
Local Open Scope R_scope.

(** [pow(2.0, DAC_RESOLUTION) - 1] *)
Definition dacBitRange : R := 2 ^ Z.to_nat DAC_RESOLUTION - 1.

(** The exact value of
    [((1 + sin(((2.0*PI) / SAMPLES_PER_CYCLE) * i)) * dacBitRange) / 2] *)
Definition exactSample (i : Z) : R :=
  ((1 + sin (((2 * PI) / IZR SAMPLES_PER_CYCLE) * IZR i)) * dacBitRange) / 2.

(** Truncation toward zero, as a C cast to an integer type does. *)
Definition Rtrunc (x : R) : Z :=
  if Rle_dec 0 x then Int_part x else (- Int_part (- x))%Z.

Definition uint16_cast (x : R) : Z := (Rtrunc x mod 2 ^ 16)%Z.

Section Rounding.
(** The rounding error that the floating-point evaluation of the sample
    at index [i] accumulates. *)
Variable err : Z -> R.

Definition sineSample (i : Z) : R := exactSample i + err i.

Definition sineTable_entry (i : Z) : Z := uint16_cast (sineSample i).

Definition createSineTable : list Z :=
  map (fun i => sineTable_entry (Z.of_nat i))
      (seq 0 (Z.to_nat SAMPLES_PER_CYCLE)).
End Rounding.

(** An evaluation is accurate when no sample is off by more than a
    quarter of a quantization unit. *)
Definition accurate (err : Z -> R) : Prop :=
  forall i, - / 4 <= err i <= / 4.

(** The evaluation without rounding error. *)
Definition exact : Z -> R := fun _ => 0.

(** The reflection the specification compares an entry with. *)
Definition mirror (i : Z) : Z :=
  ((SAMPLES_PER_CYCLE - i) mod SAMPLES_PER_CYCLE)%Z.

End Table.

(** ** The sine table in single precision

    The same computation evaluated in binary32, with the library's [sin]
    as a parameter; [pow(2.0, 12)] is the exact power.  It serves to show
    that at index 0 the evaluation commits no rounding error at all. *)

Module TableF32.
Import F32.

(** [PI], the float nearest to 3.1415926535897932384626433832795 *)
Definition PI : float := S754_finite false 13176795 (-22).

Definition dacBitRange : float := sub (of_Z (2 ^ DAC_RESOLUTION)) (of_Z 1).

(** The cast [(uint16_t) x]. *)
Definition to_uint16 (x : float) : option Z :=
  match trunc x with
  | Some z => if (0 <=? z) && (z <? 2 ^ 16) then Some z else None
  | None => None
  end.

Section Libm.
Variable sin : float -> float.

Definition sineSample (i : Z) : float :=
  div (mul (add (of_Z 1)
                (sin (mul (div (mul (of_Z 2) PI) (of_Z SAMPLES_PER_CYCLE))
                          (of_Z i))))
           dacBitRange)
      (of_Z 2).

Definition sineTable_entry (i : Z) : option Z := to_uint16 (sineSample i).
End Libm.

End TableF32.

(** ** The spinner sketch *)

Module Spinner.
Import F32.

Definition GEAR_RATIO : float := lit 7342 1000.
Definition RPM_TOGGLE_LEFT : float := lit 33333 1000.
Definition RPM_TOGGLE_RIGHT : float := lit 45000 1000.
Definition MIN_SINE_FREQ : float := of_Z 10.
Definition MAX_SINE_FREQ : float := of_Z 75.
Definition STEPPER_AMP_ADDRESS : Z := 75.
Definition STEPPER_AMP_RES : Z := 64.

Record state := {
  freqLeft : float;
  freqRight : float;
  useEncoder : Z;
  encoderHasBeenPressed : bool;
  sineFrequency : float;
  interruptMicroseconds : float;
  (** the position held by the [Encoder] object *)
  encoder : Z
}.

(** What the pins read during one iteration of [loop]: [encSwitch1] is
    the reading of [ENC_SWITCH_PIN] in the condition of the [if] (taken
    only when [encoderHasBeenPressed] is false), [encSwitch2] the one in
    the [else if]; [FREQ_TOGGLE_PIN] is read once. *)
Record pins := {
  encSwitch1 : level;
  encSwitch2 : level;
  freqToggle : level
}.

Definition getSineFrequency (stepperFrequency : float) : float :=
  div (mul (div (of_Z 360) STEP_ANGLE) (div stepperFrequency (of_Z 60)))
      (of_Z 4).

Definition getInterruptMicroseconds (f : float) : float :=
  div (of_Z 1000000) (mul f (of_Z SAMPLES_PER_CYCLE)).

Definition platterRPM (f : float) : float :=
  div (div (mul (mul (mul (of_Z 4) (of_Z 60)) STEP_ANGLE) f) (of_Z 360))
      GEAR_RATIO.

(** The display shows [platterRPM] with two decimals; the event records
    the value that is formatted. *)
Definition oledDisplayRPM (f : float) : list event :=
  [OledClearDisplay; OledSetCursor 0 0; OledPrintlnRPM (platterRPM f);
   OledDisplay].

(** [(STEPPER_AMP_RES-1) * sineFrequency / MAX_SINE_FREQ] *)
Definition gain_quotient (f : float) : float :=
  div (mul (of_Z (STEPPER_AMP_RES - 1)) f) MAX_SINE_FREQ.

(** [int8_t gain = (int8_t) (...)] *)
Definition gain (f : float) : option Z := to_int8 (gain_quotient f).

Definition setGain (f : float) : list event :=
  [WireBeginTransmission STEPPER_AMP_ADDRESS; WireWrite (gain f);
   WireEndTransmission].

(** [!x] on an [int] *)
Definition lnot (x : Z) : Z := if x =? 0 then 1 else 0.

Definition preset (toggle : level) (s : state) : float :=
  if level_eqb toggle LOW then freqLeft s else freqRight s.

(** "enforce reasonable sine frequency boundaries" *)
Definition clamp (newFreq : float) : float :=
  if ltb newFreq MIN_SINE_FREQ then MIN_SINE_FREQ
  else if gtb newFreq MAX_SINE_FREQ then MAX_SINE_FREQ
  else newFreq.

(** The mode-toggle edge that makes [loop] return early. *)
Definition toggle_edge (i : pins) (s : state) : bool :=
  negb (encoderHasBeenPressed s) && level_eqb (encSwitch1 i) LOW.

(** The candidate frequency of an iteration, before clamping. *)
Definition candidate (i : pins) (s : state) : float :=
  if useEncoder s =? 0
  then preset (freqToggle i) s
  else add (sineFrequency s) (div (of_Z (encoder s)) (of_Z 4)).

(** What [loop] runs when the new frequency differs from the stored one. *)
Definition cascade (f : float) : list event :=
  setGain f ++ oledDisplayRPM f
  ++ [TimerEnd; TimerBegin (getInterruptMicroseconds f)].

Definition loop (i : pins) (s : state) : state * list event :=
  if toggle_edge i s then
    ({| freqLeft := freqLeft s; freqRight := freqRight s;
        useEncoder := lnot (useEncoder s);
        encoderHasBeenPressed := true;
        sineFrequency := sineFrequency s;
        interruptMicroseconds := interruptMicroseconds s;
        encoder := 0 |}, [])
  else
    let pressed :=
      if level_eqb (encSwitch2 i) HIGH then false
      else encoderHasBeenPressed s in
    let newFreq := clamp (candidate i s) in
    let enc := if useEncoder s =? 0 then encoder s else 0 in
    if neqb newFreq (sineFrequency s) then
      ({| freqLeft := freqLeft s; freqRight := freqRight s;
          useEncoder := useEncoder s;
          encoderHasBeenPressed := pressed;
          sineFrequency := newFreq;
          interruptMicroseconds := getInterruptMicroseconds newFreq;
          encoder := enc |}, cascade newFreq)
    else
      ({| freqLeft := freqLeft s; freqRight := freqRight s;
          useEncoder := useEncoder s;
          encoderHasBeenPressed := pressed;
          sineFrequency := sineFrequency s;
          interruptMicroseconds := interruptMicroseconds s;
          encoder := enc |}, []).

(** [setup], given the reading of [FREQ_TOGGLE_PIN]: the gain is set, the
    display is cleared and then shows the speed (which clears it again),
    and the timer is started.  The configuration of the pins, of the bus
    and of the text style of the display is not recorded. *)
Definition setup (toggle : level) : state * list event :=
  let fl := getSineFrequency (mul RPM_TOGGLE_LEFT GEAR_RATIO) in
  let fr := getSineFrequency (mul RPM_TOGGLE_RIGHT GEAR_RATIO) in
  let f := if level_eqb toggle LOW then fl else fr in
  let us := getInterruptMicroseconds f in
  ({| freqLeft := fl; freqRight := fr;
      useEncoder := 0;
      encoderHasBeenPressed := false;
      sineFrequency := f;
      interruptMicroseconds := us;
      encoder := 0 |},
   setGain f ++ [OledClearDisplay] ++ oledDisplayRPM f ++ [TimerBegin us]).

(** Between two iterations the knob moves the encoder position. *)
Definition turn (delta : Z) (s : state) : state :=
  {| freqLeft := freqLeft s; freqRight := freqRight s;
     useEncoder := useEncoder s;
     encoderHasBeenPressed := encoderHasBeenPressed s;
     sineFrequency := sineFrequency s;
     interruptMicroseconds := interruptMicroseconds s;
     encoder := int32 (encoder s + delta) |}.

(** [setup] followed by iterations of [loop], each preceded by a
    movement of the knob; the head of the list is the last iteration. *)
Fixpoint run (toggle : level) (steps : list (Z * pins)) : state :=
  match steps with
  | [] => fst (setup toggle)
  | (delta, i) :: before => fst (loop i (turn delta (run toggle before)))
  end.

Definition in_range (f : float) : bool :=
  leb MIN_SINE_FREQ f && leb f MAX_SINE_FREQ.

(** The value of a finite float as an exact fraction, numerator and
    denominator, the denominator a power of two. *)
Definition fraction (x : float) : option (Z * Z) :=
  match x with
  | S754_zero _ => Some (0, 1)
  | S754_finite s m e =>
      Some (cond_Zopp s (Zpos m) * 2 ^ Z.max 0 e, 2 ^ Z.max 0 (- e))
  | _ => None
  end.

(** The gain the specification describes,
    [floor ((RES - 1) * frequency / MAX_FREQ)] clamped to [[0, RES - 1]],
    over the exact values of the frequency and of [MAX_SINE_FREQ], with
    no rounding. *)
Definition clampZ (lo hi z : Z) : Z := Z.max lo (Z.min hi z).

Definition gain_spec (f : float) : option Z :=
  match fraction f, fraction MAX_SINE_FREQ with
  | Some (nf, df), Some (nm, dm) =>
      Some (clampZ 0 (STEPPER_AMP_RES - 1)
              (((STEPPER_AMP_RES - 1) * nf * dm) / (df * nm)))
  | _, _ => None
  end.

(** The invariant of the control loop. *)
Record Inv (s : state) : Prop := {
  inv_left : valid (freqLeft s) = true /\ is_nan (freqLeft s) = false;
  inv_right : valid (freqRight s) = true /\ is_nan (freqRight s) = false;
  inv_valid : valid (sineFrequency s) = true;
  inv_range : in_range (sineFrequency s) = true;
  inv_period :
    interruptMicroseconds s = getInterruptMicroseconds (sineFrequency s)
}.

(** Number of timer reconfigurations in a trace. *)
Definition reconfigures (evs : list event) : nat :=
  length (filter (fun e => match e with TimerBegin _ => true | _ => false end)
            evs).

(** Number of gain codes sent to the amplifier, and of values sent to the
    display. *)
Definition gain_writes (evs : list event) : nat :=
  length (filter (fun e => match e with WireWrite _ => true | _ => false end)
            evs).

Definition display_writes (evs : list event) : nat :=
  length (filter (fun e =>
                    match e with OledPrintlnRPM _ => true | _ => false end)
            evs).

(** Pin readings: the encoder switch held down, and released. *)
Definition press : pins :=
  {| encSwitch1 := LOW; encSwitch2 := LOW; freqToggle := LOW |}.
Definition idle : pins :=
  {| encSwitch1 := HIGH; encSwitch2 := HIGH; freqToggle := LOW |}.

End Spinner.

(** ** The teensySine sketch (slider control) *)

Module TeensySine.
Import F32.

Definition ADC_RESOLUTION : Z := 13.
Definition adcBitRange : Z := 2 ^ ADC_RESOLUTION.
Definition useSlider : bool := true.

Record state := {
  vFreq : Z;
  stepperRPM : float;
  sineFrequency : float;
  interruptMicroseconds : float
}.

Definition sineFrequency_of (rpm : float) : float :=
  div (mul (div (of_Z 360) STEP_ANGLE) (div rpm (of_Z 60))) (of_Z 4).

Definition interruptMicroseconds_of (f : float) : float :=
  div (of_Z 1000000) (mul f (of_Z SAMPLES_PER_CYCLE)).

Definition init : state :=
  let rpm := of_Z 250 in
  let f := sineFrequency_of rpm in
  {| vFreq := 0; stepperRPM := rpm; sineFrequency := f;
     interruptMicroseconds := interruptMicroseconds_of f |}.

Section Libm.
(** The library's [log10]. *)
Variable log10 : float -> float.

(** One iteration of [loop], given the value of [analogRead]. *)
Definition loop (v : Z) (s : state) : state * list event :=
  if useSlider then
    if v =? 0 then
      ({| vFreq := v; stepperRPM := of_Z 0;
          sineFrequency := sineFrequency s;
          interruptMicroseconds := interruptMicroseconds s |}, [])
    else
      let x := div (of_Z v) (of_Z adcBitRange) in
      let rpm :=
        div (mul (of_Z 500) (of_Z 1)) (sub (of_Z 1) (log10 x)) in
      let f := sineFrequency_of rpm in
      let us := interruptMicroseconds_of f in
      ({| vFreq := v; stepperRPM := rpm; sineFrequency := f;
          interruptMicroseconds := us |},
       [CallLog10 x; TimerEnd; TimerBegin us])
  else (s, []).
End Libm.

End TeensySine.

(** ** Ordering of floats by value *)

Module F32Order.
Import F32.

(** The value [m * 2 ^ e], scaled by [2 ^ 400] to stay an integer. *)
Definition raw (m e : Z) : Z := m * 2 ^ (e + 400).

(** The scaled magnitude of a float (0 when it is not finite). *)
Definition mag (x : float) : Z :=
  match x with
  | S754_finite _ m e => raw (Zpos m) e
  | _ => 0
  end.

(** Canonical, finite and positive. *)
Definition pos (x : float) : bool :=
  match x with
  | S754_finite false _ _ => valid x
  | _ => false
  end.

Definition between (a b x : float) : bool := leb a x && leb x b.

(** [x] is a canonical float enclosed by the positive floats [a] and
    [b]. *)
Definition Encl (a b x : float) : Prop :=
  pos a = true /\ pos b = true /\ valid x = true /\ between a b x = true.

End F32Order.

(** ** Location of an exact quotient *)

Module F32Location.

(** Where the exact value [N / P] lies between [N / P] rounded down and
    the next integer. *)
Definition location_of (N P : Z) : location :=
  if N mod P =? 0 then loc_Exact else loc_Inexact (2 * (N mod P) ?= P).

End F32Location.

(** ** Runs of the spinner sketch *)

Module SpinnerRun.
Import F32 Spinner.

(** Everything [setup] and the iterations of [loop] have emitted, in
    program order. *)
Fixpoint run_events (toggle : level) (steps : list (Z * pins)) : list event :=
  match steps with
  | [] => snd (setup toggle)
  | (delta, i) :: before =>
      run_events toggle before
      ++ snd (loop i (turn delta (run toggle before)))
  end.

(** Iterations of [loop] from a given state; the head of the list is the
    last iteration. *)
Fixpoint run_from (s : state) (steps : list (Z * pins)) : state :=
  match steps with
  | [] => s
  | (delta, i) :: before => fst (loop i (turn delta (run_from s before)))
  end.

(** The encoder switch reads LOW throughout an iteration. *)
Definition held (i : pins) : bool :=
  level_eqb (encSwitch1 i) LOW && level_eqb (encSwitch2 i) LOW.

(** What each peripheral was last given: the period of the last
    [timer.begin], the last gain code written, the last speed shown. *)
Definition last_TimerBegin (evs : list event) : option float :=
  fold_left (fun acc e => match e with TimerBegin us => Some us | _ => acc end)
            evs None.

Definition last_WireWrite (evs : list event) : option (option Z) :=
  fold_left (fun acc e => match e with WireWrite b => Some b | _ => acc end)
            evs None.

Definition last_OledPrintlnRPM (evs : list event) : option float :=
  fold_left
    (fun acc e => match e with OledPrintlnRPM r => Some r | _ => acc end)
    evs None.

End SpinnerRun.

(** ** Assumption on the library's logarithm *)

Module TeensyRange.
Import F32 TeensySine.

(** What the properties of the slider loop assume of the value that the
    library's [log10] returns on a normalised reading: a canonical float
    between -4 and 0 (the readings of a 13-bit converter are at least
    [2 ^ -13], whose logarithm is about -3.91). *)
Definition log10_in_range (y : float) : bool :=
  valid y && leb (of_Z (-4)) y && leb y (S754_zero false).

End TeensyRange.

(** * Properties *)

(** ** The waveform sampler *)

Module SamplerFacts.
Import Sampler.

Lemma advance_in_cycle (w : Z) :
  0 <= w <= SAMPLES_PER_CYCLE ->
  advance w = (w + 1) mod (SAMPLES_PER_CYCLE + 1).
Proof.
  unfold advance, uint32, SAMPLES_PER_CYCLE. intros Hw.
  rewrite (Z.mod_small (w + 1)) by lia.
  destruct (Z.gtb_spec (w + 1) 600) as [Hgt | Hle].
  - replace w with 600 by lia. reflexivity.
  - rewrite Z.mod_small by lia. reflexivity.
Qed.

(** Each index runs through the [SAMPLES_PER_CYCLE + 1] values
    [0 .. SAMPLES_PER_CYCLE]. *)
Lemma ticks_closed_form (tbl : list Z) (n : nat) :
  ticks tbl n init =
  {| waveIndexA := (SAMPLES_PER_CYCLE / 4 + Z.of_nat n)
                   mod (SAMPLES_PER_CYCLE + 1);
     waveIndexB := Z.of_nat n mod (SAMPLES_PER_CYCLE + 1) |}.
Proof.
  induction n as [| n IH].
  - reflexivity.
  - cbn [ticks sample fst]. rewrite IH. cbn [waveIndexA waveIndexB].
    rewrite !advance_in_cycle.
    + rewrite !Zplus_mod_idemp_l. f_equal; f_equal; lia.
    + pose proof (Z.mod_pos_bound (Z.of_nat n) (SAMPLES_PER_CYCLE + 1)).
      unfold SAMPLES_PER_CYCLE in *. lia.
    + pose proof (Z.mod_pos_bound (SAMPLES_PER_CYCLE / 4 + Z.of_nat n)
                    (SAMPLES_PER_CYCLE + 1)).
      unfold SAMPLES_PER_CYCLE in *. lia.
Qed.

(** The quadrature relation holds on 451 of every 601 ticks and fails on
    the other 150. *)
Lemma quadrature_ticks (tbl : list Z) (n : nat) :
  quadrature (ticks tbl n init)
  = (Z.of_nat n mod (SAMPLES_PER_CYCLE + 1) <=? 450).
Proof.
  rewrite ticks_closed_form. unfold quadrature, SAMPLES_PER_CYCLE.
  cbn [waveIndexA waveIndexB].
  change (600 / 4) with 150. change (600 + 1) with 601.
  rewrite <- (Zplus_mod_idemp_r (Z.of_nat n) 150 601).
  pose proof (Z.mod_pos_bound (Z.of_nat n) 601 eq_refl) as Hb.
  set (b := Z.of_nat n mod 601) in *.
  destruct (Z.leb_spec b 450) as [Hle | Hgt].
  - rewrite (Z.mod_small (150 + b)) by lia.
    replace (150 + b - b) with 150 by lia. reflexivity.
  - replace ((150 + b) mod 601) with (b - 451)
      by (apply Z.mod_unique with 1; lia).
    replace (b - 451 - b) with (-451) by lia. reflexivity.
Qed.

(** C1: the comparison [waveIndex > SAMPLES_PER_CYCLE] lets an index
    reach 600 before it wraps, so each index has period 601; at the
    451st call of [sample] channel A wraps to 0 while channel B is at
    451, and the difference modulo 600 is 149 instead of 150 (it is 45
    when the subtraction is done in [uint32_t]). *)
Theorem C1_quadrature_lost_at_tick_451 (tbl : list Z) :
  ticks tbl 451 init = {| waveIndexA := 0; waveIndexB := 451 |}
  /\ (waveIndexA (ticks tbl 451 init) - waveIndexB (ticks tbl 451 init))
     mod SAMPLES_PER_CYCLE = 149
  /\ uint32 (waveIndexA (ticks tbl 451 init)
             - waveIndexB (ticks tbl 451 init))
     mod SAMPLES_PER_CYCLE = 45
  /\ quadrature (ticks tbl 451 init) = false
  /\ quadrature (ticks tbl 450 init) = true.
Proof.
  rewrite !ticks_closed_form. repeat split; vm_compute; reflexivity.
Qed.

(** C2: the 450th call of [sample] leaves [waveIndexA] at 600, which is
    [SAMPLES_PER_CYCLE], and reads [sineTable[600]], one past the end of
    the table. *)
Theorem C2_read_past_end_at_tick_450 (tbl : list Z) :
  waveIndexA (ticks tbl 450 init) = SAMPLES_PER_CYCLE
  /\ in_bounds (waveIndexA (ticks tbl 450 init)) = false
  /\ last_tick tbl 450 init =
     [AnalogWrite DAC_PIN_A None;
      AnalogWrite DAC_PIN_B (Some (nth 450 tbl 0))].
Proof.
  unfold last_tick. rewrite !ticks_closed_form. repeat split.
Qed.

End SamplerFacts.

(** ** Single-precision rounding *)

Module F32Facts.
Import F32.

Lemma fexp32_eq x : fexp32 x = Z.max (x - 24) (-149).
Proof. reflexivity. Qed.

(** *** Number of binary digits *)

Lemma digits2_pos_log2 p : Zpos (digits2_pos p) = Z.log2 (Zpos p) + 1.
Proof.
  induction p as [p IH | p IH |]; cbn [digits2_pos]; try reflexivity.
  - rewrite Pos2Z.inj_succ, IH.
    change (Zpos p~1) with (2 * Zpos p + 1).
    rewrite Z.log2_succ_double by lia. lia.
  - rewrite Pos2Z.inj_succ, IH.
    change (Zpos p~0) with (2 * Zpos p).
    rewrite Z.log2_double by lia. lia.
Qed.

Lemma Zdigits2_log2 m : 0 < m -> Zdigits2 m = Z.log2 m + 1.
Proof.
  destruct m as [| p | p]; try lia. intros _. apply digits2_pos_log2.
Qed.

Lemma Zdigits2_pos m : 0 < m -> 0 < Zdigits2 m.
Proof.
  intros H. rewrite Zdigits2_log2 by assumption.
  pose proof (Z.log2_nonneg m). lia.
Qed.

Lemma Zdigits2_lt_pow2 m k : 0 < m -> (m < 2 ^ k <-> Zdigits2 m <= k).
Proof.
  intros H. rewrite Zdigits2_log2 by assumption.
  rewrite (Z.log2_lt_pow2 m k) by assumption. lia.
Qed.

Lemma Zdigits2_le_pow2 m k : 0 < m -> (2 ^ k <= m <-> k < Zdigits2 m).
Proof.
  intros H. rewrite Zdigits2_log2 by assumption.
  rewrite (Z.log2_le_pow2 m k) by assumption. lia.
Qed.

Lemma Zdigits2_shift m n :
  0 < m -> 0 <= n -> n < Zdigits2 m ->
  0 < m / 2 ^ n /\ Zdigits2 (m / 2 ^ n) = Zdigits2 m - n.
Proof.
  intros Hm Hn Hd.
  assert (Hq : 0 < m / 2 ^ n).
  { apply Z.div_str_pos. split; [apply Z.pow_pos_nonneg; lia |].
    apply Zdigits2_le_pow2; assumption. }
  split; [assumption |].
  rewrite (Zdigits2_log2 _ Hq), (Zdigits2_log2 _ Hm).
  rewrite <- Z.shiftr_div_pow2 by assumption.
  rewrite Z.log2_shiftr by assumption.
  rewrite Zdigits2_log2 in Hd by assumption. lia.
Qed.

(** *** Shifting a mantissa to the right *)

Lemma iter_pos_nat {A} (f : A -> A) p x :
  SpecFloat.iter_pos f p x = Nat.iter (Pos.to_nat p) f x.
Proof.
  revert x. induction p as [p IH | p IH |]; intros x; cbn [SpecFloat.iter_pos].
  - rewrite !IH, Pos2Nat.inj_xI.
    replace (S (2 * Pos.to_nat p))%nat
      with (Pos.to_nat p + (Pos.to_nat p + 1))%nat by lia.
    rewrite !Nat.iter_add. reflexivity.
  - rewrite !IH, Pos2Nat.inj_xO.
    replace (2 * Pos.to_nat p)%nat
      with (Pos.to_nat p + Pos.to_nat p)%nat by lia.
    rewrite Nat.iter_add. reflexivity.
  - reflexivity.
Qed.

Lemma shr_1_m mrs :
  0 <= shr_m mrs -> shr_m (shr_1 mrs) = shr_m mrs / 2.
Proof.
  destruct mrs as [m r s]. cbn [shr_m shr_1]. intros Hm.
  destruct m as [| [p | p |] | p]; try lia; cbn [shr_m]; try reflexivity.
  - change (Zpos p~1) with (2 * Zpos p + 1).
    apply Z.div_unique with 1; lia.
  - change (Zpos p~0) with (2 * Zpos p).
    apply Z.div_unique with 0; lia.
Qed.

Lemma shr_1_rs mrs :
  0 <= shr_m mrs ->
  shr_r (shr_1 mrs) = Z.odd (shr_m mrs)
  /\ shr_s (shr_1 mrs) = shr_r mrs || shr_s mrs.
Proof.
  destruct mrs as [m r s]. cbn [shr_m shr_r shr_s shr_1]. intros Hm.
  destruct m as [| [p | p |] | p]; try lia; cbn; split; reflexivity.
Qed.

Lemma iter_shr_1 (k : nat) mrs :
  0 <= shr_m mrs ->
  let mrs' := Nat.iter k shr_1 mrs in
  shr_m mrs' = shr_m mrs / 2 ^ Z.of_nat k
  /\ (shr_r mrs = false -> shr_s mrs = false ->
      shr_m mrs mod 2 ^ Z.of_nat k = 0 ->
      shr_r mrs' = false /\ shr_s mrs' = false).
Proof.
  intros Hm. induction k as [| k IH]; cbn zeta.
  - change (Nat.iter 0 shr_1 mrs) with mrs.
    rewrite Z.pow_0_r, Z.div_1_r. auto.
  - change (Nat.iter (S k) shr_1 mrs) with (shr_1 (Nat.iter k shr_1 mrs)).
    cbn zeta in IH. destruct IH as [IHm IHrs].
    assert (Hk : 0 <= shr_m (Nat.iter k shr_1 mrs)).
    { rewrite IHm. apply Z.div_pos; [assumption | apply Z.pow_pos_nonneg; lia]. }
    rewrite Nat2Z.inj_succ, Z.pow_succ_r by lia.
    split.
    + rewrite shr_1_m by assumption. rewrite IHm.
      rewrite Z.div_div by (try apply Z.pow_pos_nonneg; lia).
      f_equal. lia.
    + intros Hr Hs Hmod.
      destruct (shr_1_rs _ Hk) as [Er Es]. rewrite Er, Es.
      assert (H2k : 0 < 2 ^ Z.of_nat k) by (apply Z.pow_pos_nonneg; lia).
      apply Z.mod_divide in Hmod; [| lia].
      destruct Hmod as [q Hq].
      assert (Hmod' : shr_m mrs mod 2 ^ Z.of_nat k = 0).
      { apply Z.mod_divide; [lia |]. exists (2 * q). lia. }
      destruct (IHrs Hr Hs Hmod') as [Hr' Hs'].
      rewrite Hr', Hs', IHm. split; [| reflexivity].
      replace (shr_m mrs) with ((2 * q) * 2 ^ Z.of_nat k) by lia.
      rewrite Z.div_mul by lia.
      rewrite Z.odd_mul. reflexivity.
Qed.

(** *** Rounding *)

Lemma shr_record_of_loc_m m l : shr_m (shr_record_of_loc m l) = m.
Proof. destruct l as [| []]; reflexivity. Qed.

Lemma loc_of_shr_record_of_loc m l :
  loc_of_shr_record (shr_record_of_loc m l) = l.
Proof. destruct l as [| []]; reflexivity. Qed.

Lemma shift_nonneg m e : 0 <= shift m e.
Proof. unfold shift. lia. Qed.

Lemma shr_fexp_char m e l :
  0 <= m ->
  exists mrs,
    shr_fexp prec emax m e l = (mrs, e + shift m e)
    /\ shr_m mrs = m / 2 ^ shift m e
    /\ (l = loc_Exact -> m mod 2 ^ shift m e = 0 ->
        loc_of_shr_record mrs = loc_Exact).
Proof.
  intros Hm. unfold shr_fexp, shift, fexp32, shr.
  destruct (fexp prec emax (Zdigits2 m + e) - e) as [| p | p] eqn:En.
  - exists (shr_record_of_loc m l). rewrite Z.max_id, Z.add_0_r.
    rewrite Z.pow_0_r, Z.div_1_r, shr_record_of_loc_m.
    rewrite loc_of_shr_record_of_loc. auto.
  - exists (SpecFloat.iter_pos shr_1 p (shr_record_of_loc m l)).
    rewrite Z.max_r by lia. rewrite iter_pos_nat.
    assert (H0 : 0 <= shr_m (shr_record_of_loc m l))
      by (rewrite shr_record_of_loc_m; assumption).
    destruct (iter_shr_1 (Pos.to_nat p) _ H0) as [Em Ers].
    rewrite positive_nat_Z, shr_record_of_loc_m in Em, Ers.
    split; [reflexivity |]. split; [exact Em |].
    intros -> Hmod. destruct (Ers eq_refl eq_refl Hmod) as [Er Es].
    destruct (Nat.iter _ _ _) as [m' r' s']. cbn in Er, Es.
    subst. reflexivity.
  - exists (shr_record_of_loc m l). rewrite Z.max_l by lia.
    rewrite Z.add_0_r, Z.pow_0_r, Z.div_1_r, shr_record_of_loc_m.
    rewrite loc_of_shr_record_of_loc. auto.
Qed.

Lemma round_nearest_even_char m l :
  (round_nearest_even m l = m \/ round_nearest_even m l = m + 1)
  /\ (l = loc_Exact -> round_nearest_even m l = m).
Proof.
  split.
  - destruct l as [| []]; cbn; auto. destruct (Z.even m); auto.
  - intros ->. reflexivity.
Qed.

(** What [binary_round_aux] computes: a shift to the working precision,
    a rounding to the mantissa below or above, and a renormalisation. *)
Lemma binary_round_aux_char s m e l :
  0 <= m ->
  exists m2,
    (m2 = m / 2 ^ shift m e \/ m2 = m / 2 ^ shift m e + 1)
    /\ (l = loc_Exact -> m mod 2 ^ shift m e = 0 -> m2 = m / 2 ^ shift m e)
    /\ binary_round_aux prec emax s m e l =
       pack s (m2 / 2 ^ shift m2 (e + shift m e))
              (e + shift m e + shift m2 (e + shift m e)).
Proof.
  intros Hm. unfold binary_round_aux.
  destruct (shr_fexp_char m e l Hm) as (mrs & E1 & Em & El).
  rewrite E1.
  set (m2 := round_nearest_even (shr_m mrs) (loc_of_shr_record mrs)).
  assert (H1 : 0 <= m / 2 ^ shift m e).
  { apply Z.div_pos; [assumption |].
    apply Z.pow_pos_nonneg; [lia | apply shift_nonneg]. }
  destruct (round_nearest_even_char (shr_m mrs) (loc_of_shr_record mrs))
    as [Hor Hex].
  fold m2 in Hor, Hex. rewrite Em in Hor, Hex.
  assert (Hm2 : 0 <= m2) by lia.
  destruct (shr_fexp_char m2 (e + shift m e) loc_Exact Hm2)
    as (mrs2 & E2 & Em2 & _).
  rewrite E2. exists m2. split; [exact Hor |]. split.
  - intros Hl Hmod. apply Hex. apply El; assumption.
  - rewrite Em2. unfold pack. reflexivity.
Qed.

Lemma Zdigits2_mono a b : 0 < a -> a <= b -> Zdigits2 a <= Zdigits2 b.
Proof.
  intros Ha Hab. rewrite !Zdigits2_log2 by lia.
  pose proof (Z.log2_le_mono a b Hab). lia.
Qed.

Lemma pack_not_nan s m e : 0 <= m -> is_nan (pack s m e) = false.
Proof.
  intros Hm. destruct m as [| p | p]; try lia; cbn [pack]; [reflexivity |].
  destruct (e <=? emax - prec); reflexivity.
Qed.

Lemma binary_round_aux_not_nan s m e l :
  0 <= m -> is_nan (binary_round_aux prec emax s m e l) = false.
Proof.
  intros Hm.
  destruct (binary_round_aux_char s m e l Hm) as (m2 & Hor & _ & ->).
  apply pack_not_nan. apply Z.div_pos.
  - assert (0 <= m / 2 ^ shift m e); [| lia].
    apply Z.div_pos; [assumption |].
    apply Z.pow_pos_nonneg; [lia | apply shift_nonneg].
  - apply Z.pow_pos_nonneg; [lia | apply shift_nonneg].
Qed.

(** A smaller value has at most as many digits above its exponent. *)
Lemma value_digits_le a x b y :
  0 < a -> 0 < b -> 0 <= x -> 0 <= y ->
  a * 2 ^ x <= b * 2 ^ y -> Zdigits2 a + x <= Zdigits2 b + y.
Proof.
  intros Ha Hb Hx Hy Hle.
  pose proof (Zdigits2_pos a Ha) as Hda.
  pose proof (Zdigits2_pos b Hb) as Hdb.
  assert (H1 : 2 ^ (Zdigits2 a - 1) <= a) by (apply Zdigits2_le_pow2; lia).
  assert (H2 : b < 2 ^ Zdigits2 b) by (apply Zdigits2_lt_pow2; lia).
  assert (H3 : 2 ^ (Zdigits2 a - 1 + x) < 2 ^ (Zdigits2 b + y)).
  { rewrite !Z.pow_add_r by lia.
    assert (0 < 2 ^ x) by (apply Z.pow_pos_nonneg; lia).
    assert (0 < 2 ^ y) by (apply Z.pow_pos_nonneg; lia).
    nia. }
  apply Z.pow_lt_mono_r_iff in H3; lia.
Qed.

(** After the first shift of an aligned mantissa, the renormalisation
    shifts by a non-negative amount smaller than the number of digits. *)
Lemma renorm_facts m e m2 :
  0 < m -> e <= fexp32 (Zdigits2 m + e) ->
  m / 2 ^ shift m e <= m2 -> 0 < m2 ->
  e + shift m e = fexp32 (Zdigits2 m + e)
  /\ shift m2 (e + shift m e)
     = fexp32 (Zdigits2 m2 + (e + shift m e)) - (e + shift m e)
  /\ shift m2 (e + shift m e) < Zdigits2 m2.
Proof.
  intros Hm Hal Hle Hm2.
  assert (Hn : shift m e = fexp32 (Zdigits2 m + e) - e) by (unfold shift; lia).
  pose proof (Zdigits2_pos m2 Hm2) as Hd2.
  pose proof (Zdigits2_pos m Hm) as Hd.
  set (e1 := e + shift m e) in *.
  assert (He1 : e1 <= fexp32 (Zdigits2 m2 + e1)).
  { rewrite fexp32_eq in Hal, Hn |- *. unfold e1.
    destruct (Z_le_gt_dec (Zdigits2 m + e - 24) (-149)); [lia |].
    assert (Hn' : shift m e = Zdigits2 m - 24) by lia.
    destruct (Zdigits2_shift m (shift m e) Hm) as [Hq Hdq]; [lia | lia |].
    assert (Zdigits2 (m / 2 ^ shift m e) <= Zdigits2 m2)
      by (apply Zdigits2_mono; lia).
    lia. }
  assert (Hlo : -149 <= e1) by (unfold e1; rewrite fexp32_eq in Hn; lia).
  split; [unfold e1; lia |].
  assert (Hn2 : shift m2 e1 = fexp32 (Zdigits2 m2 + e1) - e1)
    by (unfold shift; lia).
  split; [exact Hn2 |].
  rewrite fexp32_eq in Hn2, He1. lia.
Qed.

(** A mantissa that is not wider than the format allows at its exponent
    is rounded to a canonical float. *)
Lemma binary_round_aux_valid s m e l :
  0 < m -> e <= fexp32 (Zdigits2 m + e) ->
  valid (binary_round_aux prec emax s m e l) = true.
Proof.
  intros Hm Hal.
  destruct (binary_round_aux_char s m e l (Z.lt_le_incl _ _ Hm))
    as (m2 & Hor & _ & ->).
  pose proof (shift_nonneg m e) as Hn.
  assert (H2n : 0 < 2 ^ shift m e) by (apply Z.pow_pos_nonneg; lia).
  assert (H1 : 0 <= m / 2 ^ shift m e) by (apply Z.div_pos; lia).
  destruct (Z.eq_dec m2 0) as [-> | Hnz].
  { rewrite Z.div_0_l; [reflexivity |].
    apply Z.pow_nonzero; [lia | apply shift_nonneg]. }
  assert (Hm2 : 0 < m2) by lia.
  destruct (renorm_facts m e m2 Hm Hal) as (He1 & Hn2 & Hlt); [lia | exact Hm2 |].
  set (e1 := e + shift m e) in *. set (n2 := shift m2 e1) in *.
  destruct (Zdigits2_shift m2 n2 Hm2) as [Hq Hdq];
    [unfold n2; apply shift_nonneg | exact Hlt |].
  destruct (m2 / 2 ^ n2) as [| p | p] eqn:Ep; try lia.
  cbn [pack]. destruct (e1 + n2 <=? emax - prec) eqn:Ele; [| reflexivity].
  cbn [valid valid_binary].
  unfold SpecFloat.bounded, SpecFloat.canonical_mantissa.
  rewrite Ele, andb_true_r. apply Z.eqb_eq.
  change (Z.pos (digits2_pos p)) with (Zdigits2 (Z.pos p)).
  rewrite Hdq. change (fexp prec emax) with fexp32.
  replace (Zdigits2 m2 - n2 + (e1 + n2)) with (Zdigits2 m2 + e1) by lia.
  lia.
Qed.

(** Rounding is bounded by every canonical float above the exact value. *)
Lemma binary_round_aux_le s m e l kb eb E :
  0 < m -> e <= fexp32 (Zdigits2 m + e) ->
  0 < kb -> fexp32 (Zdigits2 kb + eb) = eb -> eb <= 104 ->
  E <= e -> E <= eb ->
  m * 2 ^ (e - E) < kb * 2 ^ (eb - E)
  \/ (m * 2 ^ (e - E) = kb * 2 ^ (eb - E) /\ l = loc_Exact) ->
  binary_round_aux prec emax s m e l = S754_zero s
  \/ exists m3 e3,
       binary_round_aux prec emax s m e l = S754_finite s m3 e3
       /\ E <= e3 <= eb
       /\ Zpos m3 * 2 ^ (e3 - E) <= kb * 2 ^ (eb - E).
Proof.
  intros Hm Hal Hkb Hcb Heb HE HEb Hle.
  destruct (binary_round_aux_char s m e l (Z.lt_le_incl _ _ Hm))
    as (m2 & Hor & Hex & Er).
  set (n := shift m e) in *.
  pose proof (shift_nonneg m e) as Hn. fold n in Hn.
  assert (H2n : 0 < 2 ^ n) by (apply Z.pow_pos_nonneg; lia).
  assert (H1 : 0 <= m / 2 ^ n) by (apply Z.div_pos; lia).
  destruct (Z.eq_dec m2 0) as [E0 | Hnz].
  { left. rewrite Er, E0. rewrite Z.div_0_l; [reflexivity |].
    apply Z.pow_nonzero; [lia | apply shift_nonneg]. }
  assert (Hm2 : 0 < m2) by lia.
  destruct (renorm_facts m e m2 Hm Hal) as (He1 & Hn2 & Hlt); [fold n; lia | exact Hm2 |].
  fold n in He1, Hn2, Hlt.
  set (e1 := e + n) in *. set (n2 := shift m2 e1) in *.
  pose proof (shift_nonneg m2 e1) as Hn2'. fold n2 in Hn2'.
  (* the exponent of the first shift does not exceed that of the bound *)
  assert (Hd1 : Zdigits2 m + (e - E) <= Zdigits2 kb + (eb - E))
    by (apply value_digits_le; lia).
  assert (He1b : e1 <= eb) by (rewrite fexp32_eq in He1, Hcb; lia).
  (* the rounded mantissa does not exceed the bound on its grid *)
  assert (Ha : 0 < 2 ^ (e - E)) by (apply Z.pow_pos_nonneg; lia).
  assert (Hc : 0 < 2 ^ (eb - e1)) by (apply Z.pow_pos_nonneg; lia).
  assert (Hpow : 2 ^ (eb - E) = 2 ^ (eb - e1) * 2 ^ n * 2 ^ (e - E)).
  { rewrite <- !Z.pow_add_r by lia. f_equal. unfold e1. lia. }
  assert (Hm2k : m2 <= kb * 2 ^ (eb - e1)).
  { rewrite Hpow in Hle.
    set (a := 2 ^ (e - E)) in *. set (b := 2 ^ n) in *.
    set (c := 2 ^ (eb - e1)) in *.
    destruct Hle as [Hlt' | [Heq Hl]].
    - assert (m < b * (kb * c)) by nia.
      assert (m / b < kb * c) by (apply Z.div_lt_upper_bound; lia).
      lia.
    - assert (Emk : m = (kb * c) * b) by nia.
      assert (Hmod : m mod b = 0) by (rewrite Emk; apply Z.mod_mul; lia).
      rewrite (Hex Hl Hmod). rewrite Emk, Z.div_mul by lia. lia. }
  (* hence the final exponent does not exceed that of the bound either *)
  assert (Hd2 : Zdigits2 m2 + (e1 - E) <= Zdigits2 kb + (eb - E)).
  { apply value_digits_le; try lia.
    replace (eb - E) with ((eb - e1) + (e1 - E)) by lia.
    rewrite Z.pow_add_r by (unfold e1; lia).
    assert (0 < 2 ^ (e1 - E)) by (apply Z.pow_pos_nonneg; unfold e1; lia).
    nia. }
  assert (He3b : e1 + n2 <= eb) by (rewrite fexp32_eq in Hn2, Hcb; lia).
  destruct (Zdigits2_shift m2 n2 Hm2) as [Hq Hdq]; [lia | lia |].
  right. rewrite Er.
  destruct (m2 / 2 ^ n2) as [| p | p] eqn:Ep; try lia.
  exists p, (e1 + n2). cbn [pack].
  replace (e1 + n2 <=? emax - prec) with true
    by (symmetry; apply Z.leb_le; unfold emax, prec; lia).
  split; [reflexivity |]. split; [unfold e1; lia |].
  assert (H2n2 : 0 < 2 ^ n2) by (apply Z.pow_pos_nonneg; lia).
  assert (Hc3 : 0 < 2 ^ (eb - (e1 + n2))) by (apply Z.pow_pos_nonneg; lia).
  assert (Hg : 0 < 2 ^ (e1 + n2 - E)) by (apply Z.pow_pos_nonneg; unfold e1; lia).
  assert (Hpow2 : 2 ^ (eb - e1) = 2 ^ (eb - (e1 + n2)) * 2 ^ n2).
  { rewrite <- Z.pow_add_r by lia. f_equal. lia. }
  assert (Hpow3 : 2 ^ (eb - E) = 2 ^ (eb - (e1 + n2)) * 2 ^ (e1 + n2 - E)).
  { rewrite <- Z.pow_add_r by (unfold e1; lia). f_equal. lia. }
  rewrite Hpow3. rewrite Hpow2 in Hm2k.
  assert (Hp : Zpos p <= kb * 2 ^ (eb - (e1 + n2))).
  { rewrite <- Ep. apply Z.div_le_upper_bound; [lia |]. lia. }
  nia.
Qed.

(** *** Normal operands *)

Lemma Zdigits2_unique m d :
  0 < m -> 2 ^ (d - 1) <= m < 2 ^ d -> Zdigits2 m = d.
Proof.
  intros Hm [Hlo Hhi].
  apply Zdigits2_le_pow2 in Hlo; [| assumption].
  apply Zdigits2_lt_pow2 in Hhi; [| assumption]. lia.
Qed.

Lemma normal_m_digits m : normal_m m -> Zdigits2 (Zpos m) = 24.
Proof. intros H. apply Zdigits2_unique; [lia | exact H]. Qed.

Lemma binary_round_aux_normal s m e l :
  0 < m -> 24 <= Zdigits2 m ->
  -149 <= Zdigits2 m + e - 24 <= 103 ->
  exists m3 e3,
    binary_round_aux prec emax s m e l = S754_finite s m3 e3
    /\ normal_m m3
    /\ (e3 = Zdigits2 m + e - 24 \/ e3 = Zdigits2 m + e - 23).
Proof.
  intros Hm Hd He.
  destruct (binary_round_aux_char s m e l (Z.lt_le_incl _ _ Hm))
    as (m2 & Hor & _ & ->).
  assert (Hn : shift m e = Zdigits2 m - 24)
    by (unfold shift; rewrite fexp32_eq; lia).
  rewrite Hn in *.
  destruct (Zdigits2_shift m (Zdigits2 m - 24) Hm) as [Hq Hdq]; [lia | lia |].
  set (m1 := m / 2 ^ (Zdigits2 m - 24)) in *.
  assert (H1 : 2 ^ 23 <= m1 < 2 ^ 24).
  { split.
    - apply Zdigits2_le_pow2; lia.
    - apply Zdigits2_lt_pow2; lia. }
  set (e1 := e + (Zdigits2 m - 24)).
  destruct (Z_lt_ge_dec m2 (2 ^ 24)) as [Hlt | Hge].
  - assert (Hd2 : Zdigits2 m2 = 24) by (apply Zdigits2_unique; lia).
    assert (Hn2 : shift m2 e1 = 0)
      by (unfold shift, e1; rewrite fexp32_eq, Hd2; lia).
    rewrite Hn2, Z.pow_0_r, Z.div_1_r, Z.add_0_r.
    destruct m2 as [| p | p]; try lia.
    exists p, e1. cbn [pack].
    replace (e1 <=? emax - prec) with true
      by (symmetry; apply Z.leb_le; unfold e1, emax, prec; lia).
    split; [reflexivity |]. split; [unfold normal_m; lia |].
    unfold e1. lia.
  - assert (Em2 : m2 = 2 ^ 24) by lia.
    assert (Hd2 : Zdigits2 m2 = 25) by (rewrite Em2; reflexivity).
    assert (Hn2 : shift m2 e1 = 1)
      by (unfold shift, e1; rewrite fexp32_eq, Hd2; lia).
    rewrite Hn2, Em2.
    exists (8388608%positive), (e1 + 1).
    change (2 ^ 24 / 2 ^ 1) with (Zpos 8388608). cbn [pack].
    replace (e1 + 1 <=? emax - prec) with true
      by (symmetry; apply Z.leb_le; unfold e1, emax, prec; lia).
    split; [reflexivity |]. split; [unfold normal_m; lia |].
    unfold e1. lia.
Qed.

Lemma mul_normal sx mx ex sy my ey :
  normal_m mx -> normal_m my -> -172 <= ex + ey <= 79 ->
  exists m3 e3,
    mul (S754_finite sx mx ex) (S754_finite sy my ey)
    = S754_finite (xorb sx sy) m3 e3
    /\ normal_m m3
    /\ ex + ey + 23 <= e3 <= ex + ey + 25.
Proof.
  intros Hx Hy He. unfold mul. cbn [SFmul].
  unfold normal_m in Hx, Hy.
  assert (Hp : 2 ^ 46 <= Zpos (mx * my) < 2 ^ 48).
  { rewrite Pos2Z.inj_mul.
    change (2 ^ 46) with (2 ^ 23 * 2 ^ 23).
    change (2 ^ 48) with (2 ^ 24 * 2 ^ 24). nia. }
  assert (Hd : 47 <= Zdigits2 (Zpos (mx * my)) <= 48).
  { split.
    - assert (46 < Zdigits2 (Zpos (mx * my)))
        by (apply Zdigits2_le_pow2; lia).
      lia.
    - apply Zdigits2_lt_pow2; lia. }
  destruct (binary_round_aux_normal (xorb sx sy) (Zpos (mx * my))
              (ex + ey) loc_Exact) as (m3 & e3 & Er & Hn & He3);
    [lia | lia | lia |].
  exists m3, e3. split; [exact Er |]. split; [exact Hn | lia].
Qed.

Lemma new_location_exact m : new_location m 0 = loc_Exact.
Proof.
  unfold new_location, new_location_even, new_location_odd.
  destruct (Z.even m); reflexivity.
Qed.

Lemma SFdiv_core_char mx ex my ey :
  let e' := Z.min (fexp32 (Zdigits2 (Zpos mx) + ex - (Zdigits2 (Zpos my) + ey)))
                  (ex - ey) in
  let s := ex - ey - e' in
  SFdiv_core_binary prec emax (Zpos mx) ex (Zpos my) ey
  = (Zpos mx * 2 ^ s / Zpos my, e',
     new_location (Zpos my) ((Zpos mx * 2 ^ s) mod Zpos my))
  /\ 0 <= s.
Proof.
  cbn zeta. unfold SFdiv_core_binary. change (fexp prec emax) with fexp32.
  set (e' := Z.min _ (ex - ey)).
  assert (Hs : 0 <= ex - ey - e') by (unfold e'; lia).
  split; [| exact Hs].
  destruct (ex - ey - e') as [| p | p] eqn:Es; try lia.
  - rewrite Z.pow_0_r, Z.mul_1_r. unfold Z.div, Z.modulo.
    destruct (Z.div_eucl (Zpos mx) (Zpos my)). reflexivity.
  - rewrite Z.shiftl_mul_pow2 by lia. unfold Z.div, Z.modulo.
    destruct (Z.div_eucl (Zpos mx * 2 ^ Zpos p) (Zpos my)). reflexivity.
Qed.

Lemma binary_round_aux_zero_emin s l :
  binary_round_aux prec emax s 0 (-149) l = S754_zero s
  \/ binary_round_aux prec emax s 0 (-149) l = S754_finite s 1 (-149).
Proof. destruct l as [| []]; vm_compute; auto. Qed.

Lemma div_normal sx mx ex sy my ey :
  normal_m mx -> normal_m my -> -125 <= ex - ey <= 126 ->
  exists m3 e3,
    div (S754_finite sx mx ex) (S754_finite sy my ey)
    = S754_finite (xorb sx sy) m3 e3
    /\ normal_m m3
    /\ ex - ey - 24 <= e3 <= ex - ey - 22.
Proof.
  intros Hx Hy He. unfold div. cbn [SFdiv].
  destruct (SFdiv_core_char mx ex my ey) as [Ec _]. rewrite Ec. clear Ec.
  rewrite (normal_m_digits _ Hx), (normal_m_digits _ Hy), fexp32_eq.
  replace (Z.min (Z.max (24 + ex - (24 + ey) - 24) (-149)) (ex - ey))
    with (ex - ey - 24) by lia.
  replace (ex - ey - (ex - ey - 24)) with 24 by lia.
  unfold normal_m in Hx, Hy.
  set (q := Zpos mx * 2 ^ 24 / Zpos my).
  assert (Hq : 2 ^ 23 <= q < 2 ^ 25).
  { split.
    - apply Z.div_le_lower_bound; [lia |].
      change (2 ^ 24) with (2 * 2 ^ 23) in *. nia.
    - apply Z.div_lt_upper_bound; [lia |].
      change (2 ^ 25) with 33554432.
      change (2 ^ 23) with 8388608 in *. change (2 ^ 24) with 16777216 in *.
      nia. }
  assert (Hd : 24 <= Zdigits2 q <= 25).
  { split.
    - assert (23 < Zdigits2 q) by (apply Zdigits2_le_pow2; lia). lia.
    - apply Zdigits2_lt_pow2; lia. }
  destruct (binary_round_aux_normal (xorb sx sy) q (ex - ey - 24)
              (new_location (Zpos my) ((Zpos mx * 2 ^ 24) mod Zpos my)))
    as (m3 & e3 & Er & Hn & He3); [lia | lia | lia |].
  exists m3, e3. split; [exact Er |]. split; [exact Hn | lia].
Qed.

(** *** Results that are never NaN, results that are canonical *)

Lemma pos_iter_xO m d : Zpos (Pos.iter xO m d) = Zpos m * 2 ^ Zpos d.
Proof.
  induction d as [| d IH] using Pos.peano_ind.
  - cbn [Pos.iter]. lia.
  - rewrite Pos.iter_succ, Pos2Z.inj_succ, Z.pow_succ_r by lia.
    rewrite Pos2Z.inj_xO, IH. lia.
Qed.

Lemma shl_align_aligned m e :
  let '(mz, ez) := shl_align m e (fexp32 (Zdigits2 (Zpos m) + e)) in
  ez <= fexp32 (Zdigits2 (Zpos mz) + ez).
Proof.
  unfold shl_align.
  destruct (fexp32 (Zdigits2 (Zpos m) + e) - e) as [| d | d] eqn:Ed;
    try lia.
  rewrite pos_iter_xO.
  assert (Hd : Zdigits2 (Zpos m * 2 ^ Zpos d) = Zdigits2 (Zpos m) + Zpos d).
  { assert (0 < 2 ^ Zpos d) by (apply Z.pow_pos_nonneg; lia).
    rewrite !Zdigits2_log2 by lia.
    rewrite Z.log2_mul_pow2 by lia. lia. }
  rewrite Hd.
  replace (Zdigits2 (Zpos m) + Zpos d
           + fexp32 (Zdigits2 (Zpos m) + e))
    with (Zdigits2 (Zpos m) + e) by lia.
  lia.
Qed.

Lemma binary_round_valid s m e :
  valid (binary_round prec emax s m e) = true
  /\ is_nan (binary_round prec emax s m e) = false.
Proof.
  unfold binary_round. pose proof (shl_align_aligned m e) as H.
  change (fexp prec emax (Zpos (digits2_pos m) + e))
    with (fexp32 (Zdigits2 (Zpos m) + e)).
  destruct (shl_align m e (fexp32 (Zdigits2 (Zpos m) + e))) as [mz ez].
  split.
  - apply binary_round_aux_valid; [lia | exact H].
  - apply binary_round_aux_not_nan; lia.
Qed.

Lemma binary_normalize_valid m e sz :
  valid (binary_normalize prec emax m e sz) = true
  /\ is_nan (binary_normalize prec emax m e sz) = false.
Proof.
  destruct m as [| p | p]; cbn [binary_normalize];
    [split; reflexivity | apply binary_round_valid ..].
Qed.

Lemma of_Z_not_nan n : is_nan (of_Z n) = false.
Proof. apply binary_normalize_valid. Qed.

Lemma div_finite_not_nan x s m e :
  is_nan x = false -> is_nan (div x (S754_finite s m e)) = false.
Proof.
  destruct x as [sx | sx | | sx mx ex]; try discriminate;
    intros _; try reflexivity.
  unfold div. cbn [SFdiv]. unfold SFdiv_core_binary.
  set (m' := match _ with Z0 => Zpos mx | Zpos _ => _ | Zneg _ => 0 end).
  assert (Hm' : 0 <= m').
  { unfold m'. destruct (ex - e - _) as [| p | p]; try lia.
    apply Z.shiftl_nonneg. lia. }
  pose proof (Z.div_pos m' (Zpos m) Hm' (Pos2Z.is_pos m)) as Hq.
  unfold Z.div in Hq. destruct (Z.div_eucl m' (Zpos m)) as [q r].
  apply binary_round_aux_not_nan. exact Hq.
Qed.

(** Adding to a finite float: the sum is canonical and is not NaN. *)
Lemma add_finite_valid s m e y :
  valid (S754_finite s m e) = true -> is_nan y = false ->
  valid (add (S754_finite s m e) y) = true
  /\ is_nan (add (S754_finite s m e) y) = false.
Proof.
  intros Hv Hy. destruct y as [sy | sy | | sy my ey]; try discriminate.
  - split; [exact Hv | reflexivity].
  - split; reflexivity.
  - unfold add. cbn [SFadd]. apply binary_normalize_valid.
Qed.

Lemma add_zero_r s m e s0 :
  add (S754_finite s m e) (S754_zero s0) = S754_finite s m e.
Proof. reflexivity. Qed.

(** *** Comparisons *)

Lemma SFcompare_antisym x y :
  SFcompare y x = option_map CompOpp (SFcompare x y).
Proof.
  destruct x as [sx | sx | | sx mx ex], y as [sy | sy | | sy my ey];
    try destruct sx; try destruct sy; try reflexivity;
    cbn [SFcompare option_map]; f_equal.
  - rewrite (Z.compare_antisym ey ex).
    destruct (ey ?= ex); cbn [CompOpp]; try reflexivity.
    rewrite (Pos.compare_cont_antisym mx my Eq). reflexivity.
  - rewrite (Z.compare_antisym ey ex).
    destruct (ey ?= ex); cbn [CompOpp]; try reflexivity.
    rewrite (Pos.compare_cont_antisym mx my Eq). reflexivity.
Qed.

Lemma SFcompare_refl x : is_nan x = false -> SFcompare x x = Some Eq.
Proof.
  destruct x as [s | s | | s m e]; try destruct s;
    try reflexivity; try discriminate; intros _; cbn [SFcompare];
    rewrite Z.compare_refl, Pos.compare_cont_refl; reflexivity.
Qed.

Lemma SFcompare_nan x y :
  SFcompare x y = None -> is_nan x = true \/ is_nan y = true.
Proof.
  destruct x as [sx | sx | | sx mx ex], y as [sy | sy | | sy my ey];
    cbn; auto; discriminate.
Qed.

Lemma neqb_refl x : is_nan x = false -> neqb x x = false.
Proof.
  intros H. unfold neqb, SFeqb. rewrite (SFcompare_refl x H). reflexivity.
Qed.

(** [!(x < y)] gives [y <= x] unless an operand is NaN. *)
Lemma not_ltb_leb x y :
  is_nan x = false -> is_nan y = false ->
  ltb x y = false -> leb y x = true.
Proof.
  unfold ltb, leb, SFltb, SFleb. intros Hx Hy.
  rewrite (SFcompare_antisym x y).
  destruct (SFcompare x y) as [[] |] eqn:Ec; cbn; try reflexivity;
    try discriminate.
  intros _. destruct (SFcompare_nan _ _ Ec); congruence.
Qed.

Lemma leb_finite_pos_inv m1 e1 m2 e2 :
  leb (S754_finite false m1 e1) (S754_finite false m2 e2) = true ->
  e1 < e2 \/ (e1 = e2 /\ Zpos m1 <= Zpos m2).
Proof.
  unfold leb, SFleb. cbn [SFcompare].
  destruct (Z.compare_spec e1 e2) as [E | L | G]; try discriminate.
  - fold (Pos.compare m1 m2).
    destruct (Pos.compare_spec m1 m2); try discriminate; intros _; lia.
  - intros _. lia.
Qed.

Lemma digits_normal_m m : Zdigits2 (Zpos m) = 24 -> normal_m m.
Proof.
  intros H. split.
  - apply Zdigits2_le_pow2; lia.
  - apply Zdigits2_lt_pow2; lia.
Qed.

Lemma valid_finite_inv s m e :
  valid (S754_finite s m e) = true ->
  fexp32 (Zdigits2 (Zpos m) + e) = e /\ e <= 104.
Proof.
  cbn [valid valid_binary]. unfold SpecFloat.bounded, SpecFloat.canonical_mantissa.
  intros H. apply andb_prop in H. destruct H as [H1 H2].
  apply Z.eqb_eq in H1. apply Z.leb_le in H2.
  split; [exact H1 | exact H2].
Qed.

End F32Facts.

Module SpinnerFacts.
Import F32 F32Facts Spinner.

(** The floats of the admissible frequency range. *)
Lemma in_range_inv f :
  valid f = true -> in_range f = true ->
  exists m e,
    f = S754_finite false m e /\ normal_m m /\ -20 <= e <= -17
    /\ (e = -20 -> 10485760 <= Zpos m)
    /\ (e = -17 -> Zpos m <= 9830400).
Proof.
  intros Hv Hr. unfold in_range in Hr. apply andb_prop in Hr.
  destruct Hr as [Hlo Hhi].
  change MIN_SINE_FREQ with (S754_finite false 10485760 (-20)) in Hlo.
  change MAX_SINE_FREQ with (S754_finite false 9830400 (-17)) in Hhi.
  destruct f as [s | s | | s m e]; try destruct s; try discriminate.
  apply leb_finite_pos_inv in Hlo, Hhi.
  destruct (valid_finite_inv _ _ _ Hv) as [Hc _].
  rewrite fexp32_eq in Hc.
  exists m, e. split; [reflexivity |].
  split; [apply digits_normal_m; lia |]. lia.
Qed.

Lemma clamp_in_range x :
  valid x = true -> is_nan x = false ->
  valid (clamp x) = true /\ in_range (clamp x) = true.
Proof.
  intros Hv Hn. unfold clamp, gtb.
  destruct (ltb x MIN_SINE_FREQ) eqn:E1; [split; reflexivity |].
  destruct (SFltb MAX_SINE_FREQ x) eqn:E2; [split; reflexivity |].
  split; [exact Hv |]. unfold in_range.
  rewrite (not_ltb_leb x MIN_SINE_FREQ Hn eq_refl E1).
  rewrite (not_ltb_leb MAX_SINE_FREQ x eq_refl Hn E2). reflexivity.
Qed.

Ltac normal_const :=
  unfold normal_m; split; [apply Z.leb_le | apply Z.ltb_lt]; reflexivity.

(** The sample period of an admissible frequency is a finite float. *)
Lemma getInterruptMicroseconds_finite f :
  valid f = true -> in_range f = true ->
  is_finite (getInterruptMicroseconds f) = true.
Proof.
  intros Hv Hr.
  destruct (in_range_inv f Hv Hr) as (m & e & -> & Hm & He & _).
  unfold getInterruptMicroseconds.
  change (of_Z SAMPLES_PER_CYCLE) with (S754_finite false 9830400 (-14)).
  change (of_Z 1000000) with (S754_finite false 16000000 (-4)).
  destruct (mul_normal false m e false 9830400 (-14))
    as (mp & ep & -> & Hmp & Hep); [exact Hm | normal_const | lia |].
  destruct (div_normal false 16000000 (-4) (xorb false false) mp ep)
    as (mq & eq & -> & _); [normal_const | exact Hmp | lia |].
  reflexivity.
Qed.

(** The canonical floats between zero and [MAX_SINE_FREQ]. *)
Lemma leb_MAX_inv f :
  valid f = true ->
  leb (S754_zero false) f = true -> leb f MAX_SINE_FREQ = true ->
  (exists s, f = S754_zero s)
  \/ exists m e,
       f = S754_finite false m e /\ -149 <= e <= -17
       /\ Zpos m < 2 ^ 24
       /\ Zpos m * 2 ^ (e - -200) <= 9830400 * 2 ^ (-17 - -200).
Proof.
  intros Hv Hlo Hhi.
  change MAX_SINE_FREQ with (S754_finite false 9830400 (-17)) in Hhi.
  destruct f as [s | s | | s m e]; try destruct s; try discriminate.
  - left. eexists. reflexivity.
  - left. eexists. reflexivity.
  - right. apply leb_finite_pos_inv in Hhi.
    destruct (valid_finite_inv _ _ _ Hv) as [Hc _].
    rewrite fexp32_eq in Hc.
    assert (Hd : Zdigits2 (Zpos m) <= 24) by lia.
    apply Zdigits2_lt_pow2 in Hd; [| lia].
    exists m, e. split; [reflexivity |]. split; [lia |].
    split; [exact Hd |].
    destruct Hhi as [Hlt | [-> Hm]].
    + replace (-17 - -200) with ((-18 - e) + 1 + (e - -200)) by lia.
      rewrite !Z.pow_add_r by lia.
      assert (0 < 2 ^ (e - -200)) by (apply Z.pow_pos_nonneg; lia).
      assert (0 < 2 ^ (-18 - e)) by (apply Z.pow_pos_nonneg; lia).
      change (2 ^ 1) with 2. change (2 ^ 24) with 16777216 in Hd. nia.
    + apply Z.mul_le_mono_nonneg_r; [apply Z.pow_nonneg; lia | exact Hm].
Qed.

(** The product [(STEPPER_AMP_RES - 1) * f] does not exceed 4725. *)
Lemma gain_product_le m e :
  -149 <= e <= -17 -> Zpos m < 2 ^ 24 ->
  Zpos m * 2 ^ (e - -200) <= 9830400 * 2 ^ (-17 - -200) ->
  let p := mul (S754_finite false 16515072 (-18)) (S754_finite false m e) in
  valid p = true
  /\ (p = S754_zero false
      \/ exists mp ep,
           p = S754_finite false mp ep /\ -200 <= ep <= -11
           /\ Zpos mp * 2 ^ (ep - -200) <= 9676800 * 2 ^ (-11 - -200)).
Proof.
  intros He Hm Hle. cbn zeta. unfold mul. cbn [SFmul xorb].
  assert (Hp : 2 ^ 23 <= Zpos (16515072 * m)).
  { rewrite Pos2Z.inj_mul. change (2 ^ 23) with 8388608. lia. }
  assert (Hd : 23 < Zdigits2 (Zpos (16515072 * m)))
    by (apply Zdigits2_le_pow2; lia).
  assert (Hal : -18 + e <= fexp32 (Zdigits2 (Zpos (16515072 * m)) + (-18 + e)))
    by (rewrite fexp32_eq; lia).
  split; [apply binary_round_aux_valid; [lia | exact Hal] |].
  apply (binary_round_aux_le false _ _ loc_Exact 9676800 (-11) (-200));
    try lia; try reflexivity.
  rewrite Pos2Z.inj_mul.
  assert (Et : 2 ^ (e - -200) = 2 ^ 18 * 2 ^ (-18 + e - -200)).
  { rewrite <- Z.pow_add_r by lia. f_equal. lia. }
  rewrite Et in Hle.
  assert (Ht : 0 < 2 ^ (-18 + e - -200)) by (apply Z.pow_pos_nonneg; lia).
  set (t := 2 ^ (-18 + e - -200)) in *.
  change (-17 - -200) with 183 in Hle. change (-11 - -200) with 189.
  assert (Hle' : 16515072 * Zpos m * t <= 9676800 * 2 ^ 189) by lia.
  destruct (Z_lt_le_dec (16515072 * Zpos m * t) (9676800 * 2 ^ 189));
    [left; assumption | right; split; [lia | reflexivity]].
Qed.

(** The quotient by [MAX_SINE_FREQ] of a float that does not exceed 4725
    does not exceed 63. *)
Lemma gain_quotient_le mp ep :
  valid (S754_finite false mp ep) = true -> ep <= -11 ->
  Zpos mp * 2 ^ (ep - -200) <= 9676800 * 2 ^ (-11 - -200) ->
  let g := div (S754_finite false mp ep) (S754_finite false 9830400 (-17)) in
  g = S754_zero false
  \/ exists mg eg,
       g = S754_finite false mg eg /\ -200 <= eg <= -18
       /\ Zpos mg * 2 ^ (eg - -200) <= 16515072 * 2 ^ (-18 - -200).
Proof.
  intros Hv Hep Hle. cbn zeta. unfold div. cbn [SFdiv xorb].
  destruct (valid_finite_inv _ _ _ Hv) as [Hc _]. rewrite fexp32_eq in Hc.
  pose proof (Zdigits2_pos (Zpos mp) (Pos2Z.is_pos mp)) as Hd1.
  destruct (SFdiv_core_char mp ep 9830400 (-17)) as [Ec Hs].
  rewrite Ec. clear Ec.
  change (Zdigits2 (Zpos 9830400)) with 24 in *.
  rewrite fexp32_eq in *.
  set (d1 := Zdigits2 (Zpos mp)) in *.
  set (e' := Z.min (Z.max (d1 + ep - (24 + -17) - 24) (-149)) (ep - -17)) in *.
  set (s := ep - -17 - e') in *.
  assert (H2s : 0 < 2 ^ s) by (apply Z.pow_pos_nonneg; lia).
  set (q := Zpos mp * 2 ^ s / 9830400).
  set (r := (Zpos mp * 2 ^ s) mod 9830400).
  assert (Eqr : Zpos mp * 2 ^ s = 9830400 * q + r) by (apply Z.div_mod; lia).
  assert (Hr : 0 <= r < 9830400) by (apply Z.mod_pos_bound; lia).
  assert (Hq0 : 0 <= q) by (apply Z.div_pos; lia).
  assert (Hmp : 2 ^ (d1 - 1) <= Zpos mp)
    by (apply Zdigits2_le_pow2; unfold d1; lia).
  (* either the quotient is below the smallest subnormal, or it is aligned *)
  assert (Hcases : (q = 0 /\ e' = -149)
                   \/ (0 < q /\ e' <= fexp32 (Zdigits2 q + e'))).
  { destruct (Z_le_gt_dec (d1 + ep - (24 + -17) - 24) (-149)) as [Hsub | Hnorm].
    - assert (e' = -149) by (unfold e'; lia).
      destruct (Z.eq_dec q 0); [left; auto | right].
      split; [lia |]. rewrite fexp32_eq. lia.
    - right. assert (Es : s = 48 - d1) by (unfold s, e'; lia).
      assert (H47 : 2 ^ 47 <= Zpos mp * 2 ^ s).
      { replace 47 with ((d1 - 1) + s) by lia.
        rewrite Z.pow_add_r by lia. nia. }
      assert (Hq : 2 ^ 23 <= q).
      { apply Z.div_le_lower_bound; [lia |].
        change (2 ^ 47) with 140737488355328 in H47.
        change (2 ^ 23) with 8388608. lia. }
      assert (23 < Zdigits2 q) by (apply Zdigits2_le_pow2; lia).
      split; [lia |]. rewrite fexp32_eq. unfold e'. lia. }
  destruct Hcases as [[Eq0 Ee'] | [Hq Hal]].
  - rewrite Eq0, Ee'.
    destruct (binary_round_aux_zero_emin false (new_location 9830400 r))
      as [-> | ->]; [left; reflexivity | right].
    exists 1%positive, (-149). split; [reflexivity |]. split; [lia |].
    vm_compute. discriminate.
  - assert (He'lo : -149 <= e') by (unfold e'; lia).
    apply (binary_round_aux_le false q e' _ 16515072 (-18) (-200));
      try lia; try reflexivity.
    assert (Ht : 0 < 2 ^ (e' - -200)) by (apply Z.pow_pos_nonneg; lia).
    assert (Epow : 2 ^ s * 2 ^ (e' - -200) = 2 ^ (ep - -200) * 2 ^ 17).
    { rewrite <- !Z.pow_add_r by lia. f_equal. unfold s. lia. }
    change (-11 - -200) with 189 in Hle. change (-18 - -200) with 182.
    set (t := 2 ^ (e' - -200)) in *. set (u := 2 ^ s) in *.
    set (v := 2 ^ (ep - -200)) in *.
    change (2 ^ 17) with 131072 in Epow.
    assert (Hqt : q * t * 9830400 <= 16515072 * 2 ^ 182 * 9830400) by nia.
    destruct (Z_lt_le_dec (q * t) (16515072 * 2 ^ 182)) as [Hlt | Hge];
      [left; exact Hlt | right].
    split; [lia |].
    assert (r = 0) by nia.
    subst r. rewrite H. apply new_location_exact.
Qed.

Lemma trunc_le_63 mg eg :
  -200 <= eg <= -18 ->
  Zpos mg * 2 ^ (eg - -200) <= 16515072 * 2 ^ (-18 - -200) ->
  exists g, trunc (S754_finite false mg eg) = Some g /\ 0 <= g <= 63.
Proof.
  intros He Hle. destruct eg as [| p | p]; try lia.
  cbn [trunc cond_Zopp]. eexists. split; [reflexivity |].
  assert (H2p : 0 < 2 ^ Zpos p) by (apply Z.pow_pos_nonneg; lia).
  assert (Ht : 0 < 2 ^ (Z.neg p - -200)) by (apply Z.pow_pos_nonneg; lia).
  assert (Epow : 2 ^ 200 = 2 ^ (Z.neg p - -200) * 2 ^ Zpos p).
  { rewrite <- Z.pow_add_r by lia. f_equal. lia. }
  change (16515072 * 2 ^ (-18 - -200)) with (63 * 2 ^ 200) in Hle.
  rewrite Epow in Hle.
  split; [apply Z.div_pos; lia |].
  apply Z.div_le_upper_bound; [lia |]. nia.
Qed.

(** For a canonical frequency between zero and [MAX_SINE_FREQ] the
    quotient is cut to an integer between 0 and 63. *)
Lemma gain_quotient_bound f :
  valid f = true ->
  leb (of_Z 0) f = true -> leb f MAX_SINE_FREQ = true ->
  exists g, trunc (gain_quotient f) = Some g /\ 0 <= g <= 63.
Proof.
  intros Hv Hlo Hhi.
  destruct (leb_MAX_inv f Hv Hlo Hhi) as [[s ->] | (m & e & -> & He & Hm & Hle)].
  - exists 0. split; [destruct s; reflexivity | lia].
  - unfold gain_quotient.
    change (of_Z (STEPPER_AMP_RES - 1)) with (S754_finite false 16515072 (-18)).
    change MAX_SINE_FREQ with (S754_finite false 9830400 (-17)).
    destruct (gain_product_le m e He Hm Hle) as [Hpv [-> | (mp & ep & Ep & Hep & Hp)]].
    + exists 0. split; [reflexivity | lia].
    + rewrite Ep in Hpv |- *.
      destruct (gain_quotient_le mp ep Hpv) as [-> | (mg & eg & -> & Heg & Hg)];
        [lia | exact Hp | exists 0; split; [reflexivity | lia] |].
      apply trunc_le_63; [lia | exact Hg].
Qed.

Lemma gain_quotient_bound_in_range f :
  valid f = true -> in_range f = true ->
  exists g, trunc (gain_quotient f) = Some g /\ 0 <= g <= 63.
Proof.
  intros Hv Hr. pose proof Hr as Hr'. unfold in_range in Hr'.
  apply andb_prop in Hr'. destruct Hr' as [_ Hhi].
  apply gain_quotient_bound; [exact Hv | | exact Hhi].
  destruct (in_range_inv f Hv Hr) as (m & e & -> & _). reflexivity.
Qed.

(** *** The invariant of the control loop *)

Lemma candidate_ok i s :
  Inv s ->
  valid (candidate i s) = true /\ is_nan (candidate i s) = false.
Proof.
  intros [Hl Hr Hv Hrg _]. unfold candidate, preset.
  destruct (useEncoder s =? 0).
  - destruct (level_eqb (freqToggle i) LOW); assumption.
  - destruct (in_range_inv _ Hv Hrg) as (m & e & E & _).
    rewrite E in Hv |- *. apply add_finite_valid; [exact Hv |].
    change (of_Z 4) with (S754_finite false 8388608 (-21)).
    apply div_finite_not_nan, of_Z_not_nan.
Qed.

Lemma loop_events i s :
  snd (loop i s) = []
  \/ snd (loop i s) = cascade (sineFrequency (fst (loop i s))).
Proof.
  unfold loop. destruct (toggle_edge i s); [left; reflexivity |].
  destruct (neqb _ _); [right | left]; reflexivity.
Qed.

Lemma loop_Inv i s : Inv s -> Inv (fst (loop i s)).
Proof.
  intros HI. pose proof (candidate_ok i s HI) as [Hcv Hcn].
  destruct (clamp_in_range _ Hcv Hcn) as [Hv' Hr'].
  destruct HI as [Hl Hr Hv Hrg Hp]. unfold loop.
  destruct (toggle_edge i s); [constructor; assumption |].
  destruct (neqb _ _); constructor; cbn [fst freqLeft freqRight
    sineFrequency interruptMicroseconds]; auto.
Qed.

Lemma turn_Inv d s : Inv s -> Inv (turn d s).
Proof. intros [Hl Hr Hv Hrg Hp]. constructor; assumption. Qed.

Lemma setup_Inv toggle : Inv (fst (setup toggle)).
Proof.
  destruct toggle; constructor; try split; vm_compute; reflexivity.
Qed.

Lemma run_Inv toggle steps : Inv (run toggle steps).
Proof.
  induction steps as [| [d i] steps IH]; cbn [run].
  - apply setup_Inv.
  - apply loop_Inv, turn_Inv, IH.
Qed.

(** C3: whatever the toggle reads at start-up, however the knob is
    turned and whatever the pins read afterwards, after every iteration
    of [loop] the stored frequency is a canonical float of
    [[MIN_SINE_FREQ, MAX_SINE_FREQ]], and the stored sample period is the
    one derived from it and is finite (neither NaN nor infinite). *)
Theorem C3_frequency_clamped_period_finite
  (toggle : level) (steps : list (Z * pins)) :
  let s := run toggle steps in
  valid (sineFrequency s) = true
  /\ leb MIN_SINE_FREQ (sineFrequency s) = true
  /\ leb (sineFrequency s) MAX_SINE_FREQ = true
  /\ interruptMicroseconds s = getInterruptMicroseconds (sineFrequency s)
  /\ is_finite (interruptMicroseconds s) = true.
Proof.
  cbn zeta. destruct (run_Inv toggle steps) as [_ _ Hv Hrg Hp].
  pose proof (getInterruptMicroseconds_finite _ Hv Hrg) as Hf.
  unfold in_range in Hrg. apply andb_prop in Hrg. destruct Hrg as [H1 H2].
  rewrite Hp. auto.
Qed.

Lemma list_eq_dec_nil {A} (l : list A) : {l = []} + {l <> []}.
Proof. destruct l; [left; reflexivity | right; discriminate]. Qed.

(** *** Gain *)

(** C9: for every canonical frequency of [[MIN_SINE_FREQ, MAX_SINE_FREQ]]
    the cast to [int8_t] in [setGain] is defined and the code written to
    the amplifier lies in [[0, STEPPER_AMP_RES - 1]]. *)
Theorem C9_gain_code_in_range (f : float) :
  valid f = true -> in_range f = true ->
  exists g,
    gain f = Some g /\ 0 <= g <= STEPPER_AMP_RES - 1
    /\ setGain f = [WireBeginTransmission STEPPER_AMP_ADDRESS;
                    WireWrite (Some g); WireEndTransmission].
Proof.
  intros Hv Hr. destruct (gain_quotient_bound_in_range f Hv Hr) as (g & Eg & Hg).
  exists g. unfold setGain, gain. fold (gain_quotient f).
  unfold to_int8. rewrite Eg.
  replace ((-128 <=? g) && (g <=? 127)) with true; [auto |].
  symmetry. apply andb_true_intro. split; apply Z.leb_le; lia.
Qed.

(** C9 at 50 Hz. *)
Lemma C9_witness :
  exists g,
    gain (of_Z 50) = Some g /\ 0 <= g <= STEPPER_AMP_RES - 1
    /\ setGain (of_Z 50) = [WireBeginTransmission STEPPER_AMP_ADDRESS;
                            WireWrite (Some g); WireEndTransmission].
Proof.
  apply (C9_gain_code_in_range (of_Z 50)); reflexivity.
Defined.

(** Every gain code that an iteration of [loop] writes from a state
    satisfying the invariant lies in [[0, STEPPER_AMP_RES - 1]]. *)
Lemma loop_gain_writes_in_range i s b :
  Inv s -> In (WireWrite b) (snd (loop i s)) ->
  exists g, b = Some g /\ 0 <= g <= STEPPER_AMP_RES - 1.
Proof.
  intros HI Hin. pose proof (loop_Inv i s HI) as [_ _ Hv Hr _].
  destruct (loop_events i s) as [E | E]; rewrite E in Hin; [destruct Hin |].
  destruct (gain_quotient_bound_in_range _ Hv Hr) as (g & Eg & Hg).
  unfold cascade, setGain, gain, to_int8 in Hin. rewrite Eg in Hin.
  replace ((-128 <=? g) && (g <=? 127)) with true in Hin
    by (symmetry; apply andb_true_intro; split; apply Z.leb_le; lia).
  exists g. split; [| unfold STEPPER_AMP_RES; lia].
  cbn in Hin.
  repeat (destruct Hin as [Hin | Hin]; [try discriminate |]);
    try (inversion Hin; reflexivity); destruct Hin.
Qed.

(** C7, as stated, fails: [setGain] does not clamp, and at 100 Hz it
    writes the code 84 where the clamped value is 63. *)
Lemma C7_no_clamp_at_100Hz :
  gain (of_Z 100) = Some 84 /\ gain_spec (of_Z 100) = Some 63
  /\ gain (of_Z 100) <> gain_spec (of_Z 100).
Proof. vm_compute. repeat split. discriminate. Qed.

(** *** The recompute cascade *)

Lemma in_range_not_nan f : in_range f = true -> is_nan f = false.
Proof.
  destruct f; try reflexivity. discriminate.
Qed.

Lemma leb_not_ltb x y : leb x y = true -> ltb y x = false.
Proof.
  unfold leb, ltb, SFleb, SFltb. rewrite (SFcompare_antisym x y).
  destruct (SFcompare x y) as [[] |]; cbn; congruence.
Qed.

Lemma clamp_id f : in_range f = true -> clamp f = f.
Proof.
  unfold in_range, clamp, gtb. intros H. apply andb_prop in H.
  destruct H as [H1 H2].
  rewrite (leb_not_ltb _ _ H1).
  change (SFltb MAX_SINE_FREQ f) with (ltb MAX_SINE_FREQ f).
  rewrite (leb_not_ltb _ _ H2). reflexivity.
Qed.

(** C4, as stated, fails in both directions.  In preset mode, at
    start-up, two iterations with the same toggle reading trigger no
    cascade at all, the frequency being already the preset.  In
    incremental mode, when the knob is turned by the same four counts
    before each of two iterations, the frequency moves by 1 Hz twice and
    the timer is reconfigured twice. *)
Lemma C4_not_exactly_one_cascade :
  (let s := run LOW [] in
   let r1 := loop idle s in
   let r2 := loop idle (fst r1) in
   useEncoder s = 0 /\ reconfigures (snd r1 ++ snd r2) = 0%nat)
  /\ (let s := run LOW [(0, press)] in
      let r1 := loop idle (turn 4 s) in
      let r2 := loop idle (turn 4 (fst r1)) in
      useEncoder s = 1
      /\ reconfigures (snd r1) = 1%nat /\ reconfigures (snd r2) = 1%nat
      /\ reconfigures (snd r1 ++ snd r2) = 2%nat).
Proof. vm_compute. repeat split. Qed.

Lemma second_iteration_silent i s :
  Inv s -> snd (loop i s) <> [] -> snd (loop i (fst (loop i s))) = [].
Proof.
  intros HI Hne. pose proof (candidate_ok i s HI) as [Hcv Hcn].
  destruct (clamp_in_range _ Hcv Hcn) as [Hv' Hr'].
  assert (H1 : exists s1,
             fst (loop i s) = s1
             /\ useEncoder s1 = useEncoder s
             /\ sineFrequency s1 = clamp (candidate i s)
             /\ encoder s1 = (if useEncoder s =? 0 then encoder s else 0)
             /\ freqLeft s1 = freqLeft s /\ freqRight s1 = freqRight s).
  { unfold loop in Hne |- *.
    destruct (toggle_edge i s); [now elim Hne |].
    destruct (neqb _ _); [| now elim Hne].
    eexists. repeat split. }
  destruct H1 as (s1 & -> & Hu & Hf & He & Hl & Hr).
  unfold loop. destruct (toggle_edge i s1); [reflexivity |].
  assert (Ec : clamp (candidate i s1) = clamp (candidate i s)).
  { unfold candidate, preset. rewrite Hu, Hf, He, Hl, Hr.
    destruct (useEncoder s =? 0) eqn:Eu; [reflexivity |].
    fold (preset (freqToggle i) s).
    replace (add (sineFrequency s) (div (of_Z (encoder s)) (of_Z 4)))
      with (candidate i s) by (unfold candidate; rewrite Eu; reflexivity).
    destruct (in_range_inv _ Hv' Hr') as (m & e & E & _).
    rewrite E. change (div (of_Z 0) (of_Z 4)) with (S754_zero false).
    rewrite add_zero_r, <- E. apply clamp_id. exact Hr'. }
  rewrite Ec, Hf, neqb_refl by (apply in_range_not_nan; exact Hr').
  reflexivity.
Qed.

(** An iteration that emits nothing leaves frequency and period alone. *)
Lemma loop_quiet_frequency i s :
  snd (loop i s) = [] ->
  sineFrequency (fst (loop i s)) = sineFrequency s
  /\ interruptMicroseconds (fst (loop i s)) = interruptMicroseconds s.
Proof.
  unfold loop. destruct (toggle_edge i s); [split; reflexivity |].
  destruct (neqb _ _); [| split; reflexivity].
  unfold cascade, setGain. cbn [snd app]. discriminate.
Qed.

(** After an iteration without a mode toggle that found the frequency
    unchanged, the same pin readings find it unchanged again. *)
Lemma unchanged_iteration_repeats i s :
  Inv s -> toggle_edge i s = false ->
  neqb (clamp (candidate i s)) (sineFrequency s) = false ->
  snd (loop i (fst (loop i s))) = [].
Proof.
  intros [_ _ Hv Hrg _] He En.
  assert (H1 : exists s1,
             fst (loop i s) = s1
             /\ useEncoder s1 = useEncoder s
             /\ sineFrequency s1 = sineFrequency s
             /\ encoder s1 = (if useEncoder s =? 0 then encoder s else 0)
             /\ freqLeft s1 = freqLeft s /\ freqRight s1 = freqRight s).
  { unfold loop. rewrite He, En. eexists. repeat split. }
  destruct H1 as (s1 & -> & Hu & Hf & Hc & Hl & Hr).
  unfold loop. destruct (toggle_edge i s1); [reflexivity |].
  assert (Ec : neqb (clamp (candidate i s1)) (sineFrequency s1) = false).
  { unfold candidate, preset in En |- *. rewrite Hu, Hf, Hc, Hl, Hr.
    destruct (useEncoder s =? 0); [exact En |].
    destruct (in_range_inv _ Hv Hrg) as (m & e & E & _).
    rewrite E. change (div (of_Z 0) (of_Z 4)) with (S754_zero false).
    rewrite add_zero_r, <- E, (clamp_id _ Hrg).
    apply neqb_refl, in_range_not_nan, Hrg. }
  rewrite Ec. reflexivity.
Qed.

Lemma cascade_counts f :
  reconfigures (cascade f) = 1%nat /\ gain_writes (cascade f) = 1%nat
  /\ display_writes (cascade f) = 1%nat.
Proof. repeat split. Qed.

Lemma cascade_not_nil f : cascade f <> [].
Proof. unfold cascade, setGain. cbn [app]. discriminate. Qed.

(** C4, amended: take any reachable state, let the knob move, and run
    two successive iterations of [loop] with the same pin readings and no
    further movement of the knob.  If the first iteration is not a mode
    toggle and its clamped candidate differs from the stored frequency,
    it runs the cascade and the second iteration emits nothing: over the
    two there is exactly one timer restart, one gain write and one display
    write.  An iteration whose clamped candidate equals the stored
    frequency emits nothing and leaves frequency and period as they were,
    and so does the iteration that follows it.  In every case the two
    iterations together restart the timer, write the gain and write the
    display at most once. *)
Theorem C4_cascade_once_per_change
  (toggle : level) (steps : list (Z * pins)) (d : Z) (i : pins) :
  let s := turn d (run toggle steps) in
  let c := clamp (candidate i s) in
  let r1 := loop i s in
  let r2 := loop i (fst r1) in
  let evs := snd r1 ++ snd r2 in
  (toggle_edge i s = false -> neqb c (sineFrequency s) = true ->
   snd r1 = cascade c /\ snd r2 = []
   /\ sineFrequency (fst r2) = c
   /\ reconfigures evs = 1%nat /\ gain_writes evs = 1%nat
   /\ display_writes evs = 1%nat)
  /\ (neqb c (sineFrequency s) = false ->
      snd r1 = []
      /\ sineFrequency (fst r1) = sineFrequency s
      /\ interruptMicroseconds (fst r1) = interruptMicroseconds s)
  /\ (toggle_edge i s = false -> neqb c (sineFrequency s) = false ->
      evs = [])
  /\ (snd r1 = [] \/ snd r2 = [])
  /\ (reconfigures evs <= 1)%nat /\ (gain_writes evs <= 1)%nat
  /\ (display_writes evs <= 1)%nat.
Proof.
  cbn zeta. pose proof (turn_Inv d _ (run_Inv toggle steps)) as HI.
  set (s := turn d (run toggle steps)) in *.
  assert (Hone : snd (loop i s) = [] \/ snd (loop i (fst (loop i s))) = []).
  { destruct (list_eq_dec_nil (snd (loop i s))) as [E | N];
      [left; exact E | right; apply second_iteration_silent; assumption]. }
  split; [| split; [| split; [| split; [exact Hone |]]]].
  - intros He En.
    assert (E1 : loop i s
                 = ({| freqLeft := freqLeft s; freqRight := freqRight s;
                       useEncoder := useEncoder s;
                       encoderHasBeenPressed :=
                         if level_eqb (encSwitch2 i) HIGH then false
                         else encoderHasBeenPressed s;
                       sineFrequency := clamp (candidate i s);
                       interruptMicroseconds :=
                         getInterruptMicroseconds (clamp (candidate i s));
                       encoder := if useEncoder s =? 0 then encoder s else 0 |},
                    cascade (clamp (candidate i s)))).
    { unfold loop. rewrite He, En. reflexivity. }
    assert (E2 : snd (loop i (fst (loop i s))) = []).
    { apply second_iteration_silent; [exact HI |].
      rewrite E1. apply cascade_not_nil. }
    destruct (loop_quiet_frequency i _ E2) as [Hf _].
    rewrite E2, app_nil_r, Hf. rewrite E1.
    destruct (cascade_counts (clamp (candidate i s))) as (C1 & C2 & C3).
    cbn [fst snd sineFrequency]. auto 7.
  - intros En. unfold loop. destruct (toggle_edge i s); [auto |].
    rewrite En. auto.
  - intros He En.
    rewrite (unchanged_iteration_repeats i s HI He En), app_nil_r.
    unfold loop. rewrite He, En. reflexivity.
  - destruct (loop_events i s) as [E1 | E1];
      destruct (loop_events i (fst (loop i s))) as [E2 | E2];
      destruct Hone as [E0 | E0];
      try (rewrite E1); try (rewrite E2); try (rewrite app_nil_r);
      cbn [app];
      try (repeat split; apply Nat.le_0_l);
      try (repeat split; apply Nat.le_refl);
      exfalso.
    + rewrite E1 in E0. exact (cascade_not_nil _ E0).
    + rewrite E2 in E0. exact (cascade_not_nil _ E0).
Qed.

(** C4, amended, in incremental mode with the knob turned by four
    counts: the first iteration raises the frequency by 1 Hz and runs the
    cascade, the second does nothing. *)
Lemma C4_witness :
  let s := turn 4 (run LOW [(0, press)]) in
  let r1 := loop idle s in
  let r2 := loop idle (fst r1) in
  snd r1 = cascade (clamp (candidate idle s)) /\ snd r2 = []
  /\ sineFrequency (fst r2) = clamp (candidate idle s)
  /\ reconfigures (snd r1 ++ snd r2) = 1%nat
  /\ gain_writes (snd r1 ++ snd r2) = 1%nat
  /\ display_writes (snd r1 ++ snd r2) = 1%nat.
Proof.
  destruct (C4_cascade_once_per_change LOW [(0, press)] 4 idle) as (H1 & _).
  apply H1; vm_compute; reflexivity.
Defined.

(** *** The mode toggle *)

(** C10: on an iteration that finds the encoder switch LOW while
    [encoderHasBeenPressed] is false, [loop] sets the debounce flag,
    toggles [useEncoder], resets the encoder position to 0 and returns:
    nothing is emitted, the frequency and the period are unchanged, and
    the outcome does not depend on what the knob had accumulated. *)
Theorem C10_mode_toggle_returns_early (i : pins) (s : state) :
  encoderHasBeenPressed s = false -> encSwitch1 i = LOW ->
  loop i s =
    ({| freqLeft := freqLeft s; freqRight := freqRight s;
        useEncoder := lnot (useEncoder s);
        encoderHasBeenPressed := true;
        sineFrequency := sineFrequency s;
        interruptMicroseconds := interruptMicroseconds s;
        encoder := 0 |}, [])
  /\ forall delta, loop i (turn delta s) = loop i s.
Proof.
  intros Hp Hl. unfold loop, toggle_edge, turn.
  cbn [encoderHasBeenPressed freqLeft freqRight useEncoder sineFrequency
       interruptMicroseconds].
  rewrite Hp, Hl. cbn [negb level_eqb andb]. split; reflexivity.
Qed.

(** C10 at start-up, the knob turned by 12 counts and the switch
    pressed. *)
Lemma C10_witness :
  loop press (turn 12 (fst (setup LOW))) =
    ({| freqLeft := freqLeft (fst (setup LOW));
        freqRight := freqRight (fst (setup LOW));
        useEncoder := 1;
        encoderHasBeenPressed := true;
        sineFrequency := sineFrequency (fst (setup LOW));
        interruptMicroseconds := interruptMicroseconds (fst (setup LOW));
        encoder := 0 |}, []).
Proof.
  destruct (C10_mode_toggle_returns_early press (turn 12 (fst (setup LOW))))
    as [H _]; [reflexivity | reflexivity |].
  exact H.
Defined.

End SpinnerFacts.

(** ** The sine table and the slider loop *)

Module TableFacts.
Import Table.
Local Open Scope R_scope.

Lemma dacBitRange_eq : dacBitRange = 4095.
Proof. unfold dacBitRange, DAC_RESOLUTION. simpl. lra. Qed.

Lemma exactSample_bounds i : 0 <= exactSample i <= 4095.
Proof.
  unfold exactSample. rewrite dacBitRange_eq.
  pose proof (SIN_bound (2 * PI / IZR SAMPLES_PER_CYCLE * IZR i)) as [Hlo Hhi].
  lra.
Qed.

Lemma exact_accurate : accurate exact.
Proof. intros i. unfold exact. lra. Qed.

Lemma accurate_bounds err i : accurate err -> - / 4 <= err i <= / 4.
Proof. intros H. exact (H i). Qed.

Lemma Int_part_bracket x z : IZR z <= x < IZR z + 1 -> Int_part x = z.
Proof. intros [H1 H2]. symmetry. apply Int_part_spec. lra. Qed.

(** What the cast yields on a sample that is off by at most a quarter. *)
Lemma Rtrunc_spec x :
  - / 4 <= x ->
  (0 <= Rtrunc x)%Z /\ x - 1 < IZR (Rtrunc x)
  /\ (0 <= x -> IZR (Rtrunc x) <= x) /\ (x < 0 -> Rtrunc x = 0%Z).
Proof.
  intros Hx. unfold Rtrunc. destruct (Rle_dec 0 x) as [Hpos | Hneg].
  - destruct (base_Int_part x) as [H1 H2].
    split; [| split; [lra | split; [intros _; exact H1 | lra]]].
    assert (H : (-1 < Int_part x)%Z) by (apply lt_IZR; lra). lia.
  - assert (E : Int_part (- x) = 0%Z) by (apply Int_part_bracket; lra).
    rewrite E. cbn. split; [lia |]. split; [lra |]. split; [lra | reflexivity].
Qed.

Lemma sineSample_bounds err i :
  accurate err -> - / 4 <= sineSample err i <= 4095 + / 4.
Proof.
  intros H. unfold sineSample.
  pose proof (exactSample_bounds i). pose proof (accurate_bounds err i H). lra.
Qed.

(** On accurate samples the cast does not wrap. *)
Lemma sineTable_entry_Rtrunc err i :
  accurate err -> sineTable_entry err i = Rtrunc (sineSample err i).
Proof.
  intros H. unfold sineTable_entry, uint16_cast.
  pose proof (sineSample_bounds err i H) as [Hlo Hhi].
  destruct (Rtrunc_spec _ Hlo) as (H0 & H1 & H2 & H3).
  apply Z.mod_small. split; [exact H0 |].
  destruct (Rle_dec 0 (sineSample err i)) as [Hpos | Hneg].
  - assert (Hle : (Rtrunc (sineSample err i) <= 4095)%Z).
    { assert (Hlt : (Rtrunc (sineSample err i) < 4096)%Z)
        by (apply lt_IZR; specialize (H2 Hpos); lra).
      lia. }
    lia.
  - rewrite H3 by lra. reflexivity.
Qed.

Lemma createSineTable_nth err (i : nat) :
  (i < Z.to_nat SAMPLES_PER_CYCLE)%nat ->
  nth i (createSineTable err) 0%Z = sineTable_entry err (Z.of_nat i).
Proof.
  intros Hi. unfold createSineTable.
  rewrite (nth_indep _ 0%Z (sineTable_entry err (Z.of_nat 0)))
    by (rewrite length_map, length_seq; exact Hi).
  rewrite (map_nth (fun i => sineTable_entry err (Z.of_nat i))).
  rewrite seq_nth by exact Hi. reflexivity.
Qed.

Lemma createSineTable_at err i :
  accurate err -> (0 <= i < SAMPLES_PER_CYCLE)%Z ->
  nth (Z.to_nat i) (createSineTable err) 0%Z = Rtrunc (sineSample err i).
Proof.
  intros H Hi.
  rewrite createSineTable_nth by (unfold SAMPLES_PER_CYCLE in *; lia).
  rewrite Z2Nat.id by lia. apply sineTable_entry_Rtrunc, H.
Qed.

Lemma exactSample_0 : exactSample 0 = 4095 / 2.
Proof.
  unfold exactSample. rewrite dacBitRange_eq, Rmult_0_r, sin_0. lra.
Qed.

Lemma exactSample_half : exactSample 300 = 4095 / 2.
Proof.
  unfold exactSample, SAMPLES_PER_CYCLE. rewrite dacBitRange_eq.
  replace (2 * PI / 600 * 300) with PI by lra.
  rewrite sin_PI. lra.
Qed.

Lemma exactSample_quarter : exactSample 150 = 4095.
Proof.
  unfold exactSample, SAMPLES_PER_CYCLE. rewrite dacBitRange_eq.
  replace (2 * PI / 600 * 150) with (PI / 2) by lra.
  rewrite sin_PI2. lra.
Qed.

Lemma exactSample_three_quarters : exactSample 450 = 0.
Proof.
  unfold exactSample, SAMPLES_PER_CYCLE. rewrite dacBitRange_eq.
  replace (2 * PI / 600 * 450) with (3 * (PI / 2)) by lra.
  rewrite sin_3PI2. lra.
Qed.

Lemma mirror_range i :
  (0 <= i < SAMPLES_PER_CYCLE)%Z -> (0 <= mirror i < SAMPLES_PER_CYCLE)%Z.
Proof.
  intros _. unfold mirror. apply Z.mod_pos_bound. reflexivity.
Qed.

(** The exact sample at the mirrored index is the reflection of the
    sample about the midpoint of the range. *)
Lemma exactSample_mirror i :
  (0 <= i < SAMPLES_PER_CYCLE)%Z ->
  exactSample (mirror i) = 4095 - exactSample i.
Proof.
  intros Hi. unfold mirror, SAMPLES_PER_CYCLE in *.
  destruct (Z.eq_dec i 0) as [-> | Hnz].
  - change ((600 - 0) mod 600)%Z with 0%Z. rewrite exactSample_0. lra.
  - rewrite Z.mod_small by lia. unfold exactSample, SAMPLES_PER_CYCLE.
    rewrite dacBitRange_eq, minus_IZR.
    replace (2 * PI / 600 * (600 - IZR i))
      with (- (2 * PI / 600 * IZR i) + 2 * INR 1 * PI) by (simpl; lra).
    rewrite sin_period, sin_neg. lra.
Qed.

(** An accurate sample near the midpoint is cut to 2047. *)
Lemma Rtrunc_midpoint x :
  - / 4 <= x <= / 4 -> Rtrunc (4095 / 2 + x) = 2047%Z.
Proof.
  intros H. unfold Rtrunc.
  destruct (Rle_dec 0 (4095 / 2 + x)) as [_ | N]; [| lra].
  apply Int_part_bracket. lra.
Qed.

(** C8, as stated, fails: the cast truncates [2047.5] to 2047. *)
Lemma C8_first_entry_is_not_2048 :
  nth 0 (createSineTable exact) 0%Z = 2047%Z
  /\ nth 0 (createSineTable exact) 0%Z <> 2048%Z.
Proof.
  change 0%nat with (Z.to_nat 0).
  rewrite (createSineTable_at exact 0 exact_accurate)
    by (unfold SAMPLES_PER_CYCLE; lia).
  unfold sineSample. rewrite exactSample_0.
  rewrite Rtrunc_midpoint by apply exact_accurate.
  split; [reflexivity | discriminate].
Qed.

(** C8, amended: with 600 samples and 12 bits, under every accurate
    evaluation [sineTable[0]] and [sineTable[N/2]] both hold 2047, the
    midpoint [4095 / 2] of the range truncated by the cast. *)
Theorem C8_endpoints_truncated_midpoint (err : Z -> R) :
  accurate err ->
  nth 0 (createSineTable err) 0%Z = 2047%Z
  /\ nth (Z.to_nat (SAMPLES_PER_CYCLE / 2)) (createSineTable err) 0%Z
     = 2047%Z
  /\ Rtrunc (dacBitRange / 2) = 2047%Z.
Proof.
  intros H. split; [| split].
  - change 0%nat with (Z.to_nat 0).
    rewrite (createSineTable_at err 0 H)
      by (unfold SAMPLES_PER_CYCLE; lia).
    unfold sineSample. rewrite exactSample_0. apply Rtrunc_midpoint, H.
  - change (SAMPLES_PER_CYCLE / 2)%Z with 300%Z.
    rewrite (createSineTable_at err _ H)
      by (unfold SAMPLES_PER_CYCLE; lia).
    unfold sineSample. rewrite exactSample_half. apply Rtrunc_midpoint, H.
  - rewrite dacBitRange_eq. rewrite <- (Rplus_0_r (4095 / 2)).
    apply Rtrunc_midpoint. lra.
Qed.

(** C8, amended, for the evaluation without rounding error. *)
Lemma C8_witness :
  nth 0 (createSineTable exact) 0%Z = 2047%Z
  /\ nth (Z.to_nat (SAMPLES_PER_CYCLE / 2)) (createSineTable exact) 0%Z
     = 2047%Z
  /\ Rtrunc (dacBitRange / 2) = 2047%Z.
Proof.
  apply (C8_endpoints_truncated_midpoint exact).
  intros i. unfold exact. lra.
Defined.

(** Under every accurate evaluation the entries a quarter and three
    quarters of the way through the cycle are at opposite ends of the
    range. *)
Lemma quarter_entries err :
  accurate err ->
  (4094 <= nth 150 (createSineTable err) 0)%Z
  /\ nth 450 (createSineTable err) 0%Z = 0%Z.
Proof.
  intros H.
  change 450%nat with (Z.to_nat 450). change 150%nat with (Z.to_nat 150).
  rewrite !(createSineTable_at err _ H)
    by (unfold SAMPLES_PER_CYCLE; lia).
  unfold sineSample. rewrite exactSample_quarter, exactSample_three_quarters.
  pose proof (accurate_bounds err 150%Z H) as H150.
  pose proof (accurate_bounds err 450%Z H) as H450.
  split.
  - destruct (Rtrunc_spec (4095 + err 150%Z)) as (_ & H1 & _); [lra |].
    assert (Hlt : (4093 < Rtrunc (4095 + err 150%Z))%Z) by (apply lt_IZR; lra).
    lia.
  - unfold Rtrunc. destruct (Rle_dec 0 (0 + err 450%Z)) as [Hp | Hn].
    + apply Int_part_bracket. lra.
    + rewrite (Int_part_bracket (- (0 + err 450%Z)) 0) by lra. reflexivity.
Qed.

(** C5, as stated, fails: a quarter of the way through the cycle the
    table holds 4095, at the mirrored index it holds 0. *)
Lemma C5_quarter_entries_differ :
  nth 150 (createSineTable exact) 0%Z = 4095%Z
  /\ nth (Z.to_nat (mirror 150)) (createSineTable exact) 0%Z = 0%Z
  /\ ~ (Z.abs (nth 150 (createSineTable exact) 0
               - nth (Z.to_nat (mirror 150)) (createSineTable exact) 0)
        <= 1)%Z.
Proof.
  change (Z.to_nat (mirror 150)) with 450%nat.
  destruct (quarter_entries exact exact_accurate) as [H1 H2].
  rewrite H2.
  assert (E : nth 150 (createSineTable exact) 0%Z = 4095%Z).
  { change 150%nat with (Z.to_nat 150).
    rewrite (createSineTable_at exact _ exact_accurate)
      by (unfold SAMPLES_PER_CYCLE; lia).
    unfold sineSample, exact. rewrite exactSample_quarter.
    unfold Rtrunc. destruct (Rle_dec 0 (4095 + 0)) as [_ | N]; [| lra].
    apply Int_part_bracket. lra. }
  rewrite E. repeat split. lia.
Qed.

(** C5, amended: under every accurate evaluation, an entry and the entry
    at the mirrored index are reflections of each other about the
    midpoint of the range: their sum is [2 ^ 12 - 2] within one
    quantization unit. *)
Theorem C5_mirror_entries_are_reflected (err : Z -> R) i :
  accurate err -> (0 <= i < SAMPLES_PER_CYCLE)%Z ->
  (Z.abs (nth (Z.to_nat i) (createSineTable err) 0
          + nth (Z.to_nat (mirror i)) (createSineTable err) 0
          - (2 ^ DAC_RESOLUTION - 2)) <= 1)%Z.
Proof.
  intros H Hi.
  rewrite !(createSineTable_at err _ H) by (try apply mirror_range; exact Hi).
  unfold sineSample. rewrite (exactSample_mirror i Hi).
  pose proof (exactSample_bounds i) as Hb.
  pose proof (accurate_bounds err i H) as Ha.
  pose proof (accurate_bounds err (mirror i) H) as Hm.
  set (a := exactSample i + err i) in *.
  set (b := 4095 - exactSample i + err (mirror i)) in *.
  destruct (Rtrunc_spec a) as (A0 & A1 & A2 & A3); [unfold a; lra |].
  destruct (Rtrunc_spec b) as (B0 & B1 & B2 & B3); [unfold b; lra |].
  assert (Hlo : (4092 < Rtrunc a + Rtrunc b)%Z).
  { apply lt_IZR. rewrite plus_IZR. unfold a, b in *. lra. }
  assert (Hhi : (Rtrunc a + Rtrunc b < 4096)%Z).
  { apply lt_IZR. rewrite plus_IZR.
    destruct (Rle_dec 0 a) as [Pa | Na]; destruct (Rle_dec 0 b) as [Pb | Nb].
    - specialize (A2 Pa). specialize (B2 Pb). unfold a, b in *. lra.
    - specialize (A2 Pa). rewrite B3 by lra. unfold a, b in *. lra.
    - specialize (B2 Pb). rewrite A3 by lra. unfold a, b in *. lra.
    - unfold a, b in *. lra. }
  change (2 ^ DAC_RESOLUTION - 2)%Z with 4094%Z. lia.
Qed.

(** C5, amended, at index 150 for the evaluation without rounding
    error. *)
Lemma C5_witness :
  (Z.abs (nth (Z.to_nat 150) (createSineTable exact) 0
          + nth (Z.to_nat (mirror 150)) (createSineTable exact) 0
          - (2 ^ DAC_RESOLUTION - 2)) <= 1)%Z.
Proof.
  apply (C5_mirror_entries_are_reflected exact 150).
  - intros i. unfold exact. lra.
  - unfold SAMPLES_PER_CYCLE. lia.
Defined.

End TableFacts.

Module TableF32Facts.
Import F32 TableF32.

(** In single precision too the first entry is 2047, for every [sin]
    that maps zero to zero: [(1 + 0) * 4095 / 2] is exactly 2047.5 and the
    cast truncates it. *)
Lemma sineTable_entry_0 (sin : float -> float) :
  sin (S754_zero false) = S754_zero false ->
  sineSample sin 0 = S754_finite false 16773120 (-13)
  /\ sineTable_entry sin 0 = Some 2047.
Proof.
  intros Hsin. unfold sineTable_entry, sineSample.
  change (mul (div (mul (of_Z 2) PI) (of_Z SAMPLES_PER_CYCLE)) (of_Z 0))
    with (S754_zero false).
  rewrite Hsin. split; vm_compute; reflexivity.
Qed.

End TableF32Facts.

Module TeensySineFacts.
Import F32 TeensySine.

(** C6: when the slider reads 0 the loop returns before the formula, so
    [log10] is not called; but it only sets [stepperRPM] to 0: the
    frequency and the period keep their values and the timer is left
    running, so the sampler goes on at the previous rate. *)
Theorem C6_zero_reading_leaves_timer_running
  (log10 : float -> float) (s : state) :
  loop log10 0 s =
    ({| vFreq := 0; stepperRPM := S754_zero false;
        sineFrequency := sineFrequency s;
        interruptMicroseconds := interruptMicroseconds s |}, [])
  /\ sineFrequency (fst (loop log10 0 init)) = of_Z 50
  /\ interruptMicroseconds (fst (loop log10 0 init))
     = interruptMicroseconds init
  /\ ~ In TimerEnd (snd (loop log10 0 init)).
Proof.
  split; [reflexivity |]. split; [vm_compute; reflexivity |].
  split; [reflexivity |]. intros [].
Qed.

(** The slider loop does not test whether the frequency has changed:
    every iteration that reads a non-zero value stops and restarts the
    timer, so two iterations with the same reading restart it twice. *)
Lemma loop_restarts_timer_on_every_reading
  (log10 : float -> float) (v : Z) (s : state) :
  v <> 0 ->
  let r1 := loop log10 v s in
  let r2 := loop log10 v (fst r1) in
  Spinner.reconfigures (snd r1) = 1%nat
  /\ Spinner.reconfigures (snd r2) = 1%nat
  /\ sineFrequency (fst r2) = sineFrequency (fst r1).
Proof.
  intros Hv. cbv zeta. unfold loop, useSlider.
  destruct (v =? 0) eqn:E; [apply Z.eqb_eq in E; contradiction |].
  repeat split.
Qed.

End TeensySineFacts.

(** ** Enclosures of single-precision results *)

Module F32OrderFacts.
Import F32 F32Facts F32Order.

Lemma pow2_pos k : 0 <= k -> 0 < 2 ^ k.
Proof. intros H. apply Z.pow_pos_nonneg; lia. Qed.

Lemma pow2_split a b : 0 <= a <= b -> 2 ^ b = 2 ^ (b - a) * 2 ^ a.
Proof.
  intros H. rewrite <- Z.pow_add_r by lia. f_equal. lia.
Qed.

Lemma pow2_le a b : 0 <= a <= b -> 2 ^ a <= 2 ^ b.
Proof. intros H. apply Z.pow_le_mono_r; lia. Qed.

Lemma raw_shift m e k :
  0 <= k -> -400 <= e -> raw m (e + k) = raw (m * 2 ^ k) e.
Proof.
  intros Hk He. unfold raw.
  replace (e + k + 400) with (k + (e + 400)) by lia.
  rewrite Z.pow_add_r by lia. lia.
Qed.

Lemma raw_up m e e' :
  -400 <= e <= e' -> raw m e' = raw (m * 2 ^ (e' - e)) e.
Proof.
  intros H. replace e' with (e + (e' - e)) at 1 by lia.
  apply raw_shift; lia.
Qed.

Lemma raw_le m1 m2 e : -400 <= e -> (raw m1 e <= raw m2 e <-> m1 <= m2).
Proof.
  intros He. unfold raw. pose proof (pow2_pos (e + 400)). split; nia.
Qed.

Lemma raw_lt m1 m2 e : -400 <= e -> (raw m1 e < raw m2 e <-> m1 < m2).
Proof.
  intros He. unfold raw. pose proof (pow2_pos (e + 400)). split; nia.
Qed.

Lemma raw_pos m e : 0 < m -> -400 <= e -> 0 < raw m e.
Proof.
  intros Hm He. unfold raw. pose proof (pow2_pos (e + 400)). nia.
Qed.

(** The shape of a canonical float. *)
Lemma valid_bounds s m e :
  valid (S754_finite s m e) = true ->
  -149 <= e <= 104 /\ Zpos m < 2 ^ 24 /\ (-149 < e -> 2 ^ 23 <= Zpos m).
Proof.
  intros Hv. destruct (valid_finite_inv _ _ _ Hv) as [Hc He].
  rewrite fexp32_eq in Hc.
  split; [lia |]. split.
  - apply Zdigits2_lt_pow2; lia.
  - intros H. apply Zdigits2_le_pow2; lia.
Qed.

(** A float at a higher exponent is larger. *)
Lemma raw_exponent_lt m1 e1 m2 e2 :
  -400 <= e1 -> e1 < e2 -> m1 < 2 ^ 24 -> 2 ^ 23 <= m2 ->
  raw m1 e1 < raw m2 e2.
Proof.
  intros He Hlt H1 H2. unfold raw.
  rewrite (pow2_split (e1 + 400 + 1) (e2 + 400)) by lia.
  rewrite (Z.pow_add_r 2 (e1 + 400) 1) by lia.
  assert (0 < 2 ^ (e1 + 400)) by (apply pow2_pos; lia).
  assert (0 < 2 ^ (e2 + 400 - (e1 + 400 + 1))) by (apply pow2_pos; lia).
  change (2 ^ 1) with 2. change (2 ^ 24) with 16777216 in H1.
  change (2 ^ 23) with 8388608 in H2.
  set (b := 2 ^ (e2 + 400 - (e1 + 400 + 1))) in *.
  set (a := 2 ^ (e1 + 400)) in *.
  assert (m1 * a < 16777216 * a) by (apply Z.mul_lt_mono_pos_r; lia).
  assert (8388608 * (a * 2) <= m2 * (a * 2))
    by (apply Z.mul_le_mono_nonneg_r; lia).
  assert (m2 * (a * 2) * 1 <= m2 * (a * 2) * b)
    by (apply Z.mul_le_mono_nonneg_l; nia).
  lia.
Qed.

(** Comparison of canonical floats of the same sign is comparison of
    their values. *)
Lemma SFcompare_pos m1 e1 m2 e2 :
  valid (S754_finite false m1 e1) = true ->
  valid (S754_finite false m2 e2) = true ->
  SFcompare (S754_finite false m1 e1) (S754_finite false m2 e2)
  = Some (raw (Zpos m1) e1 ?= raw (Zpos m2) e2).
Proof.
  intros H1 H2.
  destruct (valid_bounds _ _ _ H1) as (He1 & Hm1 & Hn1).
  destruct (valid_bounds _ _ _ H2) as (He2 & Hm2 & Hn2).
  cbn [SFcompare]. f_equal. symmetry.
  destruct (Z.compare_spec e1 e2) as [E | L | G].
  - subst e2. cbv iota.
    change (Pos.compare_cont Eq m1 m2) with (Pos.compare m1 m2).
    rewrite Pos2Z.inj_compare.
    destruct (Z.compare_spec (Zpos m1) (Zpos m2)) as [E | L | G].
    + rewrite E. apply Z.compare_refl.
    + apply Z.compare_lt_iff. apply raw_lt; lia.
    + apply Z.compare_gt_iff. apply raw_lt; lia.
  - apply Z.compare_lt_iff. apply raw_exponent_lt; lia.
  - apply Z.compare_gt_iff. apply raw_exponent_lt; lia.
Qed.
(** *** The value of a rounded mantissa *)

(** The float packed from a rounded mantissa has its value. *)
Lemma pack_value s m1 m2 e1 :
  -149 <= e1 -> m2 = m1 \/ m2 = m1 + 1 ->
  (-149 < e1 -> 2 ^ 23 <= m1) -> 0 <= m1 < 2 ^ 24 ->
  (m2 = 0 /\ pack s (m2 / 2 ^ shift m2 e1) (e1 + shift m2 e1) = S754_zero s)
  \/ exists m3 e3,
       Zpos m3 * 2 ^ (e3 - e1) = m2 /\ e1 <= e3 <= e1 + 1
       /\ fexp32 (Zdigits2 (Zpos m3) + e3) = e3
       /\ pack s (m2 / 2 ^ shift m2 e1) (e1 + shift m2 e1)
          = if e3 <=? 104 then S754_finite s m3 e3 else S754_infinity s.
Proof.
  intros He1 Hor Hnorm Hm1.
  destruct (Z.eq_dec m2 0) as [E0 | Hnz].
  { left. split; [exact E0 |]. rewrite E0.
    rewrite Z.div_0_l; [reflexivity |].
    apply Z.pow_nonzero; [lia | apply shift_nonneg]. }
  right. assert (Hm2 : 0 < m2) by lia.
  destruct (Z_lt_ge_dec m2 (2 ^ 24)) as [Hlt | Hge].
  - assert (Hd2 : Zdigits2 m2 <= 24) by (apply Zdigits2_lt_pow2; lia).
    assert (Hd2' : -149 < e1 -> Zdigits2 m2 = 24).
    { intros Hgt. specialize (Hnorm Hgt).
      assert (23 < Zdigits2 m2) by (apply Zdigits2_le_pow2; lia). lia. }
    assert (Hc : fexp32 (Zdigits2 m2 + e1) = e1)
      by (rewrite fexp32_eq; lia).
    assert (Hn2 : shift m2 e1 = 0) by (unfold shift; lia).
    rewrite Hn2, Z.pow_0_r, Z.div_1_r, Z.add_0_r.
    destruct m2 as [| p | p]; try lia.
    exists p, e1. rewrite Z.sub_diag, Z.pow_0_r, Z.mul_1_r.
    split; [reflexivity |]. split; [lia |]. split; [exact Hc |].
    reflexivity.
  - assert (Em2 : m2 = 2 ^ 24) by lia.
    assert (Hn2 : shift m2 e1 = 1).
    { rewrite Em2. unfold shift. change (Zdigits2 (2 ^ 24)) with 25.
      rewrite fexp32_eq. lia. }
    rewrite Hn2, Em2. change (2 ^ 24 / 2 ^ 1) with (Zpos 8388608).
    exists 8388608%positive, (e1 + 1).
    replace (e1 + 1 - e1) with 1 by lia.
    split; [reflexivity |]. split; [lia |].
    split; [change (Zdigits2 (Zpos 8388608)) with 24; rewrite fexp32_eq; lia |].
    reflexivity.
Qed.

(** [binary_round_aux] on an aligned mantissa: the mantissa is cut at the
    exponent of its format, moved to a neighbour, and the result has
    exactly the value of that neighbour. *)
Lemma binary_round_aux_value s m e l :
  0 < m -> e <= fexp32 (Zdigits2 m + e) ->
  let e1 := fexp32 (Zdigits2 m + e) in
  let m1 := m / 2 ^ (e1 - e) in
  exists m2,
    (m2 = m1 \/ m2 = m1 + 1)
    /\ (l = loc_Exact -> m mod 2 ^ (e1 - e) = 0 -> m2 = m1)
    /\ (-149 < e1 -> 2 ^ 23 <= m1)
    /\ 0 <= m1 < 2 ^ 24
    /\ ((m2 = 0 /\ binary_round_aux prec emax s m e l = S754_zero s)
        \/ exists m3 e3,
             Zpos m3 * 2 ^ (e3 - e1) = m2 /\ e1 <= e3 <= e1 + 1
             /\ fexp32 (Zdigits2 (Zpos m3) + e3) = e3
             /\ binary_round_aux prec emax s m e l
                = if e3 <=? 104 then S754_finite s m3 e3
                  else S754_infinity s).
Proof.
  intros Hm Hal. cbn zeta.
  destruct (binary_round_aux_char s m e l (Z.lt_le_incl _ _ Hm))
    as (m2 & Hor & Hex & Er).
  assert (Hn : shift m e = fexp32 (Zdigits2 m + e) - e) by (unfold shift; lia).
  rewrite Hn in Hor, Hex, Er.
  set (e1 := fexp32 (Zdigits2 m + e)) in *.
  replace (e + (e1 - e)) with e1 in Er by lia.
  set (n := e1 - e) in *.
  assert (H0n : 0 <= n) by (unfold n; lia).
  assert (H2n : 0 < 2 ^ n) by (apply pow2_pos; lia).
  pose proof (Zdigits2_pos m Hm) as Hd.
  assert (He1 : -149 <= e1) by (unfold e1; rewrite fexp32_eq; lia).
  assert (Hm1 : 0 <= m / 2 ^ n < 2 ^ 24).
  { split; [apply Z.div_pos; lia |].
    destruct (Z_lt_ge_dec n (Zdigits2 m)) as [Hlt | Hge].
    - destruct (Zdigits2_shift m n Hm H0n Hlt) as [Hq Hdq].
      apply Zdigits2_lt_pow2; [exact Hq |].
      rewrite Hdq. unfold n, e1. rewrite fexp32_eq. lia.
    - assert (m < 2 ^ n).
      { assert (m < 2 ^ Zdigits2 m) by (apply Zdigits2_lt_pow2; lia).
        assert (2 ^ Zdigits2 m <= 2 ^ n) by (apply pow2_le; lia). lia. }
      rewrite Z.div_small by lia. reflexivity. }
  assert (Hnorm : -149 < e1 -> 2 ^ 23 <= m / 2 ^ n).
  { intros Hgt.
    assert (En : n = Zdigits2 m - 24)
      by (unfold n, e1 in *; rewrite fexp32_eq in *; lia).
    destruct (Zdigits2_shift m n Hm H0n) as [Hq Hdq]; [lia |].
    apply Zdigits2_le_pow2; [exact Hq | lia]. }
  exists m2. split; [exact Hor |]. split; [exact Hex |].
  split; [exact Hnorm |]. split; [exact Hm1 |].
  rewrite Er. apply (pack_value s (m / 2 ^ n)); assumption.
Qed.

(** Rounding stays between any two canonical floats that enclose the
    exact value. *)
Lemma binary_round_aux_between s m e l ka ea kb eb :
  0 < m -> e <= fexp32 (Zdigits2 m + e) -> -400 <= e ->
  valid (S754_finite false ka ea) = true ->
  valid (S754_finite false kb eb) = true ->
  raw (Zpos ka) ea <= raw m e ->
  raw m e < raw (Zpos kb) eb
  \/ (raw m e = raw (Zpos kb) eb /\ l = loc_Exact) ->
  exists m3 e3,
    binary_round_aux prec emax s m e l = S754_finite s m3 e3
    /\ valid (S754_finite s m3 e3) = true
    /\ raw (Zpos ka) ea <= raw (Zpos m3) e3 <= raw (Zpos kb) eb.
Proof.
  intros Hm Hal He Hva Hvb Hlo Hhi.
  destruct (valid_bounds _ _ _ Hva) as (Hea & Hka & Hna).
  destruct (valid_bounds _ _ _ Hvb) as (Heb & Hkb & Hnb).
  destruct (binary_round_aux_value s m e l Hm Hal)
    as (m2 & Hor & Hex & Hnorm & Hm1 & Hres).
  set (e1 := fexp32 (Zdigits2 m + e)) in *.
  set (n := e1 - e) in *.
  assert (H0n : 0 <= n) by (unfold n; lia).
  assert (H2n : 0 < 2 ^ n) by (apply pow2_pos; lia).
  assert (He1 : -149 <= e1) by (unfold e1; rewrite fexp32_eq; lia).
  assert (Hdiv : m / 2 ^ n * 2 ^ n <= m)
    by (rewrite Z.mul_comm; apply Z.mul_div_le; lia).
  (* the neighbour lies between the two bounds *)
  assert (Hlo2 : raw (Zpos ka) ea <= raw m2 e1).
  { destruct (Z_le_gt_dec e1 ea) as [Hle | Hgt].
    - rewrite (raw_up _ e ea) in Hlo by lia.
      apply raw_le in Hlo; [| lia].
      rewrite (raw_up _ e1 ea) by lia. apply raw_le; [lia |].
      rewrite (pow2_split n (ea - e)) in Hlo by lia.
      replace (ea - e - n) with (ea - e1) in Hlo by (unfold n; lia).
      assert (Zpos ka * 2 ^ (ea - e1) <= m / 2 ^ n)
        by (apply Z.div_le_lower_bound; lia).
      lia.
    - apply Z.lt_le_incl.
      apply Z.lt_le_trans with (raw (m / 2 ^ n) e1).
      + apply raw_exponent_lt; lia.
      + apply raw_le; lia. }
  assert (Hhi2 : raw m2 e1 <= raw (Zpos kb) eb).
  { destruct (Z_le_gt_dec e1 eb) as [Hle | Hgt].
    - rewrite (raw_up _ e eb) in Hhi by lia.
      rewrite (raw_up _ e1 eb) by lia. apply raw_le; [lia |].
      rewrite (pow2_split n (eb - e)) in Hhi by lia.
      replace (eb - e - n) with (eb - e1) in Hhi by (unfold n; lia).
      set (K := Zpos kb * 2 ^ (eb - e1)) in *.
      replace (Zpos kb * (2 ^ (eb - e1) * 2 ^ n)) with (K * 2 ^ n) in Hhi
        by (unfold K; ring).
      destruct Hhi as [Hlt | [Heq Hl]].
      + apply raw_lt in Hlt; [| lia].
        assert (m / 2 ^ n < K) by (apply Z.div_lt_upper_bound; lia).
        lia.
      + assert (Emk : m = K * 2 ^ n).
        { apply Z.le_antisymm; apply raw_le with e; lia. }
        assert (Hmod : m mod 2 ^ n = 0) by (rewrite Emk; apply Z.mod_mul; lia).
        rewrite (Hex Hl Hmod). rewrite Emk, Z.div_mul by lia. lia.
    - exfalso.
      assert (raw (Zpos kb) eb < raw (m / 2 ^ n) e1)
        by (apply raw_exponent_lt; lia).
      assert (raw (m / 2 ^ n) e1 <= raw m e).
      { rewrite (raw_up _ e e1) by lia. apply raw_le; [lia |].
        fold n. lia. }
      lia. }
  pose proof (raw_pos (Zpos ka) ea) as Hpa.
  destruct Hres as [[E0 _] | (m3 & e3 & Em3 & He3 & Hc3 & Er)].
  { rewrite E0 in Hlo2. unfold raw in Hlo2 at 2. lia. }
  assert (Eraw : raw (Zpos m3) e3 = raw m2 e1).
  { rewrite (raw_up _ e1 e3) by lia. rewrite Em3. reflexivity. }
  assert (He3b : e3 <= eb).
  { destruct (Z_le_gt_dec e3 eb) as [Hle | Hgt]; [exact Hle | exfalso].
    assert (Hd3 : Zdigits2 (Zpos m3) = 24) by (rewrite fexp32_eq in Hc3; lia).
    assert (2 ^ 23 <= Zpos m3) by (apply Zdigits2_le_pow2; lia).
    assert (raw (Zpos kb) eb < raw (Zpos m3) e3)
      by (apply raw_exponent_lt; lia).
    lia. }
  exists m3, e3.
  replace (e3 <=? 104) with true in Er by (symmetry; apply Z.leb_le; lia).
  split; [exact Er |]. split; [| lia].
  cbn [valid valid_binary]. unfold SpecFloat.bounded, SpecFloat.canonical_mantissa.
  apply andb_true_intro. split; [apply Z.eqb_eq; exact Hc3 |].
  apply Z.leb_le. unfold emax, prec. lia.
Qed.

(** *** Enclosures of the arithmetic operations *)

Lemma shl_align_fst m e e' :
  e' <= e -> Zpos (fst (shl_align m e e')) = Zpos m * 2 ^ (e - e').
Proof.
  intros H. unfold shl_align.
  destruct (e' - e) as [| d | d] eqn:Ed; cbn [fst]; try lia.
  - replace (e - e') with 0 by lia. lia.
  - rewrite pos_iter_xO. f_equal. f_equal. lia.
Qed.

Lemma shl_align_raw m e e' :
  -400 <= e -> -400 <= e' ->
  raw (Zpos (fst (shl_align m e e'))) (snd (shl_align m e e')) = raw (Zpos m) e
  /\ -400 <= snd (shl_align m e e').
Proof.
  intros He He'. unfold shl_align.
  destruct (e' - e) as [| d | d] eqn:Ed; cbn [fst snd]; try (split; [reflexivity | lia]).
  rewrite pos_iter_xO. split; [| lia].
  rewrite (raw_up (Zpos m) e' e) by lia.
  replace (e - e') with (Zpos d) by lia. reflexivity.
Qed.

Lemma binary_round_between s m e ka ea kb eb :
  -400 <= e ->
  valid (S754_finite false ka ea) = true ->
  valid (S754_finite false kb eb) = true ->
  raw (Zpos ka) ea <= raw (Zpos m) e <= raw (Zpos kb) eb ->
  exists m3 e3,
    binary_round prec emax s m e = S754_finite s m3 e3
    /\ valid (S754_finite s m3 e3) = true
    /\ raw (Zpos ka) ea <= raw (Zpos m3) e3 <= raw (Zpos kb) eb.
Proof.
  intros He Hva Hvb [Hlo Hhi]. unfold binary_round.
  change (fexp prec emax (Zpos (digits2_pos m) + e))
    with (fexp32 (Zdigits2 (Zpos m) + e)).
  pose proof (shl_align_aligned m e) as Hal.
  assert (He' : -400 <= fexp32 (Zdigits2 (Zpos m) + e))
    by (rewrite fexp32_eq; lia).
  destruct (shl_align_raw m e _ He He') as [Er Hez].
  destruct (shl_align m e (fexp32 (Zdigits2 (Zpos m) + e))) as [mz ez].
  cbn [fst snd] in Er, Hez.
  apply binary_round_aux_between; try assumption; try lia.
  destruct (Z_lt_le_dec (raw (Zpos mz) ez) (raw (Zpos kb) eb));
    [left; assumption | right; split; [lia | reflexivity]].
Qed.

Lemma binary_normalize_between m e sz ka ea kb eb :
  m <> 0 -> -400 <= e ->
  valid (S754_finite false ka ea) = true ->
  valid (S754_finite false kb eb) = true ->
  raw (Zpos ka) ea <= raw (Z.abs m) e <= raw (Zpos kb) eb ->
  exists m3 e3,
    binary_normalize prec emax m e sz = S754_finite (m <? 0) m3 e3
    /\ valid (S754_finite (m <? 0) m3 e3) = true
    /\ raw (Zpos ka) ea <= raw (Zpos m3) e3 <= raw (Zpos kb) eb.
Proof.
  intros Hm He Hva Hvb Hb.
  destruct m as [| p | p]; [lia | |]; cbn [binary_normalize Z.abs] in *;
    apply binary_round_between; assumption.
Qed.

Lemma mul_between sx mx ex sy my ey ka ea kb eb :
  valid (S754_finite sx mx ex) = true ->
  valid (S754_finite sy my ey) = true ->
  valid (S754_finite false ka ea) = true ->
  valid (S754_finite false kb eb) = true ->
  raw (Zpos ka) ea * 2 ^ 400 <= raw (Zpos mx) ex * raw (Zpos my) ey ->
  raw (Zpos mx) ex * raw (Zpos my) ey <= raw (Zpos kb) eb * 2 ^ 400 ->
  exists m3 e3,
    mul (S754_finite sx mx ex) (S754_finite sy my ey)
    = S754_finite (xorb sx sy) m3 e3
    /\ valid (S754_finite (xorb sx sy) m3 e3) = true
    /\ raw (Zpos ka) ea <= raw (Zpos m3) e3 <= raw (Zpos kb) eb.
Proof.
  intros Hvx Hvy Hva Hvb Hlo Hhi. unfold mul. cbn [SFmul].
  destruct (valid_bounds _ _ _ Hvx) as (Hex & Hmx & Hnx).
  destruct (valid_bounds _ _ _ Hvy) as (Hey & Hmy & Hny).
  assert (Eraw : raw (Zpos (mx * my)) (ex + ey) * 2 ^ 400
                 = raw (Zpos mx) ex * raw (Zpos my) ey).
  { unfold raw. rewrite Pos2Z.inj_mul.
    replace (ex + ey + 400) with ((ex + 400) + (ey + 400) - 400) by lia.
    assert (E : 2 ^ (ex + 400) * 2 ^ (ey + 400)
                = 2 ^ (ex + 400 + (ey + 400) - 400) * 2 ^ 400).
    { rewrite <- !Z.pow_add_r by lia. f_equal. lia. }
    set (a := 2 ^ (ex + 400)) in *. set (b := 2 ^ (ey + 400)) in *.
    set (c := 2 ^ _) in *. set (d := 2 ^ 400) in *.
    replace (Zpos mx * a * (Zpos my * b)) with (Zpos mx * Zpos my * (a * b))
      by ring.
    rewrite E. ring. }
  assert (H400 : 0 < 2 ^ 400) by (apply pow2_pos; lia).
  apply binary_round_aux_between; try assumption; try lia.
  - rewrite fexp32_eq.
    destruct (Z_le_gt_dec (ex + ey) (-149)) as [Hs | Hs]; [lia |].
    assert (H23 : 2 ^ 23 <= Zpos (mx * my)).
    { rewrite Pos2Z.inj_mul.
      destruct (Z_le_gt_dec ex (-149)) as [Hx | Hx].
      - assert (2 ^ 23 <= Zpos my) by (apply Hny; lia). nia.
      - assert (2 ^ 23 <= Zpos mx) by (apply Hnx; lia). nia. }
    assert (23 < Zdigits2 (Zpos (mx * my))) by (apply Zdigits2_le_pow2; lia).
    lia.
  - rewrite <- Eraw in Hhi.
    apply Z.mul_le_mono_pos_r in Hhi; [| assumption].
    destruct (Z_lt_le_dec (raw (Zpos (mx * my)) (ex + ey)) (raw (Zpos kb) eb));
      [left; assumption | right; split; [lia | reflexivity]].
Qed.

Lemma div_between sx mx ex sy my ey ka ea kb eb :
  valid (S754_finite sx mx ex) = true ->
  valid (S754_finite sy my ey) = true ->
  valid (S754_finite false ka ea) = true ->
  valid (S754_finite false kb eb) = true ->
  raw (Zpos ka) ea * raw (Zpos my) ey <= raw (Zpos mx) ex * 2 ^ 400 ->
  raw (Zpos mx) ex * 2 ^ 400 <= raw (Zpos kb) eb * raw (Zpos my) ey ->
  exists m3 e3,
    div (S754_finite sx mx ex) (S754_finite sy my ey)
    = S754_finite (xorb sx sy) m3 e3
    /\ valid (S754_finite (xorb sx sy) m3 e3) = true
    /\ raw (Zpos ka) ea <= raw (Zpos m3) e3 <= raw (Zpos kb) eb.
Proof.
  intros Hvx Hvy Hva Hvb Hlo Hhi. unfold div. cbn [SFdiv].
  destruct (valid_bounds _ _ _ Hvx) as (Hex & Hmx & Hnx).
  destruct (valid_bounds _ _ _ Hvy) as (Hey & Hmy & Hny).
  destruct (valid_bounds _ _ _ Hva) as (Hea & Hka & Hna).
  destruct (valid_bounds _ _ _ Hvb) as (Heb & Hkb & Hnb).
  destruct (valid_finite_inv _ _ _ Hvx) as [Hcx _].
  destruct (valid_finite_inv _ _ _ Hvy) as [Hcy _].
  rewrite fexp32_eq in Hcx, Hcy.
  destruct (SFdiv_core_char mx ex my ey) as [Ec Hs]. rewrite Ec. clear Ec.
  pose proof (Zdigits2_pos (Zpos mx) (Pos2Z.is_pos mx)) as Hdx.
  pose proof (Zdigits2_pos (Zpos my) (Pos2Z.is_pos my)) as Hdy.
  rewrite fexp32_eq in Hs |- *.
  set (dx := Zdigits2 (Zpos mx)) in *. set (dy := Zdigits2 (Zpos my)) in *.
  set (e' := Z.min (Z.max (dx + ex - (dy + ey) - 24) (-149)) (ex - ey)) in *.
  set (s := ex - ey - e') in *.
  assert (He' : -253 <= e') by (unfold e'; lia).
  assert (H2s : 0 < 2 ^ s) by (apply pow2_pos; lia).
  set (q := Zpos mx * 2 ^ s / Zpos my).
  set (r := (Zpos mx * 2 ^ s) mod Zpos my).
  assert (Eqr : Zpos mx * 2 ^ s = Zpos my * q + r) by (apply Z.div_mod; lia).
  assert (Hr : 0 <= r < Zpos my) by (apply Z.mod_pos_bound; lia).
  assert (Hq0 : 0 <= q) by (apply Z.div_pos; lia).
  (* above the subnormal range the quotient has at least 24 digits *)
  assert (Hnq : -149 < e' -> 2 ^ 23 <= q).
  { intros Hgt. assert (Es : s = 24 - dx + dy) by (unfold s, e' in *; lia).
    assert (H1 : 2 ^ (dx - 1) <= Zpos mx)
      by (apply Zdigits2_le_pow2; unfold dx; lia).
    assert (H2 : Zpos my < 2 ^ dy)
      by (apply Zdigits2_lt_pow2; unfold dy; lia).
    apply Z.div_le_lower_bound; [lia |].
    assert (H3 : 2 ^ (23 + dy) <= Zpos mx * 2 ^ s).
    { replace (23 + dy) with ((dx - 1) + s) by lia.
      rewrite Z.pow_add_r by lia. nia. }
    rewrite Z.pow_add_r in H3 by lia.
    assert (0 < 2 ^ 23) by reflexivity.
    assert (Zpos my * 2 ^ 23 <= 2 ^ dy * 2 ^ 23) by nia. lia. }
  (* the hypotheses, at the exponent of the quotient *)
  set (T := 2 ^ (e' + 400)). set (U := 2 ^ (ey + 400)).
  assert (HT : 0 < T) by (apply pow2_pos; lia).
  assert (HU : 0 < U) by (apply pow2_pos; lia).
  assert (HTU : 0 < T * U) by nia.
  assert (Ex : raw (Zpos mx) ex * 2 ^ 400 = Zpos mx * 2 ^ s * (T * U)).
  { unfold raw, T, U. rewrite <- !Z.mul_assoc. f_equal.
    rewrite <- !Z.pow_add_r by lia. f_equal. unfold s. lia. }
  assert (Ey : raw (Zpos my) ey = Zpos my * U) by reflexivity.
  assert (Hlo2 : raw (Zpos ka) ea <= raw q e').
  { destruct (Z_le_gt_dec e' ea) as [Hle | Hgt].
    - rewrite (raw_up _ e' ea) by lia. apply raw_le; [lia |].
      rewrite (raw_up _ e' ea), Ex, Ey in Hlo by lia.
      unfold raw in Hlo. fold T in Hlo.
      replace (Zpos ka * 2 ^ (ea - e') * T * (Zpos my * U))
        with (Zpos ka * 2 ^ (ea - e') * Zpos my * (T * U)) in Hlo by ring.
      apply Z.mul_le_mono_pos_r in Hlo; [| exact HTU].
      apply Z.div_le_lower_bound; lia.
    - apply Z.lt_le_incl. apply raw_exponent_lt; lia. }
  assert (Hq : 0 < q).
  { pose proof (raw_pos (Zpos ka) ea). unfold raw in Hlo2 at 2. fold T in Hlo2.
    nia. }
  assert (Hqx : raw q e' * raw (Zpos my) ey <= raw (Zpos mx) ex * 2 ^ 400).
  { rewrite Ex, Ey. unfold raw. fold T.
    replace (q * T * (Zpos my * U)) with (Zpos my * q * (T * U)) by ring.
    apply Z.mul_le_mono_pos_r; lia. }
  apply binary_round_aux_between; try assumption; try lia.
  - rewrite fexp32_eq.
    destruct (Z_le_gt_dec e' (-149)) as [Hsub | Hn]; [lia |].
    assert (23 < Zdigits2 q) by (apply Zdigits2_le_pow2; [lia | apply Hnq; lia]).
    lia.
  - destruct (Z_le_gt_dec e' eb) as [Hle | Hgt].
    + rewrite (raw_up _ e' eb) by lia.
      rewrite (raw_up _ e' eb), Ex, Ey in Hhi by lia.
      unfold raw in Hhi. fold T in Hhi.
      replace (Zpos kb * 2 ^ (eb - e') * T * (Zpos my * U))
        with (Zpos kb * 2 ^ (eb - e') * Zpos my * (T * U)) in Hhi by ring.
      apply Z.mul_le_mono_pos_r in Hhi; [| exact HTU].
      set (K := Zpos kb * 2 ^ (eb - e')) in *.
      destruct (Z_lt_le_dec q K) as [Hlt | Hge].
      * left. apply raw_lt; lia.
      * right. assert (Eq : q = K) by nia.
        split; [rewrite Eq; reflexivity |].
        assert (E0 : r = 0) by nia.
        fold r. rewrite E0. apply new_location_exact.
    + exfalso.
      assert (raw (Zpos kb) eb < raw q e')
        by (apply raw_exponent_lt; try lia; apply Hnq; lia).
      pose proof (raw_pos (Zpos my) ey). nia.
Qed.

Lemma raw_add a b e : raw (a + b) e = raw a e + raw b e.
Proof. unfold raw. ring. Qed.

Lemma raw_sub a b e : raw (a - b) e = raw a e - raw b e.
Proof. unfold raw. ring. Qed.

Lemma raw_aligned m e e' :
  -400 <= e' <= e -> raw (m * 2 ^ (e - e')) e' = raw m e.
Proof. intros H. symmetry. apply raw_up. exact H. Qed.

Lemma add_finite_eq sx mx ex sy my ey :
  add (S754_finite sx mx ex) (S754_finite sy my ey)
  = binary_normalize prec emax
      (cond_Zopp sx (Zpos mx * 2 ^ (ex - Z.min ex ey))
       + cond_Zopp sy (Zpos my * 2 ^ (ey - Z.min ex ey)))
      (Z.min ex ey) false.
Proof.
  unfold add. cbn [SFadd]. rewrite !shl_align_fst by lia. reflexivity.
Qed.

Lemma sub_finite_eq sx mx ex sy my ey :
  sub (S754_finite sx mx ex) (S754_finite sy my ey)
  = binary_normalize prec emax
      (cond_Zopp sx (Zpos mx * 2 ^ (ex - Z.min ex ey))
       - cond_Zopp sy (Zpos my * 2 ^ (ey - Z.min ex ey)))
      (Z.min ex ey) false.
Proof.
  unfold sub. cbn [SFsub]. rewrite !shl_align_fst by lia. reflexivity.
Qed.

(** The sum of two positive floats. *)
Lemma add_between mx ex my ey ka ea kb eb :
  valid (S754_finite false mx ex) = true ->
  valid (S754_finite false my ey) = true ->
  valid (S754_finite false ka ea) = true ->
  valid (S754_finite false kb eb) = true ->
  raw (Zpos ka) ea <= raw (Zpos mx) ex + raw (Zpos my) ey ->
  raw (Zpos mx) ex + raw (Zpos my) ey <= raw (Zpos kb) eb ->
  exists m3 e3,
    add (S754_finite false mx ex) (S754_finite false my ey)
    = S754_finite false m3 e3
    /\ valid (S754_finite false m3 e3) = true
    /\ raw (Zpos ka) ea <= raw (Zpos m3) e3 <= raw (Zpos kb) eb.
Proof.
  intros Hvx Hvy Hva Hvb Hlo Hhi. rewrite add_finite_eq. cbn [cond_Zopp].
  destruct (valid_bounds _ _ _ Hvx) as (Hex & _).
  destruct (valid_bounds _ _ _ Hvy) as (Hey & _).
  set (ez := Z.min ex ey).
  set (S := Zpos mx * 2 ^ (ex - ez) + Zpos my * 2 ^ (ey - ez)).
  assert (HS : 0 < S).
  { assert (0 < 2 ^ (ex - ez)) by (apply pow2_pos; unfold ez; lia).
    assert (0 < 2 ^ (ey - ez)) by (apply pow2_pos; unfold ez; lia).
    unfold S. nia. }
  assert (ES : raw (Z.abs S) ez = raw (Zpos mx) ex + raw (Zpos my) ey).
  { rewrite Z.abs_eq by lia. unfold S.
    rewrite raw_add, !raw_aligned by (unfold ez; lia). reflexivity. }
  destruct (binary_normalize_between S ez false ka ea kb eb)
    as (m3 & e3 & Er & Hv & Hb); try assumption;
    [lia | unfold ez; lia | rewrite ES; lia |].
  replace (S <? 0) with false in Er, Hv by (symmetry; apply Z.ltb_ge; lia).
  exists m3, e3. auto.
Qed.

(** A positive float minus a negative one. *)
Lemma sub_neg_between mx ex my ey ka ea kb eb :
  valid (S754_finite false mx ex) = true ->
  valid (S754_finite true my ey) = true ->
  valid (S754_finite false ka ea) = true ->
  valid (S754_finite false kb eb) = true ->
  raw (Zpos ka) ea <= raw (Zpos mx) ex + raw (Zpos my) ey ->
  raw (Zpos mx) ex + raw (Zpos my) ey <= raw (Zpos kb) eb ->
  exists m3 e3,
    sub (S754_finite false mx ex) (S754_finite true my ey)
    = S754_finite false m3 e3
    /\ valid (S754_finite false m3 e3) = true
    /\ raw (Zpos ka) ea <= raw (Zpos m3) e3 <= raw (Zpos kb) eb.
Proof.
  intros Hvx Hvy Hva Hvb Hlo Hhi. rewrite sub_finite_eq. cbn [cond_Zopp].
  destruct (valid_bounds _ _ _ Hvx) as (Hex & _).
  destruct (valid_bounds _ _ _ Hvy) as (Hey & _).
  set (ez := Z.min ex ey).
  set (S := Zpos mx * 2 ^ (ex - ez) - - (Zpos my * 2 ^ (ey - ez))).
  assert (HS : 0 < S).
  { assert (0 < 2 ^ (ex - ez)) by (apply pow2_pos; unfold ez; lia).
    assert (0 < 2 ^ (ey - ez)) by (apply pow2_pos; unfold ez; lia).
    unfold S. nia. }
  assert (ES : raw (Z.abs S) ez = raw (Zpos mx) ex + raw (Zpos my) ey).
  { rewrite Z.abs_eq by lia. unfold S.
    replace (Zpos mx * 2 ^ (ex - ez) - - (Zpos my * 2 ^ (ey - ez)))
      with (Zpos mx * 2 ^ (ex - ez) + Zpos my * 2 ^ (ey - ez)) by ring.
    rewrite raw_add, !raw_aligned by (unfold ez; lia). reflexivity. }
  destruct (binary_normalize_between S ez false ka ea kb eb)
    as (m3 & e3 & Er & Hv & Hb); try assumption;
    [lia | unfold ez; lia | rewrite ES; lia |].
  replace (S <? 0) with false in Er, Hv by (symmetry; apply Z.ltb_ge; lia).
  exists m3, e3. auto.
Qed.

(** Rounding from below a canonical float. *)
Lemma binary_round_le s m e kb eb :
  -400 <= e ->
  valid (S754_finite false kb eb) = true ->
  raw (Zpos m) e <= raw (Zpos kb) eb ->
  binary_round prec emax s m e = S754_zero s
  \/ exists m3 e3,
       binary_round prec emax s m e = S754_finite s m3 e3
       /\ raw (Zpos m3) e3 <= raw (Zpos kb) eb.
Proof.
  intros He Hvb Hhi. unfold binary_round.
  change (fexp prec emax (Zpos (digits2_pos m) + e))
    with (fexp32 (Zdigits2 (Zpos m) + e)).
  pose proof (shl_align_aligned m e) as Hal.
  assert (He' : -400 <= fexp32 (Zdigits2 (Zpos m) + e))
    by (rewrite fexp32_eq; lia).
  destruct (shl_align_raw m e _ He He') as [Er Hez].
  destruct (shl_align m e (fexp32 (Zdigits2 (Zpos m) + e))) as [mz ez].
  cbn [fst snd] in Er, Hez.
  destruct (valid_finite_inv _ _ _ Hvb) as [Hcb Heb].
  destruct (valid_bounds _ _ _ Hvb) as (Heb' & _).
  destruct (binary_round_aux_le s (Zpos mz) ez loc_Exact (Zpos kb) eb (-400))
    as [E | (m3 & e3 & E & He3 & Hle)]; try assumption; try lia.
  - unfold raw in Er, Hhi.
    replace (ez - -400) with (ez + 400) by lia.
    replace (eb - -400) with (eb + 400) by lia.
    destruct (Z_lt_le_dec (Zpos mz * 2 ^ (ez + 400)) (Zpos kb * 2 ^ (eb + 400)));
      [left; assumption | right; split; [lia | reflexivity]].
  - left. exact E.
  - right. exists m3, e3. split; [exact E |].
    unfold raw. replace (e3 + 400) with (e3 - -400) by lia.
    replace (eb + 400) with (eb - -400) by lia. exact Hle.
Qed.

(** A rounded mantissa keeps its sign. *)
Lemma binary_round_sign s m e :
  binary_round prec emax s m e = S754_zero s
  \/ binary_round prec emax s m e = S754_infinity s
  \/ exists m3 e3, binary_round prec emax s m e = S754_finite s m3 e3.
Proof.
  unfold binary_round.
  destruct (shl_align m e _) as [mz ez].
  destruct (binary_round_aux_char s (Zpos mz) ez loc_Exact) as (m2 & Hor & _ & ->);
    [lia |].
  set (q := m2 / _). set (e3 := _ + _ + _).
  assert (Hq : 0 <= q).
  { unfold q. apply Z.div_pos; [| apply pow2_pos; apply shift_nonneg].
    assert (0 <= Zpos mz / 2 ^ shift (Zpos mz) ez); [| lia].
    apply Z.div_pos; [lia | apply pow2_pos; apply shift_nonneg]. }
  destruct q as [| p | p]; try lia; cbn [pack]; [auto |].
  destruct (e3 <=? emax - prec); [right; right; eauto | auto].
Qed.

(** A positive float plus a negative one, bounded from above. *)
Lemma add_neg_le mx ex my ey kb eb :
  valid (S754_finite false mx ex) = true ->
  valid (S754_finite true my ey) = true ->
  valid (S754_finite false kb eb) = true ->
  raw (Zpos mx) ex <= raw (Zpos my) ey + raw (Zpos kb) eb ->
  let r := add (S754_finite false mx ex) (S754_finite true my ey) in
  valid r = true
  /\ ((exists s, r = S754_zero s) \/ r = S754_infinity true
      \/ (exists m3 e3, r = S754_finite true m3 e3)
      \/ exists m3 e3,
           r = S754_finite false m3 e3
           /\ raw (Zpos m3) e3 <= raw (Zpos kb) eb).
Proof.
  intros Hvx Hvy Hvb Hle. cbn zeta.
  split; [apply add_finite_valid; [exact Hvx | reflexivity] |].
  rewrite add_finite_eq. cbn [cond_Zopp].
  destruct (valid_bounds _ _ _ Hvx) as (Hex & _).
  destruct (valid_bounds _ _ _ Hvy) as (Hey & _).
  set (ez := Z.min ex ey).
  set (X := Zpos mx * 2 ^ (ex - ez)). set (Y := Zpos my * 2 ^ (ey - ez)).
  assert (EX : raw X ez = raw (Zpos mx) ex)
    by (apply raw_aligned; unfold ez; lia).
  assert (EY : raw Y ez = raw (Zpos my) ey)
    by (apply raw_aligned; unfold ez; lia).
  destruct (X + - Y) as [| p | p] eqn:ES; cbn [binary_normalize].
  - left. eauto.
  - assert (Hp : raw (Zpos p) ez <= raw (Zpos kb) eb).
    { rewrite <- ES. replace (X + - Y) with (X - Y) by ring.
      rewrite raw_sub. lia. }
    destruct (binary_round_le false p ez kb eb) as [E | (m3 & e3 & E & H3)];
      try assumption; [unfold ez; lia | left; eauto |].
    right. right. right. eauto.
  - destruct (binary_round_sign true p ez) as [E | [E | E]];
      [left; eauto | right; left; exact E | right; right; left; exact E].
Qed.

(** Conversion of a positive integer. *)
Lemma of_Z_between n ka ea kb eb :
  0 < n ->
  valid (S754_finite false ka ea) = true ->
  valid (S754_finite false kb eb) = true ->
  raw (Zpos ka) ea <= n * 2 ^ 400 <= raw (Zpos kb) eb ->
  exists m3 e3,
    of_Z n = S754_finite false m3 e3
    /\ valid (S754_finite false m3 e3) = true
    /\ raw (Zpos ka) ea <= raw (Zpos m3) e3 <= raw (Zpos kb) eb.
Proof.
  intros Hn Hva Hvb Hb. unfold of_Z.
  destruct (binary_normalize_between n 0 false ka ea kb eb)
    as (m3 & e3 & Er & Hv & Hb3); try assumption;
    [lia | lia | rewrite Z.abs_eq by lia; exact Hb |].
  replace (n <? 0) with false in Er, Hv by (symmetry; apply Z.ltb_ge; lia).
  exists m3, e3. auto.
Qed.

(** Conversion of a negative integer. *)
Lemma of_Z_neg_between n ka ea kb eb :
  n < 0 ->
  valid (S754_finite false ka ea) = true ->
  valid (S754_finite false kb eb) = true ->
  raw (Zpos ka) ea <= - n * 2 ^ 400 <= raw (Zpos kb) eb ->
  exists m3 e3,
    of_Z n = S754_finite true m3 e3
    /\ valid (S754_finite true m3 e3) = true
    /\ raw (Zpos ka) ea <= raw (Zpos m3) e3 <= raw (Zpos kb) eb.
Proof.
  intros Hn Hva Hvb Hb. unfold of_Z.
  destruct (binary_normalize_between n 0 false ka ea kb eb)
    as (m3 & e3 & Er & Hv & Hb3); try assumption;
    [lia | lia | rewrite Z.abs_neq by lia; exact Hb |].
  replace (n <? 0) with true in Er, Hv by (symmetry; apply Z.ltb_lt; lia).
  exists m3, e3. auto.
Qed.

(** Truncation of an enclosed positive float. *)
Lemma trunc_between m e a b :
  -400 <= e -> 0 <= a ->
  a * 2 ^ 400 <= raw (Zpos m) e <= b * 2 ^ 400 ->
  exists z, trunc (S754_finite false m e) = Some z /\ a <= z <= b.
Proof.
  intros He Ha [Hlo Hhi]. cbn [trunc cond_Zopp]. eexists.
  split; [reflexivity |]. unfold raw in Hlo, Hhi.
  assert (H400 : 0 < 2 ^ 400) by (apply pow2_pos; lia).
  destruct e as [| p | p].
  - cbn [Z.add] in Hlo, Hhi. nia.
  - rewrite Z.pow_add_r in Hlo, Hhi by lia.
    assert (0 < 2 ^ Zpos p) by (apply pow2_pos; lia).
    rewrite Z.mul_assoc in Hlo, Hhi.
    apply Z.mul_le_mono_pos_r in Hlo, Hhi; try assumption. lia.
  - assert (H2p : 0 < 2 ^ Zpos p) by (apply pow2_pos; lia).
    assert (E : 2 ^ 400 = 2 ^ Zpos p * 2 ^ (Zneg p + 400)).
    { rewrite <- Z.pow_add_r by lia. f_equal. lia. }
    assert (Ht : 0 < 2 ^ (Zneg p + 400)) by (apply pow2_pos; lia).
    rewrite E, !Z.mul_assoc in Hlo, Hhi.
    apply Z.mul_le_mono_pos_r in Hlo, Hhi; try assumption.
    split.
    + apply Z.div_le_lower_bound; lia.
    + apply Z.div_le_upper_bound; lia.
Qed.

(** *** Operations that commit no rounding error *)

Lemma binary_round_aux_exact s m e :
  0 < m -> e <= fexp32 (Zdigits2 m + e) -> -400 <= e ->
  m mod 2 ^ (fexp32 (Zdigits2 m + e) - e) = 0 ->
  fexp32 (Zdigits2 m + e) < 104 ->
  exists m3 e3,
    binary_round_aux prec emax s m e loc_Exact = S754_finite s m3 e3
    /\ valid (S754_finite s m3 e3) = true
    /\ raw (Zpos m3) e3 = raw m e.
Proof.
  intros Hm Hal He Hmod Hlt.
  destruct (binary_round_aux_value s m e loc_Exact Hm Hal)
    as (m2 & _ & Hex & _ & Hm1 & Hres).
  specialize (Hex eq_refl Hmod).
  set (e1 := fexp32 (Zdigits2 m + e)) in *.
  assert (H2n : 0 < 2 ^ (e1 - e)) by (apply pow2_pos; lia).
  assert (Em : m = m2 * 2 ^ (e1 - e)).
  { rewrite Hex. rewrite (Z.div_mod m (2 ^ (e1 - e))) at 1 by lia.
    rewrite Hmod. ring. }
  assert (Hm2 : 0 < m2) by nia.
  destruct Hres as [[E0 _] | (m3 & e3 & Em3 & He3 & Hc3 & Er)]; [lia |].
  assert (He3' : e3 <= 104) by lia.
  exists m3, e3.
  replace (e3 <=? 104) with true in Er by (symmetry; apply Z.leb_le; lia).
  split; [exact Er |]. split.
  - cbn [valid valid_binary].
    unfold SpecFloat.bounded, SpecFloat.canonical_mantissa.
    apply andb_true_intro. split; [apply Z.eqb_eq; exact Hc3 |].
    apply Z.leb_le. unfold emax, prec. lia.
  - rewrite (raw_up _ e1 e3), Em3 by lia.
    rewrite (raw_up m2 e e1), <- Em by lia. reflexivity.
Qed.

Lemma shl_align_canonical m e :
  fexp32 (Zdigits2 (Zpos m) + e) <= e ->
  let '(mz, ez) := shl_align m e (fexp32 (Zdigits2 (Zpos m) + e)) in
  ez = fexp32 (Zdigits2 (Zpos m) + e)
  /\ fexp32 (Zdigits2 (Zpos mz) + ez) = ez.
Proof.
  intros H. unfold shl_align.
  destruct (fexp32 (Zdigits2 (Zpos m) + e) - e) as [| d | d] eqn:Ed;
    try lia.
  split; [reflexivity |]. rewrite pos_iter_xO.
  assert (Hd : Zdigits2 (Zpos m * 2 ^ Zpos d) = Zdigits2 (Zpos m) + Zpos d).
  { assert (0 < 2 ^ Zpos d) by (apply pow2_pos; lia).
    rewrite !Zdigits2_log2 by lia.
    rewrite Z.log2_mul_pow2 by lia. lia. }
  rewrite Hd. f_equal. lia.
Qed.

(** A representable value is rounded to itself. *)
Lemma binary_round_exact s m e :
  -400 <= e -> fexp32 (Zdigits2 (Zpos m) + e) <= e ->
  fexp32 (Zdigits2 (Zpos m) + e) < 104 ->
  exists m3 e3,
    binary_round prec emax s m e = S754_finite s m3 e3
    /\ valid (S754_finite s m3 e3) = true
    /\ raw (Zpos m3) e3 = raw (Zpos m) e.
Proof.
  intros He Hrep Hlt. unfold binary_round.
  change (fexp prec emax (Zpos (digits2_pos m) + e))
    with (fexp32 (Zdigits2 (Zpos m) + e)).
  pose proof (shl_align_canonical m e Hrep) as Hc.
  assert (He' : -400 <= fexp32 (Zdigits2 (Zpos m) + e))
    by (rewrite fexp32_eq; lia).
  destruct (shl_align_raw m e _ He He') as [Er Hez].
  destruct (shl_align m e (fexp32 (Zdigits2 (Zpos m) + e))) as [mz ez].
  cbn [fst snd] in Er, Hez. destruct Hc as [Ez Hcz].
  destruct (binary_round_aux_exact s (Zpos mz) ez)
    as (m3 & e3 & E3 & Hv3 & Hr3); try lia.
  - rewrite Hcz, Z.sub_diag. apply Z.mod_1_r.
  - exists m3, e3. split; [exact E3 |]. split; [exact Hv3 |].
    rewrite Hr3. exact Er.
Qed.

(** An integer below [2 ^ 24] is converted exactly. *)
Lemma of_Z_exact n :
  0 < n < 2 ^ 24 ->
  exists m e,
    of_Z n = S754_finite false m e
    /\ valid (S754_finite false m e) = true
    /\ raw (Zpos m) e = n * 2 ^ 400.
Proof.
  intros [Hn Hlt]. destruct n as [| p | p]; try lia.
  unfold of_Z. cbn [binary_normalize].
  assert (Hd : 0 < Zdigits2 (Zpos p) <= 24).
  { split; [apply Zdigits2_pos; lia | apply Zdigits2_lt_pow2; lia]. }
  apply binary_round_exact; rewrite ?fexp32_eq; lia.
Qed.

(** A float of value at least 1 is divided by 8192 exactly. *)
Lemma div_8192_exact mx ex :
  valid (S754_finite false mx ex) = true ->
  2 ^ 400 <= raw (Zpos mx) ex ->
  exists m e,
    div (S754_finite false mx ex) (S754_finite false 8388608 (-10))
    = S754_finite false m e
    /\ valid (S754_finite false m e) = true
    /\ raw (Zpos m) e * 8192 = raw (Zpos mx) ex.
Proof.
  intros Hv Hone.
  destruct (valid_bounds _ _ _ Hv) as (He & Hm & Hn).
  assert (Hex : -24 < ex).
  { destruct (Z_lt_ge_dec (-24) ex) as [? | Hge]; [assumption | exfalso].
    unfold raw in Hone.
    assert (2 ^ (ex + 400) <= 2 ^ 376) by (apply pow2_le; lia).
    assert (0 < 2 ^ (ex + 400)) by (apply pow2_pos; lia).
    change (2 ^ 400) with (2 ^ 24 * 2 ^ 376) in Hone.
    assert (Zpos mx * 2 ^ (ex + 400) < 2 ^ 24 * 2 ^ (ex + 400))
      by (apply Z.mul_lt_mono_pos_r; lia).
    assert (2 ^ 24 * 2 ^ (ex + 400) <= 2 ^ 24 * 2 ^ 376)
      by (apply Z.mul_le_mono_nonneg_l; lia).
    lia. }
  assert (Hnorm : 2 ^ 23 <= Zpos mx) by (apply Hn; lia).
  assert (Hdx : Zdigits2 (Zpos mx) = 24) by (apply Zdigits2_unique; lia).
  unfold div. cbn [SFdiv xorb].
  destruct (SFdiv_core_char mx ex 8388608 (-10)) as [Ec _]. rewrite Ec.
  clear Ec. rewrite Hdx. change (Zdigits2 (Zpos 8388608)) with 24.
  rewrite fexp32_eq.
  replace (Z.min (Z.max (24 + ex - (24 + -10) - 24) (-149)) (ex - -10))
    with (ex - 14) by lia.
  replace (ex - -10 - (ex - 14)) with 24 by lia.
  replace (Zpos mx * 2 ^ 24) with (2 * Zpos mx * Zpos 8388608)
    by (change (2 ^ 24) with (2 * Zpos 8388608); ring).
  rewrite Z.div_mul, Z.mod_mul, new_location_exact by lia.
  assert (Hd2 : Zdigits2 (2 * Zpos mx) = 25).
  { apply Zdigits2_unique; [lia |].
    change (2 ^ (25 - 1)) with (2 * 2 ^ 23). change (2 ^ 25) with (2 * 2 ^ 24).
    lia. }
  destruct (binary_round_aux_exact false (2 * Zpos mx) (ex - 14))
    as (m3 & e3 & E3 & Hv3 & Hr3);
    rewrite ?Hd2, ?fexp32_eq; try lia.
  - replace (Z.max (25 + (ex - 14) - 24) (-149) - (ex - 14)) with 1 by lia.
    change (2 ^ 1) with 2. rewrite Z.mul_comm. apply Z.mod_mul. lia.
  - exists m3, e3. split; [exact E3 |]. split; [exact Hv3 |].
    rewrite Hr3. rewrite (raw_up (Zpos mx) (ex - 14) ex) by lia.
    replace (ex - (ex - 14)) with 14 by lia. unfold raw.
    change (2 ^ 14) with (2 * 8192). ring.
Qed.

(** *** Enclosures between constants *)

Lemma pos_inv x :
  pos x = true ->
  exists m e, x = S754_finite false m e /\ valid (S754_finite false m e) = true.
Proof.
  destruct x as [| | | [] m e]; try discriminate. intros H. eauto.
Qed.

Lemma leb_pos m1 e1 m2 e2 :
  valid (S754_finite false m1 e1) = true ->
  valid (S754_finite false m2 e2) = true ->
  (leb (S754_finite false m1 e1) (S754_finite false m2 e2) = true
   <-> raw (Zpos m1) e1 <= raw (Zpos m2) e2).
Proof.
  intros H1 H2. unfold leb, SFleb. rewrite (SFcompare_pos _ _ _ _ H1 H2).
  destruct (Z.compare_spec (raw (Zpos m1) e1) (raw (Zpos m2) e2));
    split; intros; try reflexivity; try discriminate; lia.
Qed.

Lemma ltb_pos m1 e1 m2 e2 :
  valid (S754_finite false m1 e1) = true ->
  valid (S754_finite false m2 e2) = true ->
  (ltb (S754_finite false m1 e1) (S754_finite false m2 e2) = true
   <-> raw (Zpos m1) e1 < raw (Zpos m2) e2).
Proof.
  intros H1 H2. unfold ltb, SFltb. rewrite (SFcompare_pos _ _ _ _ H1 H2).
  destruct (Z.compare_spec (raw (Zpos m1) e1) (raw (Zpos m2) e2));
    split; intros; try reflexivity; try discriminate; lia.
Qed.

(** Canonical positive floats of the same value are the same float. *)
Lemma raw_inj m1 e1 m2 e2 :
  valid (S754_finite false m1 e1) = true ->
  valid (S754_finite false m2 e2) = true ->
  raw (Zpos m1) e1 = raw (Zpos m2) e2 ->
  S754_finite false m1 e1 = S754_finite false m2 e2.
Proof.
  intros H1 H2 E.
  destruct (valid_bounds _ _ _ H1) as (He1 & Hm1 & Hn1).
  destruct (valid_bounds _ _ _ H2) as (He2 & Hm2 & Hn2).
  destruct (Z.lt_trichotomy e1 e2) as [L | [Eq | G]].
  - assert (raw (Zpos m1) e1 < raw (Zpos m2) e2)
      by (apply raw_exponent_lt; lia). lia.
  - subst e2. assert (Zpos m1 = Zpos m2).
    { apply Z.le_antisymm; apply raw_le with e1; lia. }
    congruence.
  - assert (raw (Zpos m2) e2 < raw (Zpos m1) e1)
      by (apply raw_exponent_lt; lia). lia.
Qed.

Lemma Encl_inv a b x :
  Encl a b x ->
  exists m e,
    x = S754_finite false m e /\ valid (S754_finite false m e) = true
    /\ 0 < mag a /\ mag a <= raw (Zpos m) e <= mag b.
Proof.
  intros (Ha & Hb & Hv & Hbt).
  destruct (pos_inv a Ha) as (ka & ea & -> & Hva).
  destruct (pos_inv b Hb) as (kb & eb & -> & Hvb).
  unfold between in Hbt. apply andb_prop in Hbt. destruct Hbt as [H1 H2].
  destruct x as [sx | sx | | sx m e]; try destruct sx; try discriminate.
  exists m, e. split; [reflexivity |]. split; [exact Hv |].
  apply leb_pos in H1, H2; try assumption. cbn [mag].
  destruct (valid_bounds _ _ _ Hva) as (Hea & _).
  split; [apply raw_pos; lia | lia].
Qed.

Lemma Encl_intro a b m e :
  pos a = true -> pos b = true ->
  valid (S754_finite false m e) = true ->
  mag a <= raw (Zpos m) e <= mag b ->
  Encl a b (S754_finite false m e).
Proof.
  intros Ha Hb Hv Hm. split; [exact Ha |]. split; [exact Hb |].
  split; [exact Hv |].
  destruct (pos_inv a Ha) as (ka & ea & -> & Hva).
  destruct (pos_inv b Hb) as (kb & eb & -> & Hvb).
  cbn [mag] in Hm. unfold between. apply andb_true_intro.
  split; apply leb_pos; try assumption; lia.
Qed.

Lemma Encl_self c : pos c = true -> Encl c c c.
Proof.
  intros H. destruct (pos_inv c H) as (m & e & -> & Hv).
  apply Encl_intro; try assumption. cbn [mag]. lia.
Qed.

Lemma Encl_weaken a b a' b' x :
  Encl a b x -> pos a' = true -> pos b' = true ->
  mag a' <= mag a -> mag b <= mag b' -> Encl a' b' x.
Proof.
  intros H Ha' Hb' H1 H2.
  destruct (Encl_inv _ _ _ H) as (m & e & -> & Hv & _ & Hm).
  apply Encl_intro; try assumption. lia.
Qed.

Lemma mul_Encl a1 b1 a2 b2 a b x y :
  Encl a1 b1 x -> Encl a2 b2 y -> pos a = true -> pos b = true ->
  mag a * 2 ^ 400 <= mag a1 * mag a2 ->
  mag b1 * mag b2 <= mag b * 2 ^ 400 ->
  Encl a b (mul x y).
Proof.
  intros Hx Hy Ha Hb Hlo Hhi.
  destruct (Encl_inv _ _ _ Hx) as (mx & ex & -> & Hvx & Hpx & Hmx).
  destruct (Encl_inv _ _ _ Hy) as (my & ey & -> & Hvy & Hpy & Hmy).
  destruct (pos_inv a Ha) as (ka & ea & Ea & Hva).
  destruct (pos_inv b Hb) as (kb & eb & Eb & Hvb).
  destruct (mul_between false mx ex false my ey ka ea kb eb)
    as (m3 & e3 & -> & Hv3 & Hb3); try assumption.
  - rewrite Ea in Hlo. cbn [mag] in Hlo.
    apply Z.le_trans with (1 := Hlo). apply Z.mul_le_mono_nonneg; lia.
  - rewrite Eb in Hhi. cbn [mag] in Hhi.
    apply Z.le_trans with (2 := Hhi). apply Z.mul_le_mono_nonneg; lia.
  - cbn [xorb] in *. apply Encl_intro; try assumption.
    rewrite Ea, Eb. exact Hb3.
Qed.

Lemma div_Encl a1 b1 a2 b2 a b x y :
  Encl a1 b1 x -> Encl a2 b2 y -> pos a = true -> pos b = true ->
  mag a * mag b2 <= mag a1 * 2 ^ 400 ->
  mag b1 * 2 ^ 400 <= mag b * mag a2 ->
  Encl a b (div x y).
Proof.
  intros Hx Hy Ha Hb Hlo Hhi.
  destruct (Encl_inv _ _ _ Hx) as (mx & ex & -> & Hvx & Hpx & Hmx).
  destruct (Encl_inv _ _ _ Hy) as (my & ey & -> & Hvy & Hpy & Hmy).
  destruct (pos_inv a Ha) as (ka & ea & Ea & Hva).
  destruct (pos_inv b Hb) as (kb & eb & Eb & Hvb).
  assert (H400 : 0 < 2 ^ 400) by (apply pow2_pos; lia).
  assert (Hpa : 0 <= mag a).
  { rewrite Ea. cbn [mag]. destruct (valid_bounds _ _ _ Hva) as (? & _).
    apply Z.lt_le_incl, raw_pos; lia. }
  assert (Hpb : 0 <= mag b).
  { rewrite Eb. cbn [mag]. destruct (valid_bounds _ _ _ Hvb) as (? & _).
    apply Z.lt_le_incl, raw_pos; lia. }
  destruct (div_between false mx ex false my ey ka ea kb eb)
    as (m3 & e3 & -> & Hv3 & Hb3); try assumption.
  - rewrite Ea in Hlo, Hpa. cbn [mag] in Hlo, Hpa.
    apply Z.le_trans with (raw (Zpos ka) ea * mag b2);
      [apply Z.mul_le_mono_nonneg_l; lia |].
    apply Z.le_trans with (1 := Hlo).
    apply Z.mul_le_mono_nonneg_r; lia.
  - rewrite Eb in Hhi, Hpb. cbn [mag] in Hhi, Hpb.
    apply Z.le_trans with (mag b1 * 2 ^ 400);
      [apply Z.mul_le_mono_nonneg_r; lia |].
    apply Z.le_trans with (1 := Hhi).
    apply Z.mul_le_mono_nonneg_l; lia.
  - cbn [xorb] in *. apply Encl_intro; try assumption.
    rewrite Ea, Eb. exact Hb3.
Qed.

Lemma add_Encl a1 b1 a2 b2 a b x y :
  Encl a1 b1 x -> Encl a2 b2 y -> pos a = true -> pos b = true ->
  mag a <= mag a1 + mag a2 -> mag b1 + mag b2 <= mag b ->
  Encl a b (add x y).
Proof.
  intros Hx Hy Ha Hb Hlo Hhi.
  destruct (Encl_inv _ _ _ Hx) as (mx & ex & -> & Hvx & Hpx & Hmx).
  destruct (Encl_inv _ _ _ Hy) as (my & ey & -> & Hvy & Hpy & Hmy).
  destruct (pos_inv a Ha) as (ka & ea & Ea & Hva).
  destruct (pos_inv b Hb) as (kb & eb & Eb & Hvb).
  destruct (add_between mx ex my ey ka ea kb eb)
    as (m3 & e3 & -> & Hv3 & Hb3); try assumption.
  - rewrite Ea in Hlo. cbn [mag] in Hlo. lia.
  - rewrite Eb in Hhi. cbn [mag] in Hhi. lia.
  - apply Encl_intro; try assumption. rewrite Ea, Eb. exact Hb3.
Qed.

Lemma of_Z_Encl n lo hi a b :
  0 < lo -> lo <= n <= hi -> pos a = true -> pos b = true ->
  mag a <= lo * 2 ^ 400 -> hi * 2 ^ 400 <= mag b ->
  Encl a b (of_Z n).
Proof.
  intros Hlo Hn Ha Hb H1 H2.
  destruct (pos_inv a Ha) as (ka & ea & Ea & Hva).
  destruct (pos_inv b Hb) as (kb & eb & Eb & Hvb).
  assert (H400 : 0 < 2 ^ 400) by (apply pow2_pos; lia).
  rewrite Ea in H1. rewrite Eb in H2. cbn [mag] in H1, H2.
  destruct (of_Z_between n ka ea kb eb) as (m3 & e3 & -> & Hv3 & Hb3);
    try assumption; [lia | nia |].
  apply Encl_intro; try assumption. rewrite Ea, Eb. exact Hb3.
Qed.

Lemma trunc_Encl a b x lo hi :
  Encl a b x -> 0 <= lo ->
  lo * 2 ^ 400 <= mag a -> mag b <= hi * 2 ^ 400 ->
  exists z, trunc x = Some z /\ lo <= z <= hi.
Proof.
  intros Hx Hlo H1 H2.
  destruct (Encl_inv _ _ _ Hx) as (m & e & -> & Hv & _ & Hm).
  destruct (valid_bounds _ _ _ Hv) as (He & _).
  apply trunc_between; lia.
Qed.

(** Side conditions on constants are settled by evaluation. *)
Ltac closed :=
  lazymatch goal with
  | |- _ <= _ => apply Z.leb_le; vm_compute; reflexivity
  | |- _ < _ => apply Z.ltb_lt; vm_compute; reflexivity
  | |- _ = _ => vm_compute; reflexivity
  end.

End F32OrderFacts.

(** ** Rounding to nearest is monotone *)

Module F32Nearest.
Import F32 F32Facts F32Order F32OrderFacts F32Location.

Lemma new_location_char D r :
  0 < D -> 0 <= r < D ->
  new_location D r
  = if r =? 0 then loc_Exact else loc_Inexact (2 * r ?= D).
Proof.
  intros HD Hr. unfold new_location.
  destruct (Z.even D) eqn:Ev.
  - reflexivity.
  - unfold new_location_odd. destruct (r =? 0); [reflexivity |].
    f_equal.
    assert (Hodd : Z.odd D = true) by (rewrite <- Z.negb_even, Ev; reflexivity).
    apply Z.odd_spec in Hodd. destruct Hodd as [q Hq].
    destruct (Z.compare_spec (2 * r + 1) D);
      destruct (Z.compare_spec (2 * r) D); try reflexivity; lia.
Qed.

Lemma location_of_init N D :
  0 < D -> 0 <= N ->
  loc_of_shr_record
    (shr_record_of_loc (N / D) (new_location D (N mod D)))
  = location_of N D.
Proof.
  intros HD HN. rewrite loc_of_shr_record_of_loc.
  apply new_location_char; [exact HD |]. apply Z.mod_pos_bound. exact HD.
Qed.

Lemma shr_1_location mrs N P :
  0 <= N -> 0 < P ->
  shr_m mrs = N / P -> loc_of_shr_record mrs = location_of N P ->
  shr_m (shr_1 mrs) = N / (P * 2)
  /\ loc_of_shr_record (shr_1 mrs) = location_of N (P * 2).
Proof.
  intros HN HP Hm Hl.
  assert (Hm0 : 0 <= shr_m mrs) by (rewrite Hm; apply Z.div_pos; lia).
  pose proof (shr_1_m mrs Hm0) as Em.
  destruct (shr_1_rs mrs Hm0) as [Er Es].
  split; [rewrite Em, Hm, Z.div_div by lia; reflexivity |].
  pose proof (Z.mod_pos_bound N P HP) as Hrem.
  assert (Emod : N mod (P * 2) = N mod P + P * (shr_m mrs mod 2)).
  { rewrite Hm. apply Z.rem_mul_r; lia. }
  rewrite Zmod_odd in Emod.
  unfold location_of in *. rewrite Emod.
  destruct (shr_1 mrs) as [m' r' s']. cbn [shr_r shr_s] in Er, Es.
  destruct mrs as [m r s]. cbn [shr_m shr_r shr_s] in *.
  subst r' s'. cbn [loc_of_shr_record].
  destruct (Z.eqb_spec (N mod P) 0) as [E0 | N0].
  - destruct r, s; try discriminate. cbn [orb].
    destruct (Z.odd m).
    + replace (N mod P + P * 1 =? 0) with false
        by (symmetry; apply Z.eqb_neq; lia).
      replace (2 * (N mod P + P * 1) ?= P * 2) with Eq
        by (symmetry; apply Z.compare_eq_iff; lia).
      reflexivity.
    + replace (N mod P + P * 0 =? 0) with true
        by (symmetry; apply Z.eqb_eq; lia).
      reflexivity.
  - assert (Hrs : r || s = true) by (destruct r, s; try discriminate; reflexivity).
    rewrite Hrs. destruct (Z.odd m).
    + replace (N mod P + P * 1 =? 0) with false
        by (symmetry; apply Z.eqb_neq; lia).
      replace (2 * (N mod P + P * 1) ?= P * 2) with Gt
        by (symmetry; apply Z.compare_gt_iff; lia).
      reflexivity.
    + replace (N mod P + P * 0 =? 0) with false
        by (symmetry; apply Z.eqb_neq; lia).
      replace (2 * (N mod P + P * 0) ?= P * 2) with Lt
        by (symmetry; apply Z.compare_lt_iff; lia).
      reflexivity.
Qed.

Lemma iter_shr_1_location (k : nat) mrs N P :
  0 <= N -> 0 < P ->
  shr_m mrs = N / P -> loc_of_shr_record mrs = location_of N P ->
  shr_m (Nat.iter k shr_1 mrs) = N / (P * 2 ^ Z.of_nat k)
  /\ loc_of_shr_record (Nat.iter k shr_1 mrs)
     = location_of N (P * 2 ^ Z.of_nat k).
Proof.
  intros HN HP Hm Hl. induction k as [| k [IHm IHl]].
  - change (Nat.iter 0 shr_1 mrs) with mrs.
    rewrite Z.pow_0_r, Z.mul_1_r. auto.
  - change (Nat.iter (S k) shr_1 mrs) with (shr_1 (Nat.iter k shr_1 mrs)).
    rewrite Nat2Z.inj_succ, Z.pow_succ_r by lia.
    replace (P * (2 * 2 ^ Z.of_nat k)) with (P * 2 ^ Z.of_nat k * 2) by ring.
    apply shr_1_location; try assumption.
    assert (0 < 2 ^ Z.of_nat k) by (apply pow2_pos; lia). nia.
Qed.

(** The first shift of [binary_round_aux] keeps track of where the exact
    quotient lies. *)
Lemma shr_fexp_location N D e :
  0 < D -> 0 <= N ->
  exists mrs,
    shr_fexp prec emax (N / D) e (new_location D (N mod D))
    = (mrs, e + shift (N / D) e)
    /\ shr_m mrs = N / (D * 2 ^ shift (N / D) e)
    /\ loc_of_shr_record mrs = location_of N (D * 2 ^ shift (N / D) e).
Proof.
  intros HD HN. unfold shr_fexp, shift, fexp32, shr.
  set (m := N / D).
  pose proof (location_of_init N D HD HN) as Hl. fold m in Hl.
  assert (Hm : shr_m (shr_record_of_loc m (new_location D (N mod D))) = N / D)
    by apply shr_record_of_loc_m.
  destruct (fexp prec emax (Zdigits2 m + e) - e) as [| p | p] eqn:En.
  - eexists. rewrite Z.max_id, Z.add_0_r, Z.pow_0_r, Z.mul_1_r.
    split; [reflexivity |]. split; assumption.
  - eexists. rewrite Z.max_r by lia. rewrite iter_pos_nat.
    split; [reflexivity |].
    rewrite <- (positive_nat_Z p).
    apply iter_shr_1_location; assumption.
  - eexists. rewrite Z.max_l by lia.
    rewrite Z.add_0_r, Z.pow_0_r, Z.mul_1_r.
    split; [reflexivity |]. split; assumption.
Qed.

(** Rounding to nearest, ties to even, in terms of the exact quotient. *)
Lemma round_nearest_even_location N P :
  0 <= N -> 0 < P ->
  let m1 := N / P in
  let m2 := round_nearest_even m1 (location_of N P) in
  (m2 = m1 /\ 2 * N <= (2 * m1 + 1) * P
   /\ (2 * N = (2 * m1 + 1) * P -> Z.even m1 = true))
  \/ (m2 = m1 + 1 /\ (2 * m1 + 1) * P <= 2 * N
      /\ (2 * N = (2 * m1 + 1) * P -> Z.even m1 = false)).
Proof.
  intros HN HP. cbn zeta.
  pose proof (Z.div_mod N P) as Hdm.
  pose proof (Z.mod_pos_bound N P HP) as Hrem.
  unfold location_of.
  destruct (Z.eqb_spec (N mod P) 0) as [E0 | N0]; cbn [round_nearest_even].
  - left. split; [reflexivity |]. split; [nia | intros; nia].
  - destruct (Z.compare_spec (2 * (N mod P)) P) as [E | L | G].
    + destruct (Z.even (N / P)) eqn:Ev.
      * left. split; [reflexivity |]. split; [nia | auto].
      * right. split; [reflexivity |]. split; [nia | auto].
    + left. split; [reflexivity |]. split; [nia | intros; nia].
    + right. split; [reflexivity |]. split; [nia | intros; nia].
Qed.


(** [binary_round_aux] on the quotient [N / D] located by its remainder:
    the exact value [N / D * 2 ^ e] is rounded to a nearest multiple of
    [2 ^ e1], a tie going to the even one. *)
Lemma binary_round_aux_nearest s N D e :
  0 < D -> 0 < N / D -> e <= fexp32 (Zdigits2 (N / D) + e) ->
  let e1 := fexp32 (Zdigits2 (N / D) + e) in
  let P := D * 2 ^ (e1 - e) in
  let m1 := N / P in
  exists m2,
    ((m2 = m1 /\ 2 * N <= (2 * m1 + 1) * P
      /\ (2 * N = (2 * m1 + 1) * P -> Z.even m1 = true))
     \/ (m2 = m1 + 1 /\ (2 * m1 + 1) * P <= 2 * N
         /\ (2 * N = (2 * m1 + 1) * P -> Z.even m1 = false)))
    /\ (-149 < e1 -> 2 ^ 23 <= m1)
    /\ 0 <= m1 < 2 ^ 24
    /\ ((m2 = 0
         /\ binary_round_aux prec emax s (N / D) e
              (new_location D (N mod D)) = S754_zero s)
        \/ exists m3 e3,
             Zpos m3 * 2 ^ (e3 - e1) = m2 /\ e1 <= e3 <= e1 + 1
             /\ fexp32 (Zdigits2 (Zpos m3) + e3) = e3
             /\ binary_round_aux prec emax s (N / D) e
                  (new_location D (N mod D))
                = if e3 <=? 104 then S754_finite s m3 e3
                  else S754_infinity s).
Proof.
  intros HD Hm Hal. cbn zeta.
  assert (HN : 0 <= N).
  { destruct (Z_lt_ge_dec N 0) as [Hneg | ?]; [exfalso | lia].
    assert (N / D < 0) by (apply Z.div_lt_upper_bound; lia). lia. }
  set (m := N / D) in *.
  assert (Hn : shift m e = fexp32 (Zdigits2 m + e) - e) by (unfold shift; lia).
  set (e1 := fexp32 (Zdigits2 m + e)) in *.
  set (n := e1 - e) in *.
  assert (H0n : 0 <= n) by (unfold n; lia).
  assert (H2n : 0 < 2 ^ n) by (apply pow2_pos; lia).
  assert (HP : 0 < D * 2 ^ n) by nia.
  assert (He1 : -149 <= e1) by (unfold e1; rewrite fexp32_eq; lia).
  pose proof (Zdigits2_pos m Hm) as Hd.
  assert (Em1 : N / (D * 2 ^ n) = m / 2 ^ n)
    by (unfold m; rewrite Z.div_div by lia; reflexivity).
  assert (Hm1 : 0 <= N / (D * 2 ^ n) < 2 ^ 24).
  { rewrite Em1. split; [apply Z.div_pos; lia |].
    destruct (Z_lt_ge_dec n (Zdigits2 m)) as [Hlt | Hge].
    - destruct (Zdigits2_shift m n Hm H0n Hlt) as [Hq Hdq].
      apply Zdigits2_lt_pow2; [exact Hq |].
      rewrite Hdq. unfold n, e1. rewrite fexp32_eq. lia.
    - assert (m < 2 ^ n).
      { assert (m < 2 ^ Zdigits2 m) by (apply Zdigits2_lt_pow2; lia).
        assert (2 ^ Zdigits2 m <= 2 ^ n) by (apply pow2_le; lia). lia. }
      rewrite Z.div_small by lia. reflexivity. }
  assert (Hnorm : -149 < e1 -> 2 ^ 23 <= N / (D * 2 ^ n)).
  { intros Hgt. rewrite Em1.
    assert (En : n = Zdigits2 m - 24)
      by (unfold n, e1 in *; rewrite fexp32_eq in *; lia).
    destruct (Zdigits2_shift m n Hm H0n) as [Hq Hdq]; [lia |].
    apply Zdigits2_le_pow2; [exact Hq | lia]. }
  destruct (shr_fexp_location N D e HD HN) as (mrs & E1 & Emrs & Eloc).
  fold m in E1, Emrs, Eloc. rewrite Hn in E1, Emrs, Eloc.
  fold n in E1, Emrs, Eloc.
  replace (e + n) with e1 in E1 by (unfold n; lia).
  set (m2 := round_nearest_even (N / (D * 2 ^ n)) (location_of N (D * 2 ^ n))).
  pose proof (round_nearest_even_location N (D * 2 ^ n) HN HP) as Hr.
  cbn zeta in Hr. fold m2 in Hr.
  assert (Hor : m2 = N / (D * 2 ^ n) \/ m2 = N / (D * 2 ^ n) + 1)
    by (destruct Hr as [(? & _) | (? & _)]; auto).
  assert (Hm2 : 0 <= m2) by lia.
  assert (Ebra : binary_round_aux prec emax s m e (new_location D (N mod D))
                 = pack s (m2 / 2 ^ shift m2 e1) (e1 + shift m2 e1)).
  { unfold binary_round_aux. rewrite E1, Emrs, Eloc. fold m2.
    destruct (shr_fexp_char m2 e1 loc_Exact Hm2) as (mrs2 & E2 & Em2 & _).
    rewrite E2, Em2. reflexivity. }
  rewrite Ebra. exists m2.
  split; [exact Hr |]. split; [exact Hnorm |]. split; [exact Hm1 |].
  apply (pack_value s (N / (D * 2 ^ n))); assumption.
Qed.


Lemma raw_exp_mono m e e' : 0 <= m -> -400 <= e <= e' -> raw m e <= raw m e'.
Proof.
  intros Hm He. rewrite (raw_up m e e') by lia. apply raw_le; [lia |].
  assert (0 < 2 ^ (e' - e)) by (apply pow2_pos; lia). nia.
Qed.

(** The top of one binade does not exceed the bottom of the next. *)
Lemma raw_binade a b e e' :
  a <= 2 ^ 24 -> 2 ^ 23 <= b -> -400 <= e -> e < e' -> raw a e <= raw b e'.
Proof.
  intros Ha Hb He Hlt.
  apply Z.le_trans with (raw (2 ^ 24) e); [apply raw_le; lia |].
  change (2 ^ 24) with (2 ^ 23 * 2 ^ 1). rewrite <- raw_shift by lia.
  apply Z.le_trans with (raw (2 ^ 23) e').
  - apply raw_exp_mono; lia.
  - apply raw_le; lia.
Qed.

(** The finite result of [binary_round_aux] has the value of the rounded
    mantissa. *)
Lemma finite_result_raw s m2 e1 (r : spec_float) m3 e3 :
  -400 <= e1 ->
  (m2 = 0 /\ r = S754_zero s)
  \/ (exists m3' e3',
        Zpos m3' * 2 ^ (e3' - e1) = m2 /\ e1 <= e3' <= e1 + 1
        /\ fexp32 (Zdigits2 (Zpos m3') + e3') = e3'
        /\ r = if e3' <=? 104 then S754_finite s m3' e3'
               else S754_infinity s) ->
  r = S754_finite s m3 e3 ->
  raw (Zpos m3) e3 = raw m2 e1.
Proof.
  intros He1 [[_ E] | (m3' & e3' & Em & He3 & _ & E)] Er; rewrite E in Er;
    [discriminate |].
  destruct (e3' <=? 104); [| discriminate].
  injection Er as <- <-. rewrite (raw_up _ e1 e3'), Em by lia. reflexivity.
Qed.

(** Rounding is monotone: of two exact quotients, the smaller is rounded
    to the smaller float. *)
Lemma binary_round_aux_mono s N1 D1 e1 N2 D2 e2 m3 e3 m4 e4 :
  0 < D1 -> 0 < N1 / D1 -> e1 <= fexp32 (Zdigits2 (N1 / D1) + e1) ->
  -400 <= e1 ->
  0 < D2 -> 0 < N2 / D2 -> e2 <= fexp32 (Zdigits2 (N2 / D2) + e2) ->
  -400 <= e2 ->
  binary_round_aux prec emax s (N1 / D1) e1 (new_location D1 (N1 mod D1))
  = S754_finite s m3 e3 ->
  binary_round_aux prec emax s (N2 / D2) e2 (new_location D2 (N2 mod D2))
  = S754_finite s m4 e4 ->
  N1 * 2 ^ (e1 + 400) * D2 <= N2 * 2 ^ (e2 + 400) * D1 ->
  raw (Zpos m3) e3 <= raw (Zpos m4) e4.
Proof.
  intros HD1 Hq1 Hal1 He1 HD2 Hq2 Hal2 He2 Er1 Er2 Hle.
  destruct (binary_round_aux_nearest s N1 D1 e1 HD1 Hq1 Hal1)
    as (ma & Ha & Hna & Hma & Hra).
  destruct (binary_round_aux_nearest s N2 D2 e2 HD2 Hq2 Hal2)
    as (mb & Hb & Hnb & Hmb & Hrb).
  set (G1 := fexp32 (Zdigits2 (N1 / D1) + e1)) in *.
  set (G2 := fexp32 (Zdigits2 (N2 / D2) + e2)) in *.
  set (P1 := D1 * 2 ^ (G1 - e1)) in *. set (P2 := D2 * 2 ^ (G2 - e2)) in *.
  assert (HG1 : -400 <= G1) by lia. assert (HG2 : -400 <= G2) by lia.
  assert (HG1' : -149 <= G1) by (unfold G1; rewrite fexp32_eq; lia).
  assert (HG2' : -149 <= G2) by (unfold G2; rewrite fexp32_eq; lia).
  clearbody G1 G2.
  rewrite (finite_result_raw s ma G1 _ m3 e3 HG1 Hra Er1).
  rewrite (finite_result_raw s mb G2 _ m4 e4 HG2 Hrb Er2).
  clear Hra Hrb Er1 Er2.
  assert (H2a : 0 < 2 ^ (G1 - e1)) by (apply pow2_pos; lia).
  assert (H2b : 0 < 2 ^ (G2 - e2)) by (apply pow2_pos; lia).
  assert (HP1 : 0 < P1) by (unfold P1; nia).
  assert (HP2 : 0 < P2) by (unfold P2; nia).
  assert (HN1 : 0 <= N1).
  { destruct (Z_lt_ge_dec N1 0) as [Hneg | ?]; [exfalso | lia].
    assert (N1 / D1 < 0) by (apply Z.div_lt_upper_bound; lia). lia. }
  assert (HN2 : 0 <= N2).
  { destruct (Z_lt_ge_dec N2 0) as [Hneg | ?]; [exfalso | lia].
    assert (N2 / D2 < 0) by (apply Z.div_lt_upper_bound; lia). lia. }
  set (M1 := N1 / P1) in *. set (M2 := N2 / P2) in *.
  assert (Hf1 : M1 * P1 <= N1 < (M1 + 1) * P1).
  { unfold M1. pose proof (Z.div_mod N1 P1).
    pose proof (Z.mod_pos_bound N1 P1 HP1). nia. }
  assert (Hf2 : M2 * P2 <= N2 < (M2 + 1) * P2).
  { unfold M2. pose proof (Z.div_mod N2 P2).
    pose proof (Z.mod_pos_bound N2 P2 HP2). nia. }
  assert (Hma' : M1 <= ma <= M1 + 1)
    by (destruct Ha as [(? & _) | (? & _)]; lia).
  assert (Hmb' : M2 <= mb <= M2 + 1)
    by (destruct Hb as [(? & _) | (? & _)]; lia).
  (* the exact values, over the common denominator [D1 * D2] *)
  assert (HX1 : N1 * 2 ^ (e1 + 400) * D2 * 2 ^ (G1 - e1)
                = N1 * D2 * 2 ^ (G1 + 400)).
  { rewrite (pow2_split (e1 + 400) (G1 + 400)) by lia.
    replace (G1 + 400 - (e1 + 400)) with (G1 - e1) by lia. ring. }
  assert (HX2 : N2 * 2 ^ (e2 + 400) * D1 * 2 ^ (G2 - e2)
                = N2 * D1 * 2 ^ (G2 + 400)).
  { rewrite (pow2_split (e2 + 400) (G2 + 400)) by lia.
    replace (G2 + 400 - (e2 + 400)) with (G2 - e2) by lia. ring. }
  destruct (Z.lt_trichotomy G1 G2) as [L | [E | G]].
  - apply raw_binade; lia.
  - (* same grid *)
    subst G2. apply raw_le; [lia |].
    assert (Hc : N1 * P2 <= N2 * P1).
    { assert (H1 : N1 * 2 ^ (e1 + 400) * D2 * 2 ^ (G1 - e1) * 2 ^ (G1 - e2)
                   <= N2 * 2 ^ (e2 + 400) * D1 * 2 ^ (G1 - e2) * 2 ^ (G1 - e1)).
      { replace (N2 * 2 ^ (e2 + 400) * D1 * 2 ^ (G1 - e2) * 2 ^ (G1 - e1))
          with (N2 * 2 ^ (e2 + 400) * D1 * 2 ^ (G1 - e1) * 2 ^ (G1 - e2))
          by ring.
        apply Z.mul_le_mono_nonneg_r; [lia |].
        apply Z.mul_le_mono_nonneg_r; [lia | exact Hle]. }
      rewrite HX1, HX2 in H1.
      assert (HT : 0 < 2 ^ (G1 + 400)) by (apply pow2_pos; lia).
      apply (Z.mul_le_mono_pos_r _ _ (2 ^ (G1 + 400)) HT).
      unfold P1, P2. 
      replace (N1 * (D2 * 2 ^ (G1 - e2)) * 2 ^ (G1 + 400))
        with (N1 * D2 * 2 ^ (G1 + 400) * 2 ^ (G1 - e2)) by ring.
      replace (N2 * (D1 * 2 ^ (G1 - e1)) * 2 ^ (G1 + 400))
        with (N2 * D1 * 2 ^ (G1 + 400) * 2 ^ (G1 - e1)) by ring.
      exact H1. }
    assert (HM : M1 <= M2).
    { apply Z.div_le_lower_bound; [lia |].
      apply (Z.mul_le_mono_pos_r _ _ P1 HP1).
      apply Z.le_trans with (N1 * P2); [| exact Hc].
      replace (P2 * M1 * P1) with (M1 * P1 * P2) by ring.
      apply Z.mul_le_mono_nonneg_r; lia. }
    destruct (Z_lt_le_dec M1 M2) as [Hlt | Hge]; [lia |].
    assert (EM : M1 = M2) by lia.
    destruct Ha as [(Ea & _) | (Ea & Hua & Hta)]; [lia |].
    destruct Hb as [(Eb & Hdb & Htb) | (Eb & _)]; [| lia].
    exfalso. rewrite <- EM in *.
    assert (K1 : (2 * M1 + 1) * P1 * P2 <= 2 * N1 * P2)
      by (apply Z.mul_le_mono_nonneg_r; lia).
    assert (K2 : 2 * N2 * P1 <= (2 * M1 + 1) * P2 * P1)
      by (apply Z.mul_le_mono_nonneg_r; lia).
    assert (K3 : 2 * N1 * P2 = (2 * M1 + 1) * P1 * P2) by lia.
    assert (K4 : 2 * N2 * P1 = (2 * M1 + 1) * P2 * P1) by lia.
    apply Z.mul_cancel_r in K3; [| lia].
    apply Z.mul_cancel_r in K4; [| lia].
    rewrite (Hta K3) in Htb. specialize (Htb K4). discriminate.
  - (* the larger value cannot lie in the lower binade *)
    exfalso.
    assert (T1 : 0 < 2 ^ (e1 + 400)) by (apply pow2_pos; lia).
    assert (T2 : 0 < 2 ^ (e2 + 400)) by (apply pow2_pos; lia).
    assert (Hlo : raw M1 G1 * (D1 * D2) <= N1 * 2 ^ (e1 + 400) * D2).
    { unfold raw. rewrite (pow2_split (e1 + 400) (G1 + 400)) by lia.
      replace (G1 + 400 - (e1 + 400)) with (G1 - e1) by lia.
      replace (M1 * (2 ^ (G1 - e1) * 2 ^ (e1 + 400)) * (D1 * D2))
        with (M1 * P1 * (2 ^ (e1 + 400) * D2)) by (unfold P1; ring).
      replace (N1 * 2 ^ (e1 + 400) * D2) with (N1 * (2 ^ (e1 + 400) * D2))
        by ring.
      apply Z.mul_le_mono_nonneg_r; [nia | lia]. }
    assert (Hhi : N2 * 2 ^ (e2 + 400) * D1 < raw (M2 + 1) G2 * (D1 * D2)).
    { unfold raw. rewrite (pow2_split (e2 + 400) (G2 + 400)) by lia.
      replace (G2 + 400 - (e2 + 400)) with (G2 - e2) by lia.
      replace ((M2 + 1) * (2 ^ (G2 - e2) * 2 ^ (e2 + 400)) * (D1 * D2))
        with ((M2 + 1) * P2 * (2 ^ (e2 + 400) * D1)) by (unfold P2; ring).
      replace (N2 * 2 ^ (e2 + 400) * D1) with (N2 * (2 ^ (e2 + 400) * D1))
        by ring.
      apply Z.mul_lt_mono_pos_r; [nia | lia]. }
    assert (Hb2 : raw (M2 + 1) G2 <= raw M1 G1) by (apply raw_binade; lia).
    assert (raw (M2 + 1) G2 * (D1 * D2) <= raw M1 G1 * (D1 * D2))
      by (apply Z.mul_le_mono_nonneg_r; [nia | exact Hb2]).
    lia.
Qed.


(** *** Monotonicity of the operations *)

Lemma raw_scale m e t :
  0 <= t -> -400 <= e -> raw m (e + t) = raw m e * 2 ^ t.
Proof.
  intros Ht He. unfold raw. replace (e + t + 400) with (e + 400 + t) by lia.
  rewrite Z.pow_add_r by lia. ring.
Qed.

(** Moving two exponents by the same amount keeps the order. *)
Lemma raw_le_shift a e1 b e2 t :
  -400 <= e1 -> -400 <= e2 -> -400 <= e1 + t -> -400 <= e2 + t ->
  raw a e1 <= raw b e2 -> raw a (e1 + t) <= raw b (e2 + t).
Proof.
  intros H1 H2 H3 H4 Hle. destruct (Z_le_gt_dec 0 t) as [Ht | Ht].
  - rewrite !raw_scale by lia.
    apply Z.mul_le_mono_nonneg_r; [| exact Hle].
    apply Z.lt_le_incl, pow2_pos; lia.
  - assert (Hp : 0 < 2 ^ (- t)) by (apply pow2_pos; lia).
    apply (Z.mul_le_mono_pos_r _ _ (2 ^ (- t)) Hp).
    rewrite <- !raw_scale by lia.
    replace (e1 + t + - t) with e1 by lia.
    replace (e2 + t + - t) with e2 by lia. exact Hle.
Qed.

Lemma raw_mul mx ex my ey :
  -400 <= ex + ey -> -400 <= ex -> -400 <= ey ->
  raw (mx * my) (ex + ey) * 2 ^ 400 = raw mx ex * raw my ey.
Proof.
  intros H H1 H2. unfold raw.
  assert (E : 2 ^ (ex + 400) * 2 ^ (ey + 400)
              = 2 ^ (ex + ey + 400) * 2 ^ 400).
  { rewrite <- !Z.pow_add_r by lia. f_equal. lia. }
  replace (mx * 2 ^ (ex + 400) * (my * 2 ^ (ey + 400)))
    with (mx * my * (2 ^ (ex + 400) * 2 ^ (ey + 400))) by ring.
  rewrite E. ring.
Qed.

Lemma mul_aligned mx ex my ey :
  valid (S754_finite false mx ex) = true ->
  valid (S754_finite false my ey) = true ->
  ex + ey <= fexp32 (Zdigits2 (Zpos (mx * my)) + (ex + ey)).
Proof.
  intros Hvx Hvy.
  destruct (valid_bounds _ _ _ Hvx) as (Hex & Hmx & Hnx).
  destruct (valid_bounds _ _ _ Hvy) as (Hey & Hmy & Hny).
  rewrite fexp32_eq.
  destruct (Z_le_gt_dec (ex + ey) (-149)) as [Hs | Hs]; [lia |].
  assert (H23 : 2 ^ 23 <= Zpos (mx * my)).
  { rewrite Pos2Z.inj_mul.
    destruct (Z_le_gt_dec ex (-149)) as [Hx | Hx].
    - assert (2 ^ 23 <= Zpos my) by (apply Hny; lia). nia.
    - assert (2 ^ 23 <= Zpos mx) by (apply Hnx; lia). nia. }
  assert (23 < Zdigits2 (Zpos (mx * my))) by (apply Zdigits2_le_pow2; lia).
  lia.
Qed.

(** Multiplication by a positive float is monotone. *)
Lemma mul_mono mx1 ex1 mx2 ex2 mc ec m3 e3 m4 e4 :
  valid (S754_finite false mx1 ex1) = true ->
  valid (S754_finite false mx2 ex2) = true ->
  valid (S754_finite false mc ec) = true ->
  raw (Zpos mx1) ex1 <= raw (Zpos mx2) ex2 ->
  mul (S754_finite false mx1 ex1) (S754_finite false mc ec)
  = S754_finite false m3 e3 ->
  mul (S754_finite false mx2 ex2) (S754_finite false mc ec)
  = S754_finite false m4 e4 ->
  raw (Zpos m3) e3 <= raw (Zpos m4) e4.
Proof.
  intros Hv1 Hv2 Hvc Hle E1 E2. unfold mul in E1, E2. cbn [SFmul xorb] in E1, E2.
  destruct (valid_bounds _ _ _ Hv1) as (He1 & _).
  destruct (valid_bounds _ _ _ Hv2) as (He2 & _).
  destruct (valid_bounds _ _ _ Hvc) as (Hec & _).
  pose proof (mul_aligned _ _ _ _ Hv1 Hvc) as Hal1.
  pose proof (mul_aligned _ _ _ _ Hv2 Hvc) as Hal2.
  assert (F : forall N e,
             binary_round_aux prec emax false N e loc_Exact
             = binary_round_aux prec emax false (N / 1) e
                 (new_location 1 (N mod 1))).
  { intros N e. rewrite Z.div_1_r, Z.mod_1_r. reflexivity. }
  rewrite F in E1, E2.
  apply (binary_round_aux_mono false (Zpos (mx1 * mc)) 1 (ex1 + ec)
           (Zpos (mx2 * mc)) 1 (ex2 + ec) m3 e3 m4 e4);
    [lia | rewrite Z.div_1_r; lia | rewrite Z.div_1_r; exact Hal1 | lia
    | lia | rewrite Z.div_1_r; lia | rewrite Z.div_1_r; exact Hal2 | lia
    | exact E1 | exact E2 |].
  rewrite !Z.mul_1_r. fold (raw (Zpos (mx1 * mc)) (ex1 + ec)).
  fold (raw (Zpos (mx2 * mc)) (ex2 + ec)).
  assert (H400 : 0 < 2 ^ 400) by (apply pow2_pos; lia).
  apply (Z.mul_le_mono_pos_r _ _ (2 ^ 400) H400).
  rewrite !Pos2Z.inj_mul, !raw_mul by lia.
  apply Z.mul_le_mono_nonneg_r; [| exact Hle].
  apply Z.lt_le_incl, raw_pos; lia.
Qed.

Lemma mul_comm_finite sx mx ex sy my ey :
  mul (S754_finite sx mx ex) (S754_finite sy my ey)
  = mul (S754_finite sy my ey) (S754_finite sx mx ex).
Proof.
  unfold mul. cbn [SFmul].
  rewrite (Pos.mul_comm mx my), (Z.add_comm ex ey), (xorb_comm sx sy).
  reflexivity.
Qed.

(** What [SFdiv_core_binary] hands to the rounding, when the quotient is
    not below some positive float. *)
Lemma div_core_pos mx ex my ey ka ea :
  valid (S754_finite false mx ex) = true ->
  valid (S754_finite false my ey) = true ->
  valid (S754_finite false ka ea) = true ->
  raw (Zpos ka) ea * raw (Zpos my) ey <= raw (Zpos mx) ex * 2 ^ 400 ->
  let e' := Z.min (fexp32 (Zdigits2 (Zpos mx) + ex - (Zdigits2 (Zpos my) + ey)))
                  (ex - ey) in
  let s := ex - ey - e' in
  let q := Zpos mx * 2 ^ s / Zpos my in
  0 < q /\ e' <= fexp32 (Zdigits2 q + e') /\ -253 <= e' /\ 0 <= s.
Proof.
  intros Hvx Hvy Hva Hlo. cbn zeta.
  destruct (valid_bounds _ _ _ Hvx) as (Hex & Hmx & Hnx).
  destruct (valid_bounds _ _ _ Hvy) as (Hey & Hmy & Hny).
  destruct (valid_bounds _ _ _ Hva) as (Hea & Hka & Hna).
  destruct (valid_finite_inv _ _ _ Hvx) as [Hcx _].
  destruct (valid_finite_inv _ _ _ Hvy) as [Hcy _].
  rewrite fexp32_eq in Hcx, Hcy.
  pose proof (Zdigits2_pos (Zpos mx) (Pos2Z.is_pos mx)) as Hdx.
  pose proof (Zdigits2_pos (Zpos my) (Pos2Z.is_pos my)) as Hdy.
  rewrite fexp32_eq.
  set (dx := Zdigits2 (Zpos mx)) in *. set (dy := Zdigits2 (Zpos my)) in *.
  set (e' := Z.min (Z.max (dx + ex - (dy + ey) - 24) (-149)) (ex - ey)) in *.
  set (s := ex - ey - e') in *.
  assert (He' : -253 <= e') by (unfold e'; lia).
  assert (Hs : 0 <= s) by (unfold s, e'; lia).
  assert (H2s : 0 < 2 ^ s) by (apply pow2_pos; lia).
  set (q := Zpos mx * 2 ^ s / Zpos my).
  assert (Hq0 : 0 <= q) by (apply Z.div_pos; lia).
  assert (Hnq : -149 < e' -> 2 ^ 23 <= q).
  { intros Hgt. assert (Es : s = 24 - dx + dy) by (unfold s, e' in *; lia).
    assert (H1 : 2 ^ (dx - 1) <= Zpos mx)
      by (apply Zdigits2_le_pow2; unfold dx; lia).
    assert (H2 : Zpos my < 2 ^ dy)
      by (apply Zdigits2_lt_pow2; unfold dy; lia).
    apply Z.div_le_lower_bound; [lia |].
    assert (H3 : 2 ^ (23 + dy) <= Zpos mx * 2 ^ s).
    { replace (23 + dy) with ((dx - 1) + s) by lia.
      rewrite Z.pow_add_r by lia. nia. }
    rewrite Z.pow_add_r in H3 by lia.
    assert (0 < 2 ^ 23) by reflexivity.
    assert (Zpos my * 2 ^ 23 <= 2 ^ dy * 2 ^ 23) by nia. lia. }
  set (T := 2 ^ (e' + 400)). set (U := 2 ^ (ey + 400)).
  assert (HT : 0 < T) by (apply pow2_pos; lia).
  assert (HU : 0 < U) by (apply pow2_pos; lia).
  assert (HTU : 0 < T * U) by nia.
  assert (Ex : raw (Zpos mx) ex * 2 ^ 400 = Zpos mx * 2 ^ s * (T * U)).
  { unfold raw, T, U. rewrite <- !Z.mul_assoc. f_equal.
    rewrite <- !Z.pow_add_r by lia. f_equal. unfold s. lia. }
  assert (Ey : raw (Zpos my) ey = Zpos my * U) by reflexivity.
  assert (Hlo2 : raw (Zpos ka) ea <= raw q e').
  { destruct (Z_le_gt_dec e' ea) as [Hle | Hgt].
    - rewrite (raw_up _ e' ea) by lia. apply raw_le; [lia |].
      rewrite (raw_up _ e' ea), Ex, Ey in Hlo by lia.
      unfold raw in Hlo. fold T in Hlo.
      replace (Zpos ka * 2 ^ (ea - e') * T * (Zpos my * U))
        with (Zpos ka * 2 ^ (ea - e') * Zpos my * (T * U)) in Hlo by ring.
      apply Z.mul_le_mono_pos_r in Hlo; [| exact HTU].
      apply Z.div_le_lower_bound; lia.
    - apply Z.lt_le_incl. apply raw_exponent_lt; lia. }
  assert (Hq : 0 < q).
  { pose proof (raw_pos (Zpos ka) ea). unfold raw in Hlo2 at 2. fold T in Hlo2.
    nia. }
  split; [exact Hq |]. split; [| lia].
  rewrite fexp32_eq.
  destruct (Z_le_gt_dec e' (-149)) as [Hsub | Hn]; [lia |].
  assert (23 < Zdigits2 q) by (apply Zdigits2_le_pow2; [lia | apply Hnq; lia]).
  lia.
Qed.

(** Division by a positive float is monotone in the numerator. *)
Lemma div_mono_num mx1 ex1 mx2 ex2 mc ec ka ea m3 e3 m4 e4 :
  valid (S754_finite false mx1 ex1) = true ->
  valid (S754_finite false mx2 ex2) = true ->
  valid (S754_finite false mc ec) = true ->
  valid (S754_finite false ka ea) = true ->
  raw (Zpos ka) ea * raw (Zpos mc) ec <= raw (Zpos mx1) ex1 * 2 ^ 400 ->
  raw (Zpos mx1) ex1 <= raw (Zpos mx2) ex2 ->
  div (S754_finite false mx1 ex1) (S754_finite false mc ec)
  = S754_finite false m3 e3 ->
  div (S754_finite false mx2 ex2) (S754_finite false mc ec)
  = S754_finite false m4 e4 ->
  raw (Zpos m3) e3 <= raw (Zpos m4) e4.
Proof.
  intros Hv1 Hv2 Hvc Hva Hlo Hle E1 E2.
  unfold div in E1, E2. cbn [SFdiv xorb] in E1, E2.
  destruct (valid_bounds _ _ _ Hv1) as (He1 & _).
  destruct (valid_bounds _ _ _ Hv2) as (He2 & _).
  destruct (valid_bounds _ _ _ Hvc) as (Hec & _).
  assert (H400 : 0 < 2 ^ 400) by (apply pow2_pos; lia).
  assert (Hlo' : raw (Zpos ka) ea * raw (Zpos mc) ec
                 <= raw (Zpos mx2) ex2 * 2 ^ 400).
  { apply Z.le_trans with (1 := Hlo). apply Z.mul_le_mono_nonneg_r; lia. }
  destruct (SFdiv_core_char mx1 ex1 mc ec) as [Ec1 _]. rewrite Ec1 in E1.
  destruct (SFdiv_core_char mx2 ex2 mc ec) as [Ec2 _]. rewrite Ec2 in E2.
  clear Ec1 Ec2.
  destruct (div_core_pos mx1 ex1 mc ec ka ea Hv1 Hvc Hva Hlo)
    as (Hq1 & Hal1 & Hlo1 & Hs1).
  destruct (div_core_pos mx2 ex2 mc ec ka ea Hv2 Hvc Hva Hlo')
    as (Hq2 & Hal2 & Hlo2 & Hs2).
  set (e1' := Z.min _ (ex1 - ec)) in *. set (e2' := Z.min _ (ex2 - ec)) in *.
  assert (Hl1 : -400 <= e1') by lia. assert (Hl2 : -400 <= e2') by lia.
  apply (binary_round_aux_mono false _ _ _ _ _ _ _ _ _ _
           (Pos2Z.is_pos mc) Hq1 Hal1 Hl1
           (Pos2Z.is_pos mc) Hq2 Hal2 Hl2 E1 E2).
  apply Z.mul_le_mono_nonneg_r; [lia |].
  rewrite <- !Z.mul_assoc, <- !Z.pow_add_r by lia.
  replace (ex1 - ec - e1' + (e1' + 400)) with (ex1 + (- ec) + 400) by lia.
  replace (ex2 - ec - e2' + (e2' + 400)) with (ex2 + (- ec) + 400) by lia.
  fold (raw (Zpos mx1) (ex1 + - ec)). fold (raw (Zpos mx2) (ex2 + - ec)).
  apply raw_le_shift; lia.
Qed.

(** Division of a positive float is antitone in the denominator. *)
Lemma div_mono_den mx1 ex1 mx2 ex2 mc ec ka ea m3 e3 m4 e4 :
  valid (S754_finite false mx1 ex1) = true ->
  valid (S754_finite false mx2 ex2) = true ->
  valid (S754_finite false mc ec) = true ->
  valid (S754_finite false ka ea) = true ->
  raw (Zpos ka) ea * raw (Zpos mx2) ex2 <= raw (Zpos mc) ec * 2 ^ 400 ->
  raw (Zpos mx1) ex1 <= raw (Zpos mx2) ex2 ->
  div (S754_finite false mc ec) (S754_finite false mx1 ex1)
  = S754_finite false m3 e3 ->
  div (S754_finite false mc ec) (S754_finite false mx2 ex2)
  = S754_finite false m4 e4 ->
  raw (Zpos m4) e4 <= raw (Zpos m3) e3.
Proof.
  intros Hv1 Hv2 Hvc Hva Hlo Hle E1 E2.
  unfold div in E1, E2. cbn [SFdiv xorb] in E1, E2.
  destruct (valid_bounds _ _ _ Hv1) as (He1 & _).
  destruct (valid_bounds _ _ _ Hv2) as (He2 & _).
  destruct (valid_bounds _ _ _ Hvc) as (Hec & _).
  destruct (valid_bounds _ _ _ Hva) as (Hea & _).
  assert (H400 : 0 < 2 ^ 400) by (apply pow2_pos; lia).
  assert (Hlo' : raw (Zpos ka) ea * raw (Zpos mx1) ex1
                 <= raw (Zpos mc) ec * 2 ^ 400).
  { apply Z.le_trans with (2 := Hlo). apply Z.mul_le_mono_nonneg_l; [| exact Hle].
    apply Z.lt_le_incl, raw_pos; lia. }
  destruct (SFdiv_core_char mc ec mx1 ex1) as [Ec1 _]. rewrite Ec1 in E1.
  destruct (SFdiv_core_char mc ec mx2 ex2) as [Ec2 _]. rewrite Ec2 in E2.
  clear Ec1 Ec2.
  destruct (div_core_pos mc ec mx1 ex1 ka ea Hvc Hv1 Hva Hlo')
    as (Hq1 & Hal1 & Hlo1 & Hs1).
  destruct (div_core_pos mc ec mx2 ex2 ka ea Hvc Hv2 Hva Hlo)
    as (Hq2 & Hal2 & Hlo2 & Hs2).
  set (e1' := Z.min _ (ec - ex1)) in *. set (e2' := Z.min _ (ec - ex2)) in *.
  assert (Hl1 : -400 <= e1') by lia. assert (Hl2 : -400 <= e2') by lia.
  apply (binary_round_aux_mono false _ _ _ _ _ _ _ _ _ _
           (Pos2Z.is_pos mx2) Hq2 Hal2 Hl2
           (Pos2Z.is_pos mx1) Hq1 Hal1 Hl1 E2 E1).
  assert (Ea : 2 ^ (ec - ex2 - e2') * 2 ^ (e2' + 400) = 2 ^ (ec - ex2 + 400))
    by (rewrite <- Z.pow_add_r by lia; f_equal; lia).
  assert (Eb : 2 ^ (ec - ex1 - e1') * 2 ^ (e1' + 400) = 2 ^ (ec - ex1 + 400))
    by (rewrite <- Z.pow_add_r by lia; f_equal; lia).
  replace (Zpos mc * 2 ^ (ec - ex2 - e2') * 2 ^ (e2' + 400) * Zpos mx1)
    with (Zpos mc
          * (Zpos mx1 * (2 ^ (ec - ex2 - e2') * 2 ^ (e2' + 400)))) by ring.
  replace (Zpos mc * 2 ^ (ec - ex1 - e1') * 2 ^ (e1' + 400) * Zpos mx2)
    with (Zpos mc
          * (Zpos mx2 * (2 ^ (ec - ex1 - e1') * 2 ^ (e1' + 400)))) by ring.
  rewrite Ea, Eb. apply Z.mul_le_mono_nonneg_l; [lia |].
  set (u := ec - ex1 - ex2 + 400).
  assert (Hu : 0 <= u) by (unfold u; lia).
  assert (H2u : 0 < 2 ^ u) by (apply pow2_pos; lia).
  apply (Z.mul_le_mono_pos_r _ _ (2 ^ 400) H400).
  assert (F1 : Zpos mx1 * 2 ^ (ec - ex2 + 400) * 2 ^ 400
               = raw (Zpos mx1) ex1 * 2 ^ u).
  { unfold raw, u. rewrite <- !Z.mul_assoc, <- !Z.pow_add_r by lia.
    do 2 f_equal. lia. }
  assert (F2 : Zpos mx2 * 2 ^ (ec - ex1 + 400) * 2 ^ 400
               = raw (Zpos mx2) ex2 * 2 ^ u).
  { unfold raw, u. rewrite <- !Z.mul_assoc, <- !Z.pow_add_r by lia.
    do 2 f_equal. lia. }
  rewrite F1, F2. apply Z.mul_le_mono_nonneg_r; lia.
Qed.


(** *** Monotonicity between constants *)

Lemma Encl_leb a b x1 x2 :
  Encl a b x1 -> Encl a b x2 ->
  exists m1 e1 m2 e2,
    x1 = S754_finite false m1 e1 /\ x2 = S754_finite false m2 e2
    /\ valid (S754_finite false m1 e1) = true
    /\ valid (S754_finite false m2 e2) = true
    /\ mag a <= raw (Zpos m1) e1 /\ mag a <= raw (Zpos m2) e2
    /\ (leb x1 x2 = true <-> raw (Zpos m1) e1 <= raw (Zpos m2) e2).
Proof.
  intros H1 H2.
  destruct (Encl_inv _ _ _ H1) as (m1 & e1 & -> & Hv1 & _ & Hm1).
  destruct (Encl_inv _ _ _ H2) as (m2 & e2 & -> & Hv2 & _ & Hm2).
  exists m1, e1, m2, e2. repeat split; try assumption; try lia;
    apply leb_pos; assumption.
Qed.

Lemma mul_le_mono a1 b1 a b x1 x2 c :
  Encl a1 b1 x1 -> Encl a1 b1 x2 -> pos c = true ->
  pos a = true -> pos b = true ->
  mag a * 2 ^ 400 <= mag a1 * mag c ->
  mag b1 * mag c <= mag b * 2 ^ 400 ->
  leb x1 x2 = true ->
  Encl a b (mul x1 c) /\ Encl a b (mul x2 c)
  /\ leb (mul x1 c) (mul x2 c) = true.
Proof.
  intros H1 H2 Hc Ha Hb Hlo Hhi Hle.
  pose proof (mul_Encl a1 b1 c c a b x1 c H1 (Encl_self c Hc) Ha Hb Hlo Hhi)
    as R1.
  pose proof (mul_Encl a1 b1 c c a b x2 c H2 (Encl_self c Hc) Ha Hb Hlo Hhi)
    as R2.
  split; [exact R1 |]. split; [exact R2 |].
  destruct (Encl_leb _ _ _ _ H1 H2)
    as (m1 & e1 & m2 & e2 & -> & -> & Hv1 & Hv2 & _ & _ & Hiff).
  destruct (pos_inv c Hc) as (mc & ec & -> & Hvc).
  destruct (Encl_leb _ _ _ _ R1 R2)
    as (m3 & e3 & m4 & e4 & E3 & E4 & Hv3 & Hv4 & _ & _ & Hiff').
  apply Hiff'. apply Hiff in Hle.
  exact (mul_mono m1 e1 m2 e2 mc ec m3 e3 m4 e4 Hv1 Hv2 Hvc Hle E3 E4).
Qed.

Lemma mul_l_le_mono a1 b1 a b x1 x2 c :
  Encl a1 b1 x1 -> Encl a1 b1 x2 -> pos c = true ->
  pos a = true -> pos b = true ->
  mag a * 2 ^ 400 <= mag a1 * mag c ->
  mag b1 * mag c <= mag b * 2 ^ 400 ->
  leb x1 x2 = true ->
  Encl a b (mul c x1) /\ Encl a b (mul c x2)
  /\ leb (mul c x1) (mul c x2) = true.
Proof.
  intros H1 H2 Hc Ha Hb Hlo Hhi Hle.
  destruct (Encl_inv _ _ _ H1) as (m1 & e1 & E1 & _).
  destruct (Encl_inv _ _ _ H2) as (m2 & e2 & E2 & _).
  destruct (pos_inv c Hc) as (mc & ec & Ec & _).
  assert (C1 : mul c x1 = mul x1 c)
    by (rewrite E1, Ec; apply mul_comm_finite).
  assert (C2 : mul c x2 = mul x2 c)
    by (rewrite E2, Ec; apply mul_comm_finite).
  rewrite C1, C2. apply (mul_le_mono a1 b1); assumption.
Qed.

Lemma div_num_le_mono a1 b1 a b x1 x2 c :
  Encl a1 b1 x1 -> Encl a1 b1 x2 -> pos c = true ->
  pos a = true -> pos b = true ->
  mag a * mag c <= mag a1 * 2 ^ 400 ->
  mag b1 * 2 ^ 400 <= mag b * mag c ->
  leb x1 x2 = true ->
  Encl a b (div x1 c) /\ Encl a b (div x2 c)
  /\ leb (div x1 c) (div x2 c) = true.
Proof.
  intros H1 H2 Hc Ha Hb Hlo Hhi Hle.
  pose proof (div_Encl a1 b1 c c a b x1 c H1 (Encl_self c Hc) Ha Hb Hlo Hhi)
    as R1.
  pose proof (div_Encl a1 b1 c c a b x2 c H2 (Encl_self c Hc) Ha Hb Hlo Hhi)
    as R2.
  split; [exact R1 |]. split; [exact R2 |].
  destruct (Encl_leb _ _ _ _ H1 H2)
    as (m1 & e1 & m2 & e2 & -> & -> & Hv1 & Hv2 & Hm1 & _ & Hiff).
  destruct (pos_inv c Hc) as (mc & ec & -> & Hvc).
  destruct (pos_inv a Ha) as (ka & ea & -> & Hva).
  destruct (Encl_leb _ _ _ _ R1 R2)
    as (m3 & e3 & m4 & e4 & E3 & E4 & Hv3 & Hv4 & _ & _ & Hiff').
  apply Hiff'. apply Hiff in Hle. cbn [mag] in Hlo.
  assert (H400 : 0 < 2 ^ 400) by (apply pow2_pos; lia).
  apply (div_mono_num m1 e1 m2 e2 mc ec ka ea m3 e3 m4 e4); try assumption.
  apply Z.le_trans with (1 := Hlo). apply Z.mul_le_mono_nonneg_r; lia.
Qed.

Lemma div_den_le_mono a2 b2 a b x1 x2 c :
  Encl a2 b2 x1 -> Encl a2 b2 x2 -> pos c = true ->
  pos a = true -> pos b = true ->
  mag a * mag b2 <= mag c * 2 ^ 400 ->
  mag c * 2 ^ 400 <= mag b * mag a2 ->
  leb x1 x2 = true ->
  Encl a b (div c x1) /\ Encl a b (div c x2)
  /\ leb (div c x2) (div c x1) = true.
Proof.
  intros H1 H2 Hc Ha Hb Hlo Hhi Hle.
  pose proof (div_Encl c c a2 b2 a b c x1 (Encl_self c Hc) H1 Ha Hb Hlo Hhi)
    as R1.
  pose proof (div_Encl c c a2 b2 a b c x2 (Encl_self c Hc) H2 Ha Hb Hlo Hhi)
    as R2.
  split; [exact R1 |]. split; [exact R2 |].
  destruct (Encl_inv _ _ _ H2) as (m2' & e2' & _ & _ & _ & [_ Hx2b]).
  destruct (Encl_leb _ _ _ _ H1 H2)
    as (m1 & e1 & m2 & e2 & -> & -> & Hv1 & Hv2 & _ & _ & Hiff).
  destruct (Encl_inv _ _ _ H2) as (m2'' & e2'' & E2'' & _ & _ & [_ Hb2]).
  injection E2'' as <- <-.
  destruct (pos_inv c Hc) as (mc & ec & -> & Hvc).
  destruct (pos_inv a Ha) as (ka & ea & -> & Hva).
  destruct (Encl_leb _ _ _ _ R2 R1)
    as (m4 & e4 & m3 & e3 & E4 & E3 & Hv4 & Hv3 & _ & _ & Hiff').
  apply Hiff'. apply Hiff in Hle. cbn [mag] in Hlo.
  destruct (valid_bounds _ _ _ Hva) as (Hea & _).
  apply (div_mono_den m1 e1 m2 e2 mc ec ka ea m3 e3 m4 e4); try assumption.
  apply Z.le_trans with (2 := Hlo). apply Z.mul_le_mono_nonneg_l; [| exact Hb2].
  apply Z.lt_le_incl, raw_pos; lia.
Qed.

Lemma trunc_floor m e :
  -400 <= e ->
  exists z,
    trunc (S754_finite false m e) = Some z
    /\ z * 2 ^ 400 <= raw (Zpos m) e < (z + 1) * 2 ^ 400.
Proof.
  intros He. cbn [trunc cond_Zopp]. eexists. split; [reflexivity |].
  unfold raw. assert (H400 : 0 < 2 ^ 400) by (apply pow2_pos; lia).
  destruct e as [| p | p].
  - cbn [Z.add]. nia.
  - rewrite Z.pow_add_r by lia. nia.
  - assert (H2p : 0 < 2 ^ Zpos p) by (apply pow2_pos; lia).
    assert (E : 2 ^ 400 = 2 ^ Zpos p * 2 ^ (Zneg p + 400)).
    { rewrite <- Z.pow_add_r by lia. f_equal. lia. }
    assert (Ht : 0 < 2 ^ (Zneg p + 400)) by (apply pow2_pos; lia).
    rewrite E.
    pose proof (Z.div_mod (Zpos m) (2 ^ Zpos p)) as Hdm.
    pose proof (Z.mod_pos_bound (Zpos m) (2 ^ Zpos p) H2p) as Hr.
    set (z := Zpos m / 2 ^ Zpos p) in *.
    set (t := 2 ^ (Zneg p + 400)) in *. set (w := 2 ^ Zpos p) in *.
    split.
    + replace (z * (w * t)) with (w * z * t) by ring.
      apply Z.mul_le_mono_nonneg_r; lia.
    + replace ((z + 1) * (w * t)) with ((w * z + w) * t) by ring.
      apply Z.mul_lt_mono_pos_r; lia.
Qed.

Lemma trunc_le_mono a b x1 x2 :
  Encl a b x1 -> Encl a b x2 -> leb x1 x2 = true ->
  exists z1 z2, trunc x1 = Some z1 /\ trunc x2 = Some z2 /\ z1 <= z2.
Proof.
  intros H1 H2 Hle.
  destruct (Encl_leb _ _ _ _ H1 H2)
    as (m1 & e1 & m2 & e2 & -> & -> & Hv1 & Hv2 & _ & _ & Hiff).
  apply Hiff in Hle.
  destruct (valid_bounds _ _ _ Hv1) as (He1 & _).
  destruct (valid_bounds _ _ _ Hv2) as (He2 & _).
  destruct (trunc_floor m1 e1) as (z1 & E1 & Hz1); [lia |].
  destruct (trunc_floor m2 e2) as (z2 & E2 & Hz2); [lia |].
  exists z1, z2. split; [exact E1 |]. split; [exact E2 |].
  assert (H400 : 0 < 2 ^ 400) by (apply pow2_pos; lia).
  assert (z1 * 2 ^ 400 < (z2 + 1) * 2 ^ 400) by lia.
  assert (z1 < z2 + 1) by (apply Z.mul_lt_mono_pos_r with (2 ^ 400); lia).
  lia.
Qed.

End F32Nearest.

(** ** The gain code and the exact quotient *)

Module SpinnerGain.
Import F32 F32Facts F32Order F32OrderFacts F32Nearest Spinner SpinnerFacts.

(** The smallest positive float lies below every positive canonical one. *)
Lemma raw_min_le m e :
  valid (S754_finite false m e) = true -> raw 1 (-149) <= raw (Zpos m) e.
Proof.
  intros Hv. destruct (valid_bounds _ _ _ Hv) as (He & _ & _).
  apply Z.le_trans with (raw 1 e); [apply raw_exp_mono; lia |].
  apply raw_le; lia.
Qed.

(** A quotient does not exceed a canonical float that the exact
    quotient does not exceed; it may underflow to zero. *)
Lemma div_le mx ex my ey kb eb :
  valid (S754_finite false mx ex) = true ->
  valid (S754_finite false my ey) = true ->
  valid (S754_finite false kb eb) = true ->
  -149 <= ex - ey ->
  raw (Zpos mx) ex * 2 ^ 400 <= raw (Zpos kb) eb * raw (Zpos my) ey ->
  div (S754_finite false mx ex) (S754_finite false my ey) = S754_zero false
  \/ exists m3 e3,
       div (S754_finite false mx ex) (S754_finite false my ey)
       = S754_finite false m3 e3
       /\ valid (S754_finite false m3 e3) = true
       /\ raw (Zpos m3) e3 <= raw (Zpos kb) eb.
Proof.
  intros Hvx Hvy Hvb Hexy Hhi. unfold div. cbn [SFdiv xorb].
  destruct (valid_bounds _ _ _ Hvx) as (Hex & Hmx & Hnx).
  destruct (valid_bounds _ _ _ Hvy) as (Hey & Hmy & Hny).
  destruct (valid_bounds _ _ _ Hvb) as (Heb & Hkb & Hnb).
  destruct (valid_finite_inv _ _ _ Hvx) as [Hcx _].
  destruct (valid_finite_inv _ _ _ Hvy) as [Hcy _].
  rewrite fexp32_eq in Hcx, Hcy.
  destruct (SFdiv_core_char mx ex my ey) as [Ec Hs]. rewrite Ec. clear Ec.
  pose proof (Zdigits2_pos (Zpos mx) (Pos2Z.is_pos mx)) as Hdx.
  pose proof (Zdigits2_pos (Zpos my) (Pos2Z.is_pos my)) as Hdy.
  rewrite fexp32_eq in Hs |- *.
  set (dx := Zdigits2 (Zpos mx)) in *. set (dy := Zdigits2 (Zpos my)) in *.
  set (e' := Z.min (Z.max (dx + ex - (dy + ey) - 24) (-149)) (ex - ey)) in *.
  set (s := ex - ey - e') in *.
  assert (He' : -149 <= e') by (unfold e'; lia).
  assert (H2s : 0 < 2 ^ s) by (apply pow2_pos; lia).
  set (q := Zpos mx * 2 ^ s / Zpos my).
  set (r := (Zpos mx * 2 ^ s) mod Zpos my).
  assert (Eqr : Zpos mx * 2 ^ s = Zpos my * q + r) by (apply Z.div_mod; lia).
  assert (Hr : 0 <= r < Zpos my) by (apply Z.mod_pos_bound; lia).
  assert (Hq0 : 0 <= q) by (apply Z.div_pos; lia).
  (* above the subnormal range the quotient has at least 24 digits *)
  assert (Hnq : -149 < e' -> 2 ^ 23 <= q).
  { intros Hgt. assert (Es : s = 24 - dx + dy) by (unfold s, e' in *; lia).
    assert (H1 : 2 ^ (dx - 1) <= Zpos mx)
      by (apply Zdigits2_le_pow2; unfold dx; lia).
    assert (H2 : Zpos my < 2 ^ dy)
      by (apply Zdigits2_lt_pow2; unfold dy; lia).
    apply Z.div_le_lower_bound; [lia |].
    assert (H3 : 2 ^ (23 + dy) <= Zpos mx * 2 ^ s).
    { replace (23 + dy) with ((dx - 1) + s) by lia.
      rewrite Z.pow_add_r by lia. nia. }
    rewrite Z.pow_add_r in H3 by lia.
    assert (0 < 2 ^ 23) by reflexivity.
    assert (Zpos my * 2 ^ 23 <= 2 ^ dy * 2 ^ 23) by nia. lia. }
  destruct (Z.eq_dec q 0) as [Eq0 | Hqnz].
  - (* the quotient lies below the smallest subnormal *)
    assert (Ee' : e' = -149).
    { destruct (Z_le_gt_dec e' (-149)) as [Hle | Hgt]; [lia |].
      assert (Hq23 : 2 ^ 23 <= q) by (apply Hnq; lia).
      change (2 ^ 23) with 8388608 in Hq23. lia. }
    fold q. fold r. rewrite Eq0, Ee'.
    destruct (binary_round_aux_zero_emin false (new_location (Zpos my) r))
      as [-> | ->]; [left; reflexivity | right].
    exists 1%positive, (-149). split; [reflexivity |].
    split; [reflexivity |]. apply raw_min_le. exact Hvb.
  - right. assert (Hq : 0 < q) by lia.
    set (T := 2 ^ (e' + 400)). set (U := 2 ^ (ey + 400)).
    assert (HT : 0 < T) by (apply pow2_pos; lia).
    assert (HU : 0 < U) by (apply pow2_pos; lia).
    assert (HTU : 0 < T * U) by nia.
    assert (Ex : raw (Zpos mx) ex * 2 ^ 400 = Zpos mx * 2 ^ s * (T * U)).
    { unfold raw, T, U. rewrite <- !Z.mul_assoc. f_equal.
      rewrite <- !Z.pow_add_r by lia. f_equal. unfold s. lia. }
    assert (Ey : raw (Zpos my) ey = Zpos my * U) by reflexivity.
    destruct (binary_round_aux_between false q e'
                (new_location (Zpos my) r) 1 (-149) kb eb)
      as (m3 & e3 & E3 & Hv3 & _ & Hle3); try assumption; try lia.
    + rewrite fexp32_eq.
      destruct (Z_le_gt_dec e' (-149)) as [Hsub | Hn]; [lia |].
      assert (23 < Zdigits2 q)
        by (apply Zdigits2_le_pow2; [lia | apply Hnq; lia]).
      lia.
    + reflexivity.
    + apply Z.le_trans with (raw 1 e'); [apply raw_exp_mono; lia |].
      apply raw_le; lia.
    + destruct (Z_le_gt_dec e' eb) as [Hle | Hgt].
      * rewrite (raw_up _ e' eb) by lia.
        rewrite (raw_up _ e' eb), Ex, Ey in Hhi by lia.
        unfold raw in Hhi. fold T in Hhi.
        replace (Zpos kb * 2 ^ (eb - e') * T * (Zpos my * U))
          with (Zpos kb * 2 ^ (eb - e') * Zpos my * (T * U)) in Hhi by ring.
        apply Z.mul_le_mono_pos_r in Hhi; [| exact HTU].
        set (K := Zpos kb * 2 ^ (eb - e')) in *.
        destruct (Z_lt_le_dec q K) as [Hlt | Hge].
        -- left. apply raw_lt; lia.
        -- right. assert (Eq : q = K) by nia.
           split; [rewrite Eq; reflexivity |].
           assert (E0 : r = 0) by nia.
           rewrite E0. apply new_location_exact.
      * exfalso.
        assert (raw (Zpos kb) eb < raw q e')
          by (apply raw_exponent_lt; try lia; apply Hnq; lia).
        assert (Hqx : raw q e' * raw (Zpos my) ey
                      <= raw (Zpos mx) ex * 2 ^ 400).
        { rewrite Ex, Ey. unfold raw. fold T.
          replace (q * T * (Zpos my * U)) with (Zpos my * q * (T * U)) by ring.
          apply Z.mul_le_mono_pos_r; lia. }
        pose proof (raw_pos (Zpos my) ey). nia.
    + exists m3, e3. fold q r. auto.
Qed.

(** *** The gain code against the exact quotient *)

Lemma gain_spec_finite m e :
  e <= 0 ->
  gain_spec (S754_finite false m e)
  = Some (clampZ 0 (STEPPER_AMP_RES - 1)
            ((STEPPER_AMP_RES - 1) * Zpos m / (75 * 2 ^ (- e)))).
Proof.
  intros He. unfold gain_spec.
  change MAX_SINE_FREQ with (S754_finite false 9830400 (-17)).
  unfold fraction. cbn [cond_Zopp].
  rewrite (Z.max_l 0 e), (Z.max_r 0 (- e)) by lia.
  change (Z.max 0 (-17)) with 0. change (Z.max 0 (- -17)) with 17.
  change (2 ^ 0) with 1. change (2 ^ 17) with 131072.
  do 2 f_equal.
  assert (H : 0 < 2 ^ (- e)) by (apply pow2_pos; lia).
  replace ((STEPPER_AMP_RES - 1) * (Zpos m * 1) * 131072)
    with ((STEPPER_AMP_RES - 1) * Zpos m * 131072) by ring.
  replace (2 ^ (- e) * (9830400 * 1)) with (75 * 2 ^ (- e) * 131072) by ring.
  apply Z.div_mul_cancel_r; lia.
Qed.

(** The code that the cast yields is the floor [n] of the exact quotient
    or the next integer, and the next integer only when the quotient
    computed in single precision is that integer. *)
Lemma gain_floor m e n :
  valid (S754_finite false m e) = true ->
  0 <= n <= 1000 ->
  75 * n * 2 ^ 400 <= 63 * raw (Zpos m) e < 75 * (n + 1) * 2 ^ 400 ->
  exists g,
    trunc (gain_quotient (S754_finite false m e)) = Some g
    /\ n <= g <= n + 1
    /\ (g = n + 1 -> gain_quotient (S754_finite false m e) = of_Z (n + 1)).
Proof.
  intros Hv Hn [Hlo Hhi]. unfold gain_quotient.
  change (of_Z (STEPPER_AMP_RES - 1)) with (S754_finite false 16515072 (-18)).
  change MAX_SINE_FREQ with (S754_finite false 9830400 (-17)).
  assert (E63 : raw 16515072 (-18) = 63 * 2 ^ 400) by closed.
  assert (E75 : raw 9830400 (-17) = 75 * 2 ^ 400) by closed.
  assert (H400 : 0 < 2 ^ 400) by (apply pow2_pos; lia).
  destruct (valid_bounds _ _ _ Hv) as (He & _).
  assert (Hf : 0 < raw (Zpos m) e) by (apply raw_pos; lia).
  destruct (of_Z_exact (75 * (n + 1))) as (kb & eb & Ekb & Hvb & Rb); [lia |].
  destruct (of_Z_exact (n + 1)) as (kd & ed & Ekd & Hvd & Rd); [lia |].
  set (F := raw (Zpos m) e) in *. set (W := 2 ^ 400) in *.
  assert (Hmul : exists ka ea,
             valid (S754_finite false ka ea) = true
             /\ raw (Zpos ka) ea * W <= 63 * W * F
             /\ (1 <= n -> raw (Zpos ka) ea = 75 * n * W)).
  { destruct (Z_le_gt_dec 1 n) as [H1 | H0].
    - destruct (of_Z_exact (75 * n)) as (ka & ea & _ & Hva & Ra); [lia |].
      exists ka, ea. fold W in Ra. split; [exact Hva |]. split; [| auto].
      rewrite Ra. nia.
    - exists m, e. split; [exact Hv |]. fold F. split; [nia | lia]. }
  destruct Hmul as (ka & ea & Hva & Hka & Hkan).
  destruct (mul_between false 16515072 (-18) false m e ka ea kb eb)
    as (mp & ep & Ep & Hvp & Hp); [reflexivity | exact Hv | exact Hva | exact Hvb | | |].
  { rewrite E63. fold F W. exact Hka. }
  { rewrite E63, Rb. fold F W. nia. }
  rewrite Ep. cbn [xorb] in *. destruct Hp as [Hplo Hphi].
  rewrite Rb in Hphi. fold W in Hphi, Rd.
  destruct (valid_bounds _ _ _ Hvp) as (Hep & _).
  set (P := raw (Zpos mp) ep) in *.
  destruct (Z_le_gt_dec 1 n) as [H1 | H0].
  - (* the exact quotient is at least 1 *)
    destruct (of_Z_exact n) as (kc & ec & _ & Hvc & Rc); [lia |].
    fold W in Rc. rewrite (Hkan H1) in Hplo.
    destruct (div_between false mp ep false 9830400 (-17) kc ec kd ed)
      as (mq & eq & Eq & Hvq & Hq);
      [exact Hvp | reflexivity | exact Hvc | exact Hvd | | |].
    { rewrite Rc, E75. fold P W. nia. }
    { rewrite Rd, E75. fold P W. nia. }
    rewrite Eq. cbn [xorb] in *. rewrite Rc, Rd in Hq.
    destruct (valid_bounds _ _ _ Hvq) as (Heq & _).
    destruct (trunc_floor mq eq) as (z & Ez & Hz); [lia |].
    fold W in Hz. exists z. split; [exact Ez |].
    split; [nia |]. intros Egz. rewrite Ekd.
    apply raw_inj; [exact Hvq | exact Hvd |]. rewrite Rd. nia.
  - (* the exact quotient is below 1 *)
    assert (En : n = 0) by lia. subst n. cbn [Z.add] in *.
    destruct (div_le mp ep 9830400 (-17) kd ed)
      as [Eq | (mq & eq & Eq & Hvq & Hq)];
      [exact Hvp | reflexivity | exact Hvd | lia | | |].
    { rewrite Rd, E75. fold P W. nia. }
    + rewrite Eq. exists 0. split; [reflexivity |]. split; lia.
    + rewrite Eq. rewrite Rd in Hq.
      destruct (valid_bounds _ _ _ Hvq) as (Heq & _).
      destruct (trunc_floor mq eq) as (z & Ez & Hz); [lia |].
      fold W in Hz.
      assert (Hqpos : 0 < raw (Zpos mq) eq) by (apply raw_pos; lia).
      exists z. split; [exact Ez |].
      split; [nia |]. intros Egz. rewrite Ekd.
      apply raw_inj; [exact Hvq | exact Hvd |]. rewrite Rd. nia.
Qed.

(** C7, as the code has it: for every canonical frequency between 0 and
    [MAX_SINE_FREQ], [setGain] writes a defined code [g] of
    [[0, STEPPER_AMP_RES - 1]]; with [n] the exact
    [floor ((STEPPER_AMP_RES - 1) * f / MAX_SINE_FREQ)] clamped to that
    range (the clamp changes nothing there), [g] is [n] or [n + 1], and
    it is [n + 1] only when the quotient evaluated in single precision is
    exactly that integer. *)
Theorem C7_gain_is_floor_or_next (f : float) :
  valid f = true ->
  leb (of_Z 0) f = true -> leb f MAX_SINE_FREQ = true ->
  exists g n,
    gain f = Some g
    /\ setGain f = [WireBeginTransmission STEPPER_AMP_ADDRESS;
                    WireWrite (Some g); WireEndTransmission]
    /\ gain_spec f = Some n
    /\ 0 <= n <= STEPPER_AMP_RES - 1
    /\ 0 <= g <= STEPPER_AMP_RES - 1
    /\ (g = n \/ g = n + 1)
    /\ (g = n + 1 -> gain_quotient f = of_Z (n + 1)).
Proof.
  intros Hv Hlo Hhi.
  destruct (gain_quotient_bound f Hv Hlo Hhi) as (g & Eg & Hg).
  assert (Egain : gain f = Some g).
  { unfold gain, to_int8. rewrite Eg.
    replace ((-128 <=? g) && (g <=? 127)) with true; [reflexivity |].
    symmetry. apply andb_true_intro. split; apply Z.leb_le; lia. }
  exists g.
  destruct (leb_MAX_inv f Hv Hlo Hhi)
    as [[s ->] | (m & e & -> & He & Hm & _)].
  - (* zero *)
    exists 0. assert (g = 0) by (destruct s; vm_compute in Eg; congruence).
    subst g. unfold setGain. rewrite Egain.
    do 2 (split; [reflexivity |]).
    split; [destruct s; reflexivity |].
    unfold STEPPER_AMP_RES. repeat split; lia.
  - set (D := 75 * 2 ^ (- e)).
    set (n := (STEPPER_AMP_RES - 1) * Zpos m / D).
    assert (H2e : 0 < 2 ^ (- e)) by (apply pow2_pos; lia).
    assert (HD : 0 < D) by (unfold D; lia).
    assert (H400 : 0 < 2 ^ 400) by (apply pow2_pos; lia).
    assert (Ht : 0 < 2 ^ (e + 400)) by (apply pow2_pos; lia).
    assert (E400 : 2 ^ 400 = 2 ^ (- e) * 2 ^ (e + 400)).
    { rewrite <- Z.pow_add_r by lia. f_equal. lia. }
    (* the frequency does not exceed the maximum *)
    assert (Hmax : Zpos m <= D).
    { change MAX_SINE_FREQ with (S754_finite false 9830400 (-17)) in Hhi.
      apply leb_pos in Hhi; [| exact Hv | reflexivity].
      replace (raw 9830400 (-17)) with (75 * 2 ^ 400) in Hhi by closed.
      unfold raw in Hhi. rewrite E400 in Hhi.
      replace (75 * (2 ^ (- e) * 2 ^ (e + 400))) with (D * 2 ^ (e + 400)) in Hhi
        by (unfold D; ring).
      apply Z.mul_le_mono_pos_r in Hhi; assumption. }
    assert (Hn1 : D * n <= (STEPPER_AMP_RES - 1) * Zpos m)
      by (apply Z.mul_div_le; exact HD).
    assert (Hn2 : (STEPPER_AMP_RES - 1) * Zpos m < D * Z.succ n)
      by (apply Z.mul_succ_div_gt; exact HD).
    assert (Hn0 : 0 <= n) by (apply Z.div_pos; unfold STEPPER_AMP_RES; lia).
    assert (Hn63 : n <= STEPPER_AMP_RES - 1).
    { apply Z.div_le_upper_bound; [exact HD |].
      unfold STEPPER_AMP_RES in *. nia. }
    unfold STEPPER_AMP_RES in Hn1, Hn2, Hn63. cbn [Z.sub Z.add Z.pos_sub Z.opp
      Pos.pred_double] in Hn1, Hn2, Hn63.
    destruct (gain_floor m e n Hv) as (g' & Eg' & Hg' & Hnext); [lia | |].
    { unfold raw. rewrite E400.
      set (t := 2 ^ (e + 400)) in *. set (u := 2 ^ (- e)) in *.
      unfold D in Hn1, Hn2. fold u in Hn1, Hn2.
      split.
      - replace (75 * n * (u * t)) with (75 * u * n * t) by ring.
        replace (63 * (Zpos m * t)) with (63 * Zpos m * t) by ring.
        apply Z.mul_le_mono_nonneg_r; lia.
      - replace (75 * (n + 1) * (u * t)) with (75 * u * Z.succ n * t)
          by (unfold Z.succ; ring).
        replace (63 * (Zpos m * t)) with (63 * Zpos m * t) by ring.
        apply Z.mul_lt_mono_pos_r; lia. }
    rewrite Eg in Eg'. injection Eg' as <-.
    exists n. unfold setGain. rewrite Egain.
    rewrite gain_spec_finite by lia. fold D. fold n.
    replace (clampZ 0 (STEPPER_AMP_RES - 1) n) with n
      by (unfold clampZ, STEPPER_AMP_RES; lia).
    do 3 (split; [reflexivity |]).
    split; [unfold STEPPER_AMP_RES; lia |].
    split; [unfold STEPPER_AMP_RES; lia |].
    split; [lia | exact Hnext].
Qed.

(** C7 at 50 Hz, where the code is the exact quotient 42. *)
Lemma C7_witness :
  exists g n,
    gain (of_Z 50) = Some g
    /\ setGain (of_Z 50) = [WireBeginTransmission STEPPER_AMP_ADDRESS;
                            WireWrite (Some g); WireEndTransmission]
    /\ gain_spec (of_Z 50) = Some n
    /\ 0 <= n <= STEPPER_AMP_RES - 1
    /\ 0 <= g <= STEPPER_AMP_RES - 1
    /\ (g = n \/ g = n + 1)
    /\ (g = n + 1 -> gain_quotient (of_Z 50) = of_Z (n + 1)).
Proof.
  apply (C7_gain_is_floor_or_next (of_Z 50)); reflexivity.
Defined.

(** In the admissible range the code can exceed the exact floor: at
    13.0952377 Hz the product rounds up to 825, the quotient is exactly
    11 and the code is 11, where the exact quotient lies just below 11. *)
Lemma gain_exceeds_floor_in_range :
  let f := S754_finite false 13731352 (-20) in
  valid f = true /\ in_range f = true
  /\ gain f = Some 11 /\ gain_spec f = Some 10
  /\ gain_quotient f = of_Z 11.
Proof. vm_compute. repeat split. Qed.

End SpinnerGain.

(** ** Bounds on what the spinner sketch emits *)

Module SpinnerBounds.
Import F32 F32Facts F32Order F32OrderFacts Spinner SpinnerFacts SpinnerRun.

Lemma in_range_Encl f :
  valid f = true -> in_range f = true -> Encl MIN_SINE_FREQ MAX_SINE_FREQ f.
Proof.
  intros Hv Hr. split; [reflexivity |]. split; [reflexivity |].
  split; [exact Hv | exact Hr].
Qed.

Lemma Encl_bounds a b x :
  Encl a b x -> valid x = true /\ leb a x = true /\ leb x b = true.
Proof.
  intros (_ & _ & Hv & Hb). unfold between in Hb. apply andb_prop in Hb.
  destruct Hb. auto.
Qed.

Lemma period_Encl f :
  valid f = true -> in_range f = true ->
  Encl (lit 2222 100) (lit 16667 100) (getInterruptMicroseconds f).
Proof.
  intros Hv Hr. unfold getInterruptMicroseconds.
  apply div_Encl with (a1 := of_Z 1000000) (b1 := of_Z 1000000)
                      (a2 := of_Z 6000) (b2 := of_Z 45000); try closed.
  - apply Encl_self. closed.
  - apply mul_Encl with (a1 := MIN_SINE_FREQ) (b1 := MAX_SINE_FREQ)
                        (a2 := of_Z SAMPLES_PER_CYCLE)
                        (b2 := of_Z SAMPLES_PER_CYCLE); try closed.
    + apply in_range_Encl; assumption.
    + apply Encl_self. closed.
Qed.

Lemma gain_quotient_Encl f :
  valid f = true -> in_range f = true ->
  Encl (lit 84 10) (of_Z 63) (gain_quotient f).
Proof.
  intros Hv Hr. unfold gain_quotient.
  apply div_Encl with (a1 := of_Z 630) (b1 := of_Z 4725)
                      (a2 := MAX_SINE_FREQ) (b2 := MAX_SINE_FREQ); try closed.
  - apply mul_Encl with (a1 := of_Z (STEPPER_AMP_RES - 1))
                        (b1 := of_Z (STEPPER_AMP_RES - 1))
                        (a2 := MIN_SINE_FREQ) (b2 := MAX_SINE_FREQ); try closed.
    + apply Encl_self. closed.
    + apply in_range_Encl; assumption.
  - apply Encl_self. closed.
Qed.

Lemma platterRPM_Encl f :
  valid f = true -> in_range f = true ->
  Encl (lit 681 100) (lit 5108 100) (platterRPM f).
Proof.
  intros Hv Hr. unfold platterRPM.
  apply div_Encl with (a1 := of_Z 50) (b1 := of_Z 375)
                      (a2 := GEAR_RATIO) (b2 := GEAR_RATIO); try closed.
  - apply div_Encl with (a1 := of_Z 18000) (b1 := of_Z 135000)
                        (a2 := of_Z 360) (b2 := of_Z 360); try closed.
    + apply mul_Encl with (a1 := of_Z 1800) (b1 := of_Z 1800)
                          (a2 := MIN_SINE_FREQ) (b2 := MAX_SINE_FREQ);
        try closed.
      * apply (Encl_self (of_Z 1800)). closed.
      * apply in_range_Encl; assumption.
    + apply Encl_self. closed.
  - apply Encl_self. closed.
Qed.

(** *** What a run emits *)

Lemma setup_events_cascade toggle e :
  In e (snd (setup toggle)) ->
  In e (cascade (sineFrequency (fst (setup toggle)))).
Proof.
  unfold setup, cascade. cbn [fst snd sineFrequency]. intros H.
  apply in_app_or in H. destruct H as [H | H];
    [apply in_or_app; left; exact H |].
  apply in_or_app. right.
  apply in_app_or in H. destruct H as [H | H].
  - destruct H as [<- | []]. apply in_or_app. left.
    unfold oledDisplayRPM. left. reflexivity.
  - apply in_app_or in H. destruct H as [H | H];
      apply in_or_app; [left; exact H | right].
    destruct H as [<- | []]. right. left. reflexivity.
Qed.

(** Every event of a run belongs to the cascade of a canonical frequency
    of the admissible range. *)
Lemma run_events_cascade toggle steps e :
  In e (run_events toggle steps) ->
  exists f, valid f = true /\ in_range f = true /\ In e (cascade f).
Proof.
  induction steps as [| [d i] steps IH]; cbn [run_events]; intros H.
  - destruct (setup_Inv toggle) as [_ _ Hv Hr _].
    exists (sineFrequency (fst (setup toggle))).
    split; [exact Hv |]. split; [exact Hr |].
    apply setup_events_cascade. exact H.
  - apply in_app_or in H. destruct H as [H | H]; [apply IH; exact H |].
    pose proof (loop_Inv i _ (turn_Inv d _ (run_Inv toggle steps)))
      as [_ _ Hv Hr _].
    destruct (loop_events i (turn d (run toggle steps))) as [E | E];
      rewrite E in H; [destruct H |].
    eauto.
Qed.

Lemma cascade_TimerBegin f us :
  In (TimerBegin us) (cascade f) -> us = getInterruptMicroseconds f.
Proof.
  unfold cascade, setGain, oledDisplayRPM. cbn [app In]. intros H.
  repeat (destruct H as [H | H]; [try discriminate |]);
    try (inversion H; reflexivity); destruct H.
Qed.

Lemma cascade_WireWrite f b :
  In (WireWrite b) (cascade f) -> b = gain f.
Proof.
  unfold cascade, setGain, oledDisplayRPM. cbn [app In]. intros H.
  repeat (destruct H as [H | H]; [try discriminate |]);
    try (inversion H; reflexivity); destruct H.
Qed.

Lemma cascade_OledPrintlnRPM f r :
  In (OledPrintlnRPM r) (cascade f) -> r = platterRPM f.
Proof.
  unfold cascade, setGain, oledDisplayRPM. cbn [app In]. intros H.
  repeat (destruct H as [H | H]; [try discriminate |]);
    try (inversion H; reflexivity); destruct H.
Qed.

(** X8: every period ever handed to the timer, by [setup] or by an
    iteration of [loop], is a canonical float between 22.22 and 166.67
    microseconds: the sample rate stays between 6 kHz and 45 kHz. *)
Theorem timer_period_bounds
  (toggle : level) (steps : list (Z * pins)) (us : float) :
  In (TimerBegin us) (run_events toggle steps) ->
  valid us = true
  /\ leb (lit 2222 100) us = true /\ leb us (lit 16667 100) = true.
Proof.
  intros H. destruct (run_events_cascade _ _ _ H) as (f & Hv & Hr & Hin).
  rewrite (cascade_TimerBegin _ _ Hin).
  apply Encl_bounds, period_Encl; assumption.
Qed.

(** X8 for the period that [setup] hands to the timer with the toggle LOW. *)
Lemma timer_period_bounds_witness :
  valid (interruptMicroseconds (fst (setup LOW))) = true
  /\ leb (lit 2222 100) (interruptMicroseconds (fst (setup LOW))) = true
  /\ leb (interruptMicroseconds (fst (setup LOW))) (lit 16667 100) = true.
Proof.
  apply (timer_period_bounds LOW []).
  unfold run_events, setup, setGain, oledDisplayRPM. cbn [snd app In].
  do 8 right. left. reflexivity.
Defined.

(** X9: every gain code ever written to the amplifier is defined and
    lies between 8 and 63. *)
Theorem gain_writes_bounds
  (toggle : level) (steps : list (Z * pins)) (b : option Z) :
  In (WireWrite b) (run_events toggle steps) ->
  exists g, b = Some g /\ 8 <= g <= STEPPER_AMP_RES - 1.
Proof.
  intros H. destruct (run_events_cascade _ _ _ H) as (f & Hv & Hr & Hin).
  rewrite (cascade_WireWrite _ _ Hin).
  destruct (trunc_Encl _ _ _ 8 63 (gain_quotient_Encl f Hv Hr))
    as (g & Eg & Hg); try closed.
  exists g. unfold gain, to_int8. rewrite Eg.
  replace ((-128 <=? g) && (g <=? 127)) with true
    by (symmetry; apply andb_true_intro; split; apply Z.leb_le; lia).
  split; [reflexivity | unfold STEPPER_AMP_RES; lia].
Qed.

(** X9 for the gain code that [setup] writes with the toggle LOW. *)
Lemma gain_writes_bounds_witness :
  exists g, gain (sineFrequency (fst (setup LOW))) = Some g
            /\ 8 <= g <= STEPPER_AMP_RES - 1.
Proof.
  apply (gain_writes_bounds LOW []).
  unfold run_events, setup, setGain, oledDisplayRPM. cbn [snd app In].
  right. left. reflexivity.
Defined.

(** X10: every value ever shown on the display is a canonical float
    between 6.81 and 51.08 rpm. *)
Theorem displayed_rpm_bounds
  (toggle : level) (steps : list (Z * pins)) (r : float) :
  In (OledPrintlnRPM r) (run_events toggle steps) ->
  valid r = true
  /\ leb (lit 681 100) r = true /\ leb r (lit 5108 100) = true.
Proof.
  intros H. destruct (run_events_cascade _ _ _ H) as (f & Hv & Hr & Hin).
  rewrite (cascade_OledPrintlnRPM _ _ Hin).
  apply Encl_bounds, platterRPM_Encl; assumption.
Qed.

(** X10 for the speed that [setup] shows with the toggle LOW. *)
Lemma displayed_rpm_bounds_witness :
  valid (platterRPM (sineFrequency (fst (setup LOW)))) = true
  /\ leb (lit 681 100) (platterRPM (sineFrequency (fst (setup LOW)))) = true
  /\ leb (platterRPM (sineFrequency (fst (setup LOW)))) (lit 5108 100) = true.
Proof.
  apply (displayed_rpm_bounds LOW []).
  unfold run_events, setup, setGain, oledDisplayRPM. cbn [snd app In].
  do 6 right. left. reflexivity.
Defined.

End SpinnerBounds.

(** ** Gain, period and display follow the frequency *)

Module SpinnerMonotone.
Import F32 F32Facts F32Order F32OrderFacts F32Nearest Spinner SpinnerFacts.
Import SpinnerBounds.

(** X18: the gain code grows with the frequency: for two canonical
    frequencies of the admissible range, the lower one gets the lower
    (or the same) code, both codes being defined and between 8 and 63. *)
Theorem gain_monotone (f1 f2 : float) :
  valid f1 = true -> in_range f1 = true ->
  valid f2 = true -> in_range f2 = true ->
  leb f1 f2 = true ->
  exists g1 g2,
    gain f1 = Some g1 /\ gain f2 = Some g2
    /\ 8 <= g1 /\ g1 <= g2 /\ g2 <= STEPPER_AMP_RES - 1.
Proof.
  intros Hv1 Hr1 Hv2 Hr2 Hle.
  pose proof (in_range_Encl f1 Hv1 Hr1) as H1.
  pose proof (in_range_Encl f2 Hv2 Hr2) as H2.
  destruct (mul_l_le_mono _ _ (of_Z 630) (of_Z 4725) f1 f2
              (of_Z (STEPPER_AMP_RES - 1)) H1 H2)
    as (P1 & P2 & Hp);
    [closed | closed | closed | closed | closed | exact Hle |].
  destruct (div_num_le_mono _ _ (lit 84 10) (of_Z 63) _ _ MAX_SINE_FREQ P1 P2)
    as (Q1 & Q2 & Hq);
    [closed | closed | closed | closed | closed | exact Hp |].
  fold (gain_quotient f1) in Q1, Hq. fold (gain_quotient f2) in Q2, Hq.
  destruct (trunc_le_mono _ _ _ _ Q1 Q2 Hq) as (g1 & g2 & E1 & E2 & Hg).
  destruct (trunc_Encl _ _ _ 8 63 Q1) as (g1' & E1' & Hg1);
    [closed | closed | closed |].
  destruct (trunc_Encl _ _ _ 8 63 Q2) as (g2' & E2' & Hg2);
    [closed | closed | closed |].
  rewrite E1 in E1'. injection E1' as <-.
  rewrite E2 in E2'. injection E2' as <-.
  exists g1, g2. unfold gain, to_int8. rewrite E1, E2.
  replace ((-128 <=? g1) && (g1 <=? 127)) with true
    by (symmetry; apply andb_true_intro; split; apply Z.leb_le; lia).
  replace ((-128 <=? g2) && (g2 <=? 127)) with true
    by (symmetry; apply andb_true_intro; split; apply Z.leb_le; lia).
  unfold STEPPER_AMP_RES. repeat split; lia.
Qed.

(** X18 at 33 Hz and 45 Hz. *)
Lemma gain_monotone_witness :
  exists g1 g2,
    gain (of_Z 33) = Some g1 /\ gain (of_Z 45) = Some g2
    /\ 8 <= g1 /\ g1 <= g2 /\ g2 <= STEPPER_AMP_RES - 1.
Proof.
  apply (gain_monotone (of_Z 33) (of_Z 45)); reflexivity.
Defined.

(** X19: the sample period shrinks as the frequency grows: for two
    canonical frequencies of the admissible range, the higher one gets
    the shorter (or the same) period. *)
Theorem period_antitone (f1 f2 : float) :
  valid f1 = true -> in_range f1 = true ->
  valid f2 = true -> in_range f2 = true ->
  leb f1 f2 = true ->
  leb (getInterruptMicroseconds f2) (getInterruptMicroseconds f1) = true.
Proof.
  intros Hv1 Hr1 Hv2 Hr2 Hle.
  pose proof (in_range_Encl f1 Hv1 Hr1) as H1.
  pose proof (in_range_Encl f2 Hv2 Hr2) as H2.
  destruct (mul_le_mono _ _ (of_Z 6000) (of_Z 45000) f1 f2
              (of_Z SAMPLES_PER_CYCLE) H1 H2)
    as (P1 & P2 & Hp);
    [closed | closed | closed | closed | closed | exact Hle |].
  destruct (div_den_le_mono _ _ (lit 2222 100) (lit 16667 100) _ _
              (of_Z 1000000) P1 P2)
    as (_ & _ & Hq);
    [closed | closed | closed | closed | closed | exact Hp |].
  exact Hq.
Qed.

(** X19 at 33 Hz and 45 Hz. *)
Lemma period_antitone_witness :
  leb (getInterruptMicroseconds (of_Z 45))
      (getInterruptMicroseconds (of_Z 33)) = true.
Proof.
  apply (period_antitone (of_Z 33) (of_Z 45)); reflexivity.
Defined.

(** X20: the speed shown on the display grows with the frequency. *)
Theorem displayed_rpm_monotone (f1 f2 : float) :
  valid f1 = true -> in_range f1 = true ->
  valid f2 = true -> in_range f2 = true ->
  leb f1 f2 = true ->
  leb (platterRPM f1) (platterRPM f2) = true.
Proof.
  intros Hv1 Hr1 Hv2 Hr2 Hle.
  pose proof (in_range_Encl f1 Hv1 Hr1) as H1.
  pose proof (in_range_Encl f2 Hv2 Hr2) as H2.
  unfold platterRPM.
  change (mul (mul (of_Z 4) (of_Z 60)) STEP_ANGLE) with (of_Z 1800).
  destruct (mul_l_le_mono _ _ (of_Z 18000) (of_Z 135000) f1 f2
              (of_Z 1800) H1 H2)
    as (P1 & P2 & Hp);
    [closed | closed | closed | closed | closed | exact Hle |].
  destruct (div_num_le_mono _ _ (of_Z 50) (of_Z 375) _ _ (of_Z 360) P1 P2)
    as (Q1 & Q2 & Hq);
    [closed | closed | closed | closed | closed | exact Hp |].
  destruct (div_num_le_mono _ _ (lit 681 100) (lit 5108 100) _ _ GEAR_RATIO
              Q1 Q2)
    as (_ & _ & Hr);
    [closed | closed | closed | closed | closed | exact Hq |].
  exact Hr.
Qed.

(** X20 at 33 Hz and 45 Hz. *)
Lemma displayed_rpm_monotone_witness :
  leb (platterRPM (of_Z 33)) (platterRPM (of_Z 45)) = true.
Proof.
  apply (displayed_rpm_monotone (of_Z 33) (of_Z 45)); reflexivity.
Defined.

End SpinnerMonotone.

(** ** The control loop of the spinner sketch *)

Module SpinnerControl.
Import F32 F32Facts F32Order F32OrderFacts Spinner SpinnerFacts SpinnerRun.
Import SpinnerBounds.

(** *** The clamp *)

(** X7: the clamp is idempotent, and its result lies in
    [[MIN_SINE_FREQ, MAX_SINE_FREQ]] exactly when its argument is not NaN
    (both comparisons fail on NaN, which passes through unchanged; the
    infinities are brought to the nearer bound). *)
Theorem clamp_idempotent_in_range (x : float) :
  clamp (clamp x) = clamp x
  /\ in_range (clamp x) = negb (is_nan x)
  /\ is_nan (clamp x) = is_nan x.
Proof.
  unfold clamp, gtb.
  destruct (ltb x MIN_SINE_FREQ) eqn:E1.
  { assert (Hn : is_nan x = false) by (destruct x; [reflexivity .. | discriminate | reflexivity]).
    rewrite Hn. repeat split. }
  destruct (SFltb MAX_SINE_FREQ x) eqn:E2.
  { assert (Hn : is_nan x = false) by (destruct x; [reflexivity .. | discriminate | reflexivity]).
    rewrite Hn. repeat split. }
  rewrite E1, E2. split; [reflexivity |]. split; [| reflexivity].
  destruct (is_nan x) eqn:Hn.
  - destruct x; try discriminate. reflexivity.
  - unfold in_range.
    rewrite (not_ltb_leb x MIN_SINE_FREQ Hn eq_refl E1).
    rewrite (not_ltb_leb MAX_SINE_FREQ x eq_refl Hn E2). reflexivity.
Qed.


(** *** The presets *)

Lemma loop_frame i s :
  freqLeft (fst (loop i s)) = freqLeft s
  /\ freqRight (fst (loop i s)) = freqRight s.
Proof.
  unfold loop. destruct (toggle_edge i s); [split; reflexivity |].
  destruct (neqb _ _); split; reflexivity.
Qed.

Lemma run_frame toggle steps :
  freqLeft (run toggle steps) = getSineFrequency (mul RPM_TOGGLE_LEFT GEAR_RATIO)
  /\ freqRight (run toggle steps)
     = getSineFrequency (mul RPM_TOGGLE_RIGHT GEAR_RATIO).
Proof.
  induction steps as [| [d i] steps IH]; cbn [run].
  - split; reflexivity.
  - destruct (loop_frame i (turn d (run toggle steps))) as [-> ->].
    exact IH.
Qed.

(** Floats of the admissible range that compare equal are the same
    float. *)
Lemma neqb_false_eq x y :
  valid x = true -> in_range x = true ->
  valid y = true -> in_range y = true ->
  neqb x y = false -> x = y.
Proof.
  intros Hvx Hrx Hvy Hry H.
  destruct (Encl_inv _ _ _ (in_range_Encl x Hvx Hrx))
    as (mx & ex & -> & Hx & _).
  destruct (Encl_inv _ _ _ (in_range_Encl y Hvy Hry))
    as (my & ey & -> & Hy & _).
  unfold neqb, SFeqb in H. rewrite (SFcompare_pos _ _ _ _ Hx Hy) in H.
  destruct (Z.compare_spec (raw (Zpos mx) ex) (raw (Zpos my) ey)) as [E | |];
    try discriminate.
  apply raw_inj; assumption.
Qed.

(** X11: in preset mode, an iteration that is not a press of the switch
    leaves the frequency at the preset the toggle selects (the one
    computed by [setup], which the clamp does not alter), with the period
    derived from it; the position of the knob is kept, not consumed. *)
Theorem preset_mode_follows_toggle
  (toggle : level) (steps : list (Z * pins)) (d : Z) (i : pins) :
  let s := turn d (run toggle steps) in
  let f := if level_eqb (freqToggle i) LOW
           then getSineFrequency (mul RPM_TOGGLE_LEFT GEAR_RATIO)
           else getSineFrequency (mul RPM_TOGGLE_RIGHT GEAR_RATIO) in
  useEncoder s = 0 -> toggle_edge i s = false ->
  sineFrequency (fst (loop i s)) = f
  /\ interruptMicroseconds (fst (loop i s)) = getInterruptMicroseconds f
  /\ encoder (fst (loop i s)) = encoder s.
Proof.
  cbn zeta. intros Hu He.
  pose proof (turn_Inv d _ (run_Inv toggle steps)) as HI.
  destruct (run_frame toggle steps) as [Hl Hr].
  set (s := turn d (run toggle steps)) in *.
  set (f := if level_eqb (freqToggle i) LOW then _ else _).
  assert (Ec : candidate i s = f).
  { unfold candidate, preset. rewrite Hu. cbn [Z.eqb].
    change (freqLeft s) with (freqLeft (run toggle steps)).
    change (freqRight s) with (freqRight (run toggle steps)).
    rewrite Hl, Hr. reflexivity. }
  assert (Hf : valid f = true /\ in_range f = true)
    by (unfold f; destruct (level_eqb _ _); split; vm_compute; reflexivity).
  destruct Hf as [Hfv Hfr].
  destruct HI as [_ _ Hv Hrg Hp].
  unfold loop. rewrite He, Ec, (clamp_id f Hfr), Hu. cbn [Z.eqb].
  destruct (neqb f (sineFrequency s)) eqn:En; cbn [fst sineFrequency
    interruptMicroseconds encoder]; [auto |].
  rewrite Hp. rewrite (neqb_false_eq _ _ Hfv Hfr Hv Hrg En). auto.
Qed.

(** X11 at start-up with the toggle HIGH: the toggle is then read LOW, the
    knob turned by 12 counts and the switch released. *)
Lemma preset_mode_follows_toggle_witness :
  sineFrequency (fst (loop idle (turn 12 (run HIGH []))))
  = getSineFrequency (mul RPM_TOGGLE_LEFT GEAR_RATIO)
  /\ interruptMicroseconds (fst (loop idle (turn 12 (run HIGH []))))
     = getInterruptMicroseconds
         (getSineFrequency (mul RPM_TOGGLE_LEFT GEAR_RATIO))
  /\ encoder (fst (loop idle (turn 12 (run HIGH [])))) = 12.
Proof.
  apply (preset_mode_follows_toggle HIGH [] 12 idle); reflexivity.
Defined.

(** *** The encoder switch *)

Lemma loop_pressed i s :
  encoderHasBeenPressed s = true ->
  useEncoder (fst (loop i s)) = useEncoder s
  /\ encoderHasBeenPressed (fst (loop i s))
     = negb (level_eqb (encSwitch2 i) HIGH).
Proof.
  intros Hp. unfold loop, toggle_edge. rewrite Hp. cbn [negb andb].
  destruct (neqb _ _); cbn [fst useEncoder encoderHasBeenPressed];
    destruct (level_eqb (encSwitch2 i) HIGH); auto.
Qed.

Lemma loop_edge i s :
  encoderHasBeenPressed s = false -> encSwitch1 i = LOW ->
  useEncoder (fst (loop i s)) = lnot (useEncoder s)
  /\ encoderHasBeenPressed (fst (loop i s)) = true.
Proof.
  intros Hp Hl. unfold loop, toggle_edge. rewrite Hp, Hl.
  cbn [negb andb level_eqb fst useEncoder encoderHasBeenPressed]. auto.
Qed.

(** X12: however long the encoder switch is held down, and however the
    knob is turned meanwhile, the mode is toggled exactly once: after
    any positive number of iterations that all read the switch LOW,
    starting with the debounce flag clear, [useEncoder] is the negation
    of what it was and the flag is set. *)
Theorem switch_held_toggles_once (s : state) (steps : list (Z * pins)) :
  encoderHasBeenPressed s = false ->
  steps <> [] ->
  forallb (fun st => held (snd st)) steps = true ->
  useEncoder (run_from s steps) = lnot (useEncoder s)
  /\ encoderHasBeenPressed (run_from s steps) = true.
Proof.
  intros Hp. induction steps as [| [d i] steps IH]; [congruence |].
  intros _ Hall. cbn [forallb snd] in Hall. apply andb_prop in Hall.
  destruct Hall as [Hi Hall]. unfold held in Hi. apply andb_prop in Hi.
  destruct Hi as [H1 H2]. cbn [run_from].
  destruct steps as [| st steps].
  - cbn [run_from].
    assert (Hl : encSwitch1 i = LOW)
      by (destruct (encSwitch1 i); [reflexivity | discriminate]).
    exact (loop_edge i (turn d s) Hp Hl).
  - destruct IH as [IHu IHp]; [discriminate | exact Hall |].
    set (s1 := run_from s (st :: steps)) in *.
    destruct (loop_pressed i (turn d s1)) as [Eu Ep]; [exact IHp |].
    rewrite Eu, Ep. split; [exact IHu |].
    destruct (encSwitch2 i); [reflexivity | discriminate].
Qed.

(** X12 for three iterations with the switch held down while the knob
    moves. *)
Lemma switch_held_toggles_once_witness :
  useEncoder (run_from (fst (setup LOW)) [(3, press); (-8, press); (0, press)])
  = 1
  /\ encoderHasBeenPressed
       (run_from (fst (setup LOW)) [(3, press); (-8, press); (0, press)])
     = true.
Proof.
  apply (switch_held_toggles_once (fst (setup LOW))
           [(3, press); (-8, press); (0, press)]);
    [reflexivity | discriminate | reflexivity].
Defined.

Lemma loop_useEncoder_bool i s :
  useEncoder s = 0 \/ useEncoder s = 1 ->
  useEncoder (fst (loop i s)) = 0 \/ useEncoder (fst (loop i s)) = 1.
Proof.
  intros H. unfold loop. destruct (toggle_edge i s).
  - cbn [fst useEncoder]. unfold lnot. destruct (useEncoder s =? 0); auto.
  - destruct (neqb _ _); exact H.
Qed.

Lemma run_useEncoder_bool toggle steps :
  useEncoder (run toggle steps) = 0 \/ useEncoder (run toggle steps) = 1.
Proof.
  induction steps as [| [d i] steps IH]; cbn [run].
  - left. reflexivity.
  - apply loop_useEncoder_bool. exact IH.
Qed.

(** X13: the mode flag only ever holds 0 or 1, and from every reachable
    state with the debounce flag clear, a press of the switch, an
    iteration that reads it released and a second press bring the loop
    back to the mode it was in, however the knob is turned meanwhile. *)
Theorem press_release_press_restores_mode
  (toggle : level) (steps : list (Z * pins))
  (d1 d2 d3 : Z) (i1 i2 i3 : pins) :
  let s := run toggle steps in
  encoderHasBeenPressed s = false ->
  encSwitch1 i1 = LOW -> encSwitch2 i2 = HIGH -> encSwitch1 i3 = LOW ->
  (useEncoder s = 0 \/ useEncoder s = 1)
  /\ useEncoder (run toggle ((d3, i3) :: (d2, i2) :: (d1, i1) :: steps))
     = useEncoder s.
Proof.
  cbn zeta. intros Hp H1 H2 H3.
  split; [apply run_useEncoder_bool |].
  cbn [run]. set (s := run toggle steps) in *.
  destruct (loop_edge i1 (turn d1 s) Hp H1) as [Eu1 Ep1].
  set (s1 := fst (loop i1 (turn d1 s))) in *.
  destruct (loop_pressed i2 (turn d2 s1) Ep1) as [Eu2 Ep2].
  set (s2 := fst (loop i2 (turn d2 s1))) in *.
  rewrite H2 in Ep2. cbn [level_eqb negb] in Ep2.
  destruct (loop_edge i3 (turn d3 s2) Ep2 H3) as [Eu3 _].
  rewrite Eu3.
  change (useEncoder (turn d3 s2)) with (useEncoder s2). rewrite Eu2.
  change (useEncoder (turn d2 s1)) with (useEncoder s1). rewrite Eu1.
  change (useEncoder (turn d1 s)) with (useEncoder s).
  destruct (run_useEncoder_bool toggle steps) as [E | E]; fold s in E;
    rewrite E; reflexivity.
Qed.

(** X13 at start-up. *)
Lemma press_release_press_restores_mode_witness :
  (useEncoder (run LOW []) = 0 \/ useEncoder (run LOW []) = 1)
  /\ useEncoder (run LOW [(5, press); (0, idle); (0, press)])
     = useEncoder (run LOW []).
Proof.
  apply (press_release_press_restores_mode LOW [] 0 0 5 press idle press);
    reflexivity.
Defined.

(** *** Saturation *)

Lemma int32_range z : - 2 ^ 31 <= int32 z < 2 ^ 31.
Proof.
  unfold int32.
  pose proof (Z.mod_pos_bound (z + 2 ^ 31) (2 ^ 32) eq_refl).
  change (2 ^ 32) with (2 * 2 ^ 31) in *. lia.
Qed.

Lemma clamp_high b c :
  Encl MAX_SINE_FREQ b c -> clamp c = MAX_SINE_FREQ.
Proof.
  intros H. destruct (Encl_inv _ _ _ H) as (m & e & -> & Hv & _ & [Hlo _]).
  change MAX_SINE_FREQ with (S754_finite false 9830400 (-17)) in *.
  cbn [mag] in Hlo.
  assert (Hmm : raw (Zpos 10485760) (-20) < raw (Zpos 9830400) (-17)) by closed.
  unfold clamp, gtb.
  change MIN_SINE_FREQ with (S754_finite false 10485760 (-20)).
  change MAX_SINE_FREQ with (S754_finite false 9830400 (-17)).
  destruct (ltb (S754_finite false m e) _) eqn:E1.
  { apply ltb_pos in E1; [lia | exact Hv | reflexivity]. }
  fold (ltb (S754_finite false 9830400 (-17)) (S754_finite false m e)).
  destruct (ltb (S754_finite false 9830400 (-17)) _) eqn:E2; [reflexivity |].
  apply raw_inj; [exact Hv | reflexivity |].
  destruct (Z_lt_le_dec (raw (Zpos 9830400) (-17)) (raw (Zpos m) e)) as [L | G];
    [| lia].
  apply ltb_pos in L; [congruence | reflexivity | exact Hv].
Qed.

Lemma clamp_low r :
  valid r = true ->
  (exists s, r = S754_zero s) \/ r = S754_infinity true
  \/ (exists m e, r = S754_finite true m e)
  \/ (exists m e,
        r = S754_finite false m e /\ raw (Zpos m) e <= mag MIN_SINE_FREQ) ->
  clamp r = MIN_SINE_FREQ.
Proof.
  intros Hv [[s ->] | [-> | [(m & e & ->) | (m & e & -> & Hle)]]];
    try reflexivity.
  unfold clamp.
  change MIN_SINE_FREQ with (S754_finite false 10485760 (-20)) in *.
  cbn [mag] in Hle.
  destruct (ltb (S754_finite false m e) _) eqn:E1; [reflexivity |].
  assert (E : S754_finite false m e = S754_finite false 10485760 (-20)).
  { apply raw_inj; [exact Hv | reflexivity |].
    destruct (Z_lt_le_dec (raw (Zpos m) e) (raw (Zpos 10485760) (-20)))
      as [L | G]; [| lia].
    apply ltb_pos in L; [congruence | exact Hv | reflexivity]. }
  rewrite E. reflexivity.
Qed.

Lemma loop_encoder_mode i s f :
  Inv s -> useEncoder s <> 0 -> toggle_edge i s = false ->
  valid f = true -> in_range f = true ->
  clamp (add (sineFrequency s) (div (of_Z (encoder s)) (of_Z 4))) = f ->
  sineFrequency (fst (loop i s)) = f /\ encoder (fst (loop i s)) = 0.
Proof.
  intros [_ _ Hv Hrg _] Hu He Hfv Hfr Hc. unfold loop, candidate.
  rewrite He. apply Z.eqb_neq in Hu. rewrite Hu, Hc.
  destruct (neqb f (sineFrequency s)) eqn:En;
    cbn [fst sineFrequency encoder]; [auto |].
  split; [| reflexivity]. symmetry.
  apply neqb_false_eq; assumption.
Qed.

(** X14: in incremental mode, once the knob has been turned up by at
    least 260 counts (65 Hz, the width of the admissible range), the
    iteration leaves the frequency exactly at [MAX_SINE_FREQ] and the
    encoder position at 0, whatever the frequency was. *)
Theorem knob_far_up_saturates
  (toggle : level) (steps : list (Z * pins)) (d : Z) (i : pins) :
  let s := turn d (run toggle steps) in
  useEncoder s <> 0 -> toggle_edge i s = false -> 260 <= encoder s ->
  sineFrequency (fst (loop i s)) = MAX_SINE_FREQ
  /\ encoder (fst (loop i s)) = 0.
Proof.
  cbn zeta. intros Hu He Hk.
  pose proof (turn_Inv d _ (run_Inv toggle steps)) as HI.
  set (s := turn d (run toggle steps)) in *.
  apply loop_encoder_mode; try assumption; try reflexivity.
  destruct HI as [_ _ Hv Hrg _].
  assert (Hhi : encoder s < 2 ^ 31) by apply int32_range.
  apply (clamp_high (of_Z (2 ^ 30))).
  apply add_Encl with (a1 := MIN_SINE_FREQ) (b1 := MAX_SINE_FREQ)
                      (a2 := of_Z 65) (b2 := of_Z (2 ^ 29)); try closed.
  - apply in_range_Encl; assumption.
  - apply div_Encl with (a1 := of_Z 260) (b1 := of_Z (2 ^ 31))
                        (a2 := of_Z 4) (b2 := of_Z 4); try closed.
    + apply of_Z_Encl with (lo := 260) (hi := 2 ^ 31); try closed.
      lia.
    + apply Encl_self. closed.
Qed.

(** X14 after a press of the switch at start-up and 300 counts upward. *)
Lemma knob_far_up_saturates_witness :
  sineFrequency (fst (loop idle (turn 300 (run LOW [(0, press)]))))
  = MAX_SINE_FREQ
  /\ encoder (fst (loop idle (turn 300 (run LOW [(0, press)])))) = 0.
Proof.
  apply (knob_far_up_saturates LOW [(0, press)] 300 idle);
    [discriminate | reflexivity | discriminate].
Defined.

(** X15: in incremental mode, once the knob has been turned down by at
    least 260 counts, the iteration leaves the frequency exactly at
    [MIN_SINE_FREQ] and the encoder position at 0. *)
Theorem knob_far_down_saturates
  (toggle : level) (steps : list (Z * pins)) (d : Z) (i : pins) :
  let s := turn d (run toggle steps) in
  useEncoder s <> 0 -> toggle_edge i s = false -> encoder s <= -260 ->
  sineFrequency (fst (loop i s)) = MIN_SINE_FREQ
  /\ encoder (fst (loop i s)) = 0.
Proof.
  cbn zeta. intros Hu He Hk.
  pose proof (turn_Inv d _ (run_Inv toggle steps)) as HI.
  set (s := turn d (run toggle steps)) in *.
  apply loop_encoder_mode; try assumption; try reflexivity.
  destruct HI as [_ _ Hv Hrg _].
  assert (Hlo : - 2 ^ 31 <= encoder s) by apply int32_range.
  destruct (Encl_inv _ _ _ (in_range_Encl _ Hv Hrg))
    as (mf & ef & -> & Hvf & _ & [_ Hfhi]).
  change (mag MAX_SINE_FREQ) with (75 * 2 ^ 400) in Hfhi.
  assert (H400 : 0 < 2 ^ 400) by (apply pow2_pos; lia).
  destruct (of_Z_neg_between (encoder s) 8519680 (-15) 8388608 8)
    as (mk & ek & -> & Hvk & Hk1 & Hk2); try reflexivity; [lia | |].
  { change (raw (Zpos 8519680) (-15)) with (260 * 2 ^ 400).
    change (raw (Zpos 8388608) 8) with (2 ^ 31 * 2 ^ 400).
    split; apply Z.mul_le_mono_nonneg_r; lia. }
  change (raw (Zpos 8519680) (-15)) with (260 * 2 ^ 400) in Hk1.
  change (of_Z 4) with (S754_finite false 8388608 (-21)).
  destruct (div_between true mk ek false 8388608 (-21) 8519680 (-17) 8388608 8)
    as (mg & eg & -> & Hvg & Hg1 & _); try assumption; try reflexivity.
  { change (raw (Zpos 8519680) (-17) * raw (Zpos 8388608) (-21))
      with (260 * 2 ^ 400 * 2 ^ 400).
    apply Z.mul_le_mono_nonneg_r; lia. }
  { change (raw (Zpos 8388608) 8 * raw (Zpos 8388608) (-21))
      with (2 ^ 31 * 2 ^ 400 * (4 * 2 ^ 400)).
    change (raw (Zpos 8388608) 8) with (2 ^ 31 * 2 ^ 400) in Hk2.
    nia. }
  cbn [xorb] in *.
  change (raw (Zpos 8519680) (-17)) with (65 * 2 ^ 400) in Hg1.
  destruct (add_neg_le mf ef mg eg 10485760 (-20)) as [Hrv Hr];
    try assumption; try reflexivity.
  { change (raw (Zpos 10485760) (-20)) with (10 * 2 ^ 400). lia. }
  apply clamp_low; assumption.
Qed.

(** X15 after a press of the switch at start-up and 300 counts downward. *)
Lemma knob_far_down_saturates_witness :
  sineFrequency (fst (loop idle (turn (-300) (run LOW [(0, press)]))))
  = MIN_SINE_FREQ
  /\ encoder (fst (loop idle (turn (-300) (run LOW [(0, press)])))) = 0.
Proof.
  apply (knob_far_down_saturates LOW [(0, press)] (-300) idle);
    [discriminate | reflexivity | discriminate].
Defined.


(** *** The direction of the knob *)

Lemma loop_encoder_freq i s :
  useEncoder s <> 0 -> toggle_edge i s = false ->
  let nf := clamp (add (sineFrequency s) (div (of_Z (encoder s)) (of_Z 4))) in
  sineFrequency (fst (loop i s))
  = if neqb nf (sineFrequency s) then nf else sineFrequency s.
Proof.
  intros Hu He. cbn zeta. unfold loop, candidate. rewrite He.
  apply Z.eqb_neq in Hu. rewrite Hu.
  destruct (neqb _ _); reflexivity.
Qed.

Lemma leb_refl_pos m e :
  valid (S754_finite false m e) = true ->
  leb (S754_finite false m e) (S754_finite false m e) = true.
Proof. intros H. apply leb_pos; [exact H | exact H | lia]. Qed.

(** The clamp of a float that is not below a frequency of the range is
    not below it either; likewise from above. *)
Lemma clamp_ge mf ef mc ec :
  valid (S754_finite false mf ef) = true ->
  in_range (S754_finite false mf ef) = true ->
  valid (S754_finite false mc ec) = true ->
  raw (Zpos mf) ef <= raw (Zpos mc) ec ->
  leb (S754_finite false mf ef) (clamp (S754_finite false mc ec)) = true.
Proof.
  intros Hvf Hrf Hvc Hle.
  pose proof Hrf as Hr. unfold in_range in Hr. apply andb_prop in Hr.
  destruct Hr as [Hlo Hhi].
  unfold clamp, gtb.
  destruct (ltb (S754_finite false mc ec) MIN_SINE_FREQ) eqn:E1.
  { exfalso. change MIN_SINE_FREQ with (S754_finite false 10485760 (-20)) in *.
    apply (ltb_pos mc ec 10485760 (-20) Hvc eq_refl) in E1.
    apply (leb_pos 10485760 (-20) mf ef eq_refl Hvf) in Hlo. lia. }
  destruct (SFltb MAX_SINE_FREQ (S754_finite false mc ec)); [exact Hhi |].
  apply leb_pos; assumption.
Qed.

Lemma clamp_le mf ef r :
  valid (S754_finite false mf ef) = true ->
  in_range (S754_finite false mf ef) = true ->
  valid r = true ->
  (exists s, r = S754_zero s) \/ r = S754_infinity true
  \/ (exists m e, r = S754_finite true m e)
  \/ (exists m e,
        r = S754_finite false m e /\ raw (Zpos m) e <= raw (Zpos mf) ef) ->
  leb (clamp r) (S754_finite false mf ef) = true.
Proof.
  intros Hvf Hrf Hvr Hr.
  pose proof Hrf as Hr'. unfold in_range in Hr'. apply andb_prop in Hr'.
  destruct Hr' as [Hlo Hhi].
  destruct Hr as [[s ->] | [-> | [(m & e & ->) | (m & e & -> & Hle)]]];
    try exact Hlo.
  unfold clamp, gtb.
  destruct (ltb (S754_finite false m e) MIN_SINE_FREQ); [exact Hlo |].
  destruct (SFltb MAX_SINE_FREQ (S754_finite false m e)) eqn:E2.
  - exfalso. change MAX_SINE_FREQ with (S754_finite false 9830400 (-17)) in *.
    apply (ltb_pos 9830400 (-17) m e eq_refl Hvr) in E2.
    apply (leb_pos mf ef 9830400 (-17) Hvf eq_refl) in Hhi. lia.
  - apply leb_pos; assumption.
Qed.

(** X24: in incremental mode the frequency follows the direction of the
    knob: an iteration that reads a positive encoder position does not
    lower the frequency, one that reads a negative position does not
    raise it, and one that reads 0 leaves it as it is. *)
Theorem knob_direction
  (toggle : level) (steps : list (Z * pins)) (d : Z) (i : pins) :
  let s := turn d (run toggle steps) in
  let s' := fst (loop i s) in
  useEncoder s <> 0 -> toggle_edge i s = false ->
  (0 < encoder s -> leb (sineFrequency s) (sineFrequency s') = true)
  /\ (encoder s < 0 -> leb (sineFrequency s') (sineFrequency s) = true)
  /\ (encoder s = 0 -> sineFrequency s' = sineFrequency s).
Proof.
  cbn zeta. intros Hu He.
  pose proof (turn_Inv d _ (run_Inv toggle steps)) as HI.
  set (s := turn d (run toggle steps)) in *.
  rewrite (loop_encoder_freq i s Hu He).
  destruct HI as [_ _ Hv Hrg _].
  pose proof (int32_range (encoder (run toggle steps) + d)) as Hi32.
  change (int32 (encoder (run toggle steps) + d)) with (encoder s) in Hi32.
  destruct (Encl_inv _ _ _ (in_range_Encl _ Hv Hrg))
    as (mf & ef & Ef & Hvf & _ & [_ Hfhi]).
  rewrite Ef in *.
  change (mag MAX_SINE_FREQ) with (75 * 2 ^ 400) in Hfhi.
  destruct (valid_bounds _ _ _ Hvf) as (Hef & _).
  pose proof (raw_pos (Zpos mf) ef) as Hfpos.
  assert (H400 : 0 < 2 ^ 400) by (apply pow2_pos; lia).
  set (nf := clamp _).
  assert (Hres : forall P : float -> Prop,
             P nf -> P (S754_finite false mf ef) ->
             P (if neqb nf (S754_finite false mf ef) then nf
                else S754_finite false mf ef))
    by (intros P H1 H2; destruct (neqb _ _); assumption).
  split; [| split].
  - intros Hpos. apply Hres; [| apply leb_refl_pos; exact Hvf].
    unfold nf.
    assert (Hg : Encl (lit 1 4) (of_Z (2 ^ 29))
                   (div (of_Z (encoder s)) (of_Z 4))).
    { apply div_Encl with (a1 := of_Z 1) (b1 := of_Z (2 ^ 31))
                          (a2 := of_Z 4) (b2 := of_Z 4);
        [| apply Encl_self; closed | closed | closed | closed | closed].
      apply of_Z_Encl with (lo := 1) (hi := 2 ^ 31);
        [lia | lia | closed | closed | closed | closed]. }
    destruct (Encl_inv _ _ _ Hg) as (mg & eg & -> & Hvg & _ & [Hg1 Hg2]).
    change (mag (of_Z (2 ^ 29))) with (2 ^ 29 * 2 ^ 400) in Hg2.
    destruct (valid_bounds _ _ _ Hvg) as (Heg & _).
    pose proof (raw_pos (Zpos mg) eg) as Hgpos.
    destruct (add_between mf ef mg eg mf ef 8388608 7)
      as (mc & ec & -> & Hvc & Hc1 & _); try assumption; try reflexivity.
    + lia.
    + change (raw (Zpos 8388608) 7) with (2 ^ 30 * 2 ^ 400).
      change (2 ^ 30) with 1073741824. change (2 ^ 29) with 536870912 in Hg2.
      lia.
    + apply clamp_ge; assumption.
  - intros Hneg. apply Hres; [| apply leb_refl_pos; exact Hvf].
    unfold nf.
    destruct (of_Z_neg_between (encoder s) 8388608 (-23) 8388608 8)
      as (mk & ek & -> & Hvk & Hk1 & Hk2); try reflexivity; [lia | |].
    { change (raw (Zpos 8388608) (-23)) with (1 * 2 ^ 400).
      change (raw (Zpos 8388608) 8) with (2 ^ 31 * 2 ^ 400).
      split; apply Z.mul_le_mono_nonneg_r; lia. }
    change (raw (Zpos 8388608) (-23)) with (1 * 2 ^ 400) in Hk1.
    change (raw (Zpos 8388608) 8) with (2 ^ 31 * 2 ^ 400) in Hk2.
    change (of_Z 4) with (S754_finite false 8388608 (-21)).
    destruct (div_between true mk ek false 8388608 (-21) 8388608 (-25)
                8388608 8)
      as (mg & eg & -> & Hvg & Hg1 & _); try assumption; try reflexivity.
    { change (raw (Zpos 8388608) (-25) * raw (Zpos 8388608) (-21))
        with (1 * 2 ^ 400 * 2 ^ 400).
      apply Z.mul_le_mono_nonneg_r; lia. }
    { change (raw (Zpos 8388608) 8 * raw (Zpos 8388608) (-21))
        with (2 ^ 31 * 2 ^ 400 * (4 * 2 ^ 400)). nia. }
    cbn [xorb] in *.
    destruct (valid_bounds _ _ _ Hvg) as (Heg & _).
    pose proof (raw_pos (Zpos mg) eg) as Hgpos.
    destruct (add_neg_le mf ef mg eg mf ef) as [Hrv Hr];
      try assumption; [lia |].
    apply clamp_le; assumption.
  - intros E0. unfold nf. rewrite E0.
    change (div (of_Z 0) (of_Z 4)) with (S754_zero false).
    rewrite add_zero_r, (clamp_id _ Hrg).
    rewrite neqb_refl by reflexivity. reflexivity.
Qed.

(** X24 after a press of the switch at start-up and 8 counts upward. *)
Lemma knob_direction_witness :
  let s := turn 8 (run LOW [(0, press)]) in
  let s' := fst (loop idle s) in
  (0 < encoder s -> leb (sineFrequency s) (sineFrequency s') = true)
  /\ (encoder s < 0 -> leb (sineFrequency s') (sineFrequency s) = true)
  /\ (encoder s = 0 -> sineFrequency s' = sineFrequency s).
Proof.
  apply (knob_direction LOW [(0, press)] 8 idle);
    [discriminate | reflexivity].
Defined.

(** *** State and peripherals *)

Lemma loop_silent i s :
  snd (loop i s) = [] -> sineFrequency (fst (loop i s)) = sineFrequency s.
Proof.
  unfold loop. destruct (toggle_edge i s); [reflexivity |].
  destruct (neqb _ _); [discriminate | reflexivity].
Qed.

(** X21: at every moment the three peripherals hold what the state says:
    after [setup] and any number of iterations of [loop], the period last
    given to the timer is [interruptMicroseconds], the gain code last
    written is the one of [sineFrequency] and the speed last shown is the
    one derived from [sineFrequency]. *)
Theorem peripherals_in_sync (toggle : level) (steps : list (Z * pins)) :
  let s := run toggle steps in
  let evs := run_events toggle steps in
  last_TimerBegin evs = Some (interruptMicroseconds s)
  /\ last_WireWrite evs = Some (gain (sineFrequency s))
  /\ last_OledPrintlnRPM evs = Some (platterRPM (sineFrequency s)).
Proof.
  cbn zeta. unfold last_TimerBegin, last_WireWrite, last_OledPrintlnRPM.
  induction steps as [| [d i] steps IH]; cbn [run run_events].
  - repeat split.
  - rewrite !fold_left_app. destruct IH as (IH1 & IH2 & IH3).
    rewrite IH1, IH2, IH3.
    pose proof (loop_Inv i _ (turn_Inv d _ (run_Inv toggle steps)))
      as [_ _ _ _ Hp].
    pose proof (run_Inv toggle steps) as [_ _ _ _ Hp0].
    set (s := run toggle steps) in *.
    destruct (loop_events i (turn d s)) as [E | E]; rewrite E.
    + cbn [fold_left]. rewrite (loop_silent _ _ E) in Hp |- *.
      change (sineFrequency (turn d s)) with (sineFrequency s) in *.
      rewrite Hp, Hp0. repeat split.
    + unfold cascade, setGain, oledDisplayRPM. cbn [app fold_left].
      rewrite Hp. repeat split.
Qed.

End SpinnerControl.

(** ** The cycle of the sampler *)

Module SamplerCycle.
Import Sampler SamplerFacts.

Lemma advance_range w : 0 <= advance w <= SAMPLES_PER_CYCLE.
Proof.
  unfold advance, uint32, SAMPLES_PER_CYCLE.
  pose proof (Z.mod_pos_bound (w + 1) (2 ^ 32) eq_refl) as H.
  destruct (Z.gtb_spec ((w + 1) mod 2 ^ 32) 600); lia.
Qed.

Lemma sineTable_at_cycle tbl a :
  0 <= a <= SAMPLES_PER_CYCLE ->
  sineTable_at tbl a
  = if a =? SAMPLES_PER_CYCLE then None else Some (nth (Z.to_nat a) tbl 0).
Proof.
  unfold sineTable_at, SAMPLES_PER_CYCLE. intros H.
  destruct (Z.eqb_spec a 600) as [-> | N]; [reflexivity |].
  replace (0 <=? a) with true by (symmetry; apply Z.leb_le; lia).
  replace (a <? 600) with true by (symmetry; apply Z.ltb_lt; lia).
  reflexivity.
Qed.

Lemma sample_writes (tbl : list Z) (hi : Z) s p v :
  (forall i, 0 <= i < SAMPLES_PER_CYCLE ->
             0 <= nth (Z.to_nat i) tbl 0 <= hi) ->
  In (AnalogWrite p v) (snd (sample tbl s)) ->
  (exists c, v = Some c /\ 0 <= c <= hi)
  \/ (v = None
      /\ (waveIndexA (fst (sample tbl s)) = SAMPLES_PER_CYCLE
          \/ waveIndexB (fst (sample tbl s)) = SAMPLES_PER_CYCLE)).
Proof.
  intros Htbl Hin. unfold sample in *.
  cbn [fst snd waveIndexA waveIndexB] in *.
  pose proof (advance_range (waveIndexA s)) as HA.
  pose proof (advance_range (waveIndexB s)) as HB.
  rewrite !sineTable_at_cycle in Hin by assumption.
  set (a := advance (waveIndexA s)) in *.
  set (b := advance (waveIndexB s)) in *.
  destruct Hin as [Hin | [Hin | []]]; injection Hin as _ <-.
  - destruct (Z.eqb_spec a SAMPLES_PER_CYCLE) as [Ea | Na];
      [right; auto | left].
    eexists. split; [reflexivity |]. apply Htbl. lia.
  - destruct (Z.eqb_spec b SAMPLES_PER_CYCLE) as [Eb | Nb];
      [right; auto | left].
    eexists. split; [reflexivity |]. apply Htbl. lia.
Qed.

(** X1: whatever the two indices hold before (any 32-bit value, any
    table), one call of [sample] leaves both between 0 and
    [SAMPLES_PER_CYCLE] inclusive, and writes to each channel the table
    entry at its index, except at index [SAMPLES_PER_CYCLE] itself, where
    the read is past the end of the table. *)
Theorem sample_indices_within_cycle (tbl : list Z) (s : wave) :
  let s' := fst (sample tbl s) in
  0 <= waveIndexA s' <= SAMPLES_PER_CYCLE
  /\ 0 <= waveIndexB s' <= SAMPLES_PER_CYCLE
  /\ snd (sample tbl s)
     = [AnalogWrite DAC_PIN_A
          (if waveIndexA s' =? SAMPLES_PER_CYCLE then None
           else Some (nth (Z.to_nat (waveIndexA s')) tbl 0));
        AnalogWrite DAC_PIN_B
          (if waveIndexB s' =? SAMPLES_PER_CYCLE then None
           else Some (nth (Z.to_nat (waveIndexB s')) tbl 0))].
Proof.
  cbn zeta. unfold sample. cbn [fst snd waveIndexA waveIndexB].
  rewrite !sineTable_at_cycle by apply advance_range.
  pose proof (advance_range (waveIndexA s)).
  pose proof (advance_range (waveIndexB s)). auto.
Qed.

(** X2: from the initial state the sampler is periodic with period
    [SAMPLES_PER_CYCLE + 1] = 601 timer ticks and no less: two tick counts
    lead to the same pair of indices exactly when they are congruent
    modulo 601. *)
Theorem sampler_period_is_601 (tbl : list Z) (n m : nat) :
  ticks tbl n init = ticks tbl m init
  <-> Z.of_nat n mod (SAMPLES_PER_CYCLE + 1)
      = Z.of_nat m mod (SAMPLES_PER_CYCLE + 1).
Proof.
  rewrite !ticks_closed_form. split.
  - intros H. injection H as _ H. exact H.
  - intros H. f_equal; [| exact H].
    rewrite <- (Zplus_mod_idemp_r (Z.of_nat n)), H, Zplus_mod_idemp_r.
    reflexivity.
Qed.

(** X3: the quadrature relation between the two indices holds exactly on
    the ticks whose number is at most 450 modulo 601: on 451 ticks of
    every period of 601, and on none of the remaining 150. *)
Theorem quadrature_holds_on_first_451 (tbl : list Z) (n : nat) :
  quadrature (ticks tbl n init) = true
  <-> Z.of_nat n mod (SAMPLES_PER_CYCLE + 1) <= 450.
Proof.
  rewrite quadrature_ticks. apply Z.leb_le.
Qed.

End SamplerCycle.

(** ** The shape of the sine table *)

Module TableShape.
Import Table TableFacts Sampler.
Local Open Scope R_scope.

Lemma createSineTable_length err :
  length (createSineTable err) = Z.to_nat SAMPLES_PER_CYCLE.
Proof.
  unfold createSineTable. rewrite length_map, length_seq. reflexivity.
Qed.

Lemma entry_range err i :
  accurate err -> (0 <= i < SAMPLES_PER_CYCLE)%Z ->
  (0 <= nth (Z.to_nat i) (createSineTable err) 0 <= 4095)%Z.
Proof.
  intros H Hi. rewrite (createSineTable_at err i H Hi).
  pose proof (sineSample_bounds err i H) as [Hlo Hhi].
  destruct (Rtrunc_spec _ Hlo) as (H0 & H1 & H2 & H3).
  split; [exact H0 |].
  destruct (Rle_dec 0 (sineSample err i)) as [Hpos | Hneg].
  - assert (Hlt : (Rtrunc (sineSample err i) < 4096)%Z)
      by (apply lt_IZR; specialize (H2 Hpos); lra).
    lia.
  - rewrite H3 by lra. lia.
Qed.

(** X4: under every accurate evaluation the table has exactly
    [SAMPLES_PER_CYCLE] entries and each of them fits the resolution of
    the converter: it lies between 0 and [2 ^ DAC_RESOLUTION - 1]. *)
Theorem table_fits_dac (err : Z -> R) (i : Z) :
  accurate err -> (0 <= i < SAMPLES_PER_CYCLE)%Z ->
  length (createSineTable err) = Z.to_nat SAMPLES_PER_CYCLE
  /\ (0 <= nth (Z.to_nat i) (createSineTable err) 0
       <= 2 ^ DAC_RESOLUTION - 1)%Z.
Proof.
  intros H Hi. split; [apply createSineTable_length |].
  change (2 ^ DAC_RESOLUTION - 1)%Z with 4095%Z.
  apply entry_range; assumption.
Qed.

(** X4 at index 17 for the evaluation without rounding error. *)
Lemma table_fits_dac_witness :
  length (createSineTable exact) = Z.to_nat SAMPLES_PER_CYCLE
  /\ (0 <= nth (Z.to_nat 17) (createSineTable exact) 0
       <= 2 ^ DAC_RESOLUTION - 1)%Z.
Proof.
  apply (table_fits_dac exact 17).
  - intros i. unfold exact. lra.
  - unfold SAMPLES_PER_CYCLE. lia.
Defined.

Lemma angle_bounds i :
  (0 <= i <= SAMPLES_PER_CYCLE)%Z ->
  0 <= 2 * PI / IZR SAMPLES_PER_CYCLE * IZR i <= 2 * PI
  /\ ((i <= 300)%Z -> 2 * PI / IZR SAMPLES_PER_CYCLE * IZR i <= PI)
  /\ ((300 <= i)%Z -> PI <= 2 * PI / IZR SAMPLES_PER_CYCLE * IZR i).
Proof.
  unfold SAMPLES_PER_CYCLE. intros [H0 H1].
  pose proof PI_RGT_0 as Hpi.
  apply IZR_le in H0, H1.
  replace (2 * PI / 600 * IZR i) with (PI * (IZR i / 300)) by lra.
  split; [split |]; [| | split; intros H; apply IZR_le in H].
  - apply Rmult_le_pos; lra.
  - replace (2 * PI) with (PI * 2) by lra.
    apply Rmult_le_compat_l; lra.
  - rewrite <- (Rmult_1_r PI) at 2. apply Rmult_le_compat_l; lra.
  - rewrite <- (Rmult_1_r PI) at 1. apply Rmult_le_compat_l; lra.
Qed.

(** X5: under every accurate evaluation the first half of the table
    (indices 0 to 300) holds the upper half of the range, entries of at
    least 2047, and the second half (indices 300 to 599) the lower half,
    entries of at most 2047. *)
Theorem table_halves (err : Z -> R) (i : Z) :
  accurate err -> (0 <= i < SAMPLES_PER_CYCLE)%Z ->
  ((i <= 300)%Z -> (2047 <= nth (Z.to_nat i) (createSineTable err) 0)%Z)
  /\ ((300 <= i)%Z -> (nth (Z.to_nat i) (createSineTable err) 0 <= 2047)%Z).
Proof.
  intros H Hi. rewrite (createSineTable_at err i H Hi).
  pose proof (accurate_bounds err i H) as He.
  destruct (angle_bounds i) as ([Ha0 Ha1] & Hlo & Hhi); [lia |].
  pose proof (sineSample_bounds err i H) as [Hs0 _].
  destruct (Rtrunc_spec _ Hs0) as (H0 & H1 & H2 & H3).
  unfold sineSample, exactSample in *. rewrite dacBitRange_eq in *.
  set (x := 2 * PI / IZR SAMPLES_PER_CYCLE * IZR i) in *.
  split; intros Hh.
  - pose proof (sin_ge_0 x Ha0 (Hlo Hh)) as Hsin.
    assert (Hlt : (2046 < Rtrunc ((1 + sin x) * 4095 / 2 + err i))%Z)
      by (apply lt_IZR; lra).
    lia.
  - pose proof (sin_le_0 x (Hhi Hh) Ha1) as Hsin.
    destruct (Rle_dec 0 ((1 + sin x) * 4095 / 2 + err i)) as [Hp | Hn].
    + assert (Hlt : (Rtrunc ((1 + sin x) * 4095 / 2 + err i) < 2048)%Z)
        by (apply lt_IZR; specialize (H2 Hp); lra).
      lia.
    + rewrite H3 by lra. lia.
Qed.

(** X5 at index 100 for the evaluation without rounding error. *)
Lemma table_halves_witness :
  ((100 <= 300)%Z -> (2047 <= nth (Z.to_nat 100) (createSineTable exact) 0)%Z)
  /\ ((300 <= 100)%Z
      -> (nth (Z.to_nat 100) (createSineTable exact) 0 <= 2047)%Z).
Proof.
  apply (table_halves exact 100).
  - intros i. unfold exact. lra.
  - unfold SAMPLES_PER_CYCLE. lia.
Defined.

Lemma Rtrunc_close x y :
  - / 4 <= x -> - / 4 <= y -> x - y <= / 2 -> y - x <= / 2 ->
  (Z.abs (Rtrunc x - Rtrunc y) <= 1)%Z.
Proof.
  intros Hx Hy H1 H2.
  destruct (Rtrunc_spec x Hx) as (X0 & X1 & X2 & X3).
  destruct (Rtrunc_spec y Hy) as (Y0 & Y1 & Y2 & Y3).
  assert (Ha : (Rtrunc x - Rtrunc y < 2)%Z).
  { apply lt_IZR. rewrite minus_IZR.
    destruct (Rle_dec 0 x) as [Px | Nx].
    - specialize (X2 Px). lra.
    - rewrite X3 by lra. apply IZR_le in Y0. simpl. lra. }
  assert (Hb : (Rtrunc y - Rtrunc x < 2)%Z).
  { apply lt_IZR. rewrite minus_IZR.
    destruct (Rle_dec 0 y) as [Py | Ny].
    - specialize (Y2 Py). lra.
    - rewrite Y3 by lra. apply IZR_le in X0. simpl. lra. }
  lia.
Qed.

Lemma exactSample_about_quarter k :
  exactSample (150 - k) = exactSample (150 + k)
  /\ exactSample (450 - k) = exactSample (450 + k).
Proof.
  unfold exactSample, SAMPLES_PER_CYCLE.
  rewrite !minus_IZR, !plus_IZR.
  set (y := 2 * PI / 600 * IZR k).
  replace (2 * PI / 600 * (150 - IZR k)) with (PI / 2 - y) by (unfold y; lra).
  replace (2 * PI / 600 * (150 + IZR k)) with (PI / 2 + y) by (unfold y; lra).
  replace (2 * PI / 600 * (450 - IZR k)) with (3 * (PI / 2) - y)
    by (unfold y; lra).
  replace (2 * PI / 600 * (450 + IZR k)) with (3 * (PI / 2) + y)
    by (unfold y; lra).
  rewrite sin_shift, <- cos_sin, sin_minus, sin_plus, sin_3PI2, cos_3PI2.
  split; [reflexivity |]. f_equal. f_equal. lra.
Qed.

(** X22: under every accurate evaluation the table is symmetric about
    its peak and about its trough: the entries at the same distance on
    either side of index 150, and of index 450, differ by at most one
    quantization unit. *)
Theorem table_symmetric_about_quarters (err : Z -> R) (c k : Z) :
  accurate err -> c = 150%Z \/ c = 450%Z ->
  (0 <= k)%Z -> (0 <= c - k)%Z -> (c + k < SAMPLES_PER_CYCLE)%Z ->
  (Z.abs (nth (Z.to_nat (c - k)) (createSineTable err) 0
          - nth (Z.to_nat (c + k)) (createSineTable err) 0) <= 1)%Z.
Proof.
  intros H Hc Hk Hlo Hhi.
  rewrite !(createSineTable_at err _ H) by (unfold SAMPLES_PER_CYCLE in *; lia).
  pose proof (sineSample_bounds err (c - k) H) as [Ha _].
  pose proof (sineSample_bounds err (c + k) H) as [Hb _].
  pose proof (accurate_bounds err (c - k) H) as Ea.
  pose proof (accurate_bounds err (c + k) H) as Eb.
  destruct (exactSample_about_quarter k) as [E1 E2].
  apply Rtrunc_close; try assumption; unfold sineSample;
    destruct Hc as [-> | ->]; rewrite ?E1, ?E2; lra.
Qed.

(** X22 at 30 entries either side of the peak, for the evaluation without
    rounding error. *)
Lemma table_symmetric_about_quarters_witness :
  (Z.abs (nth (Z.to_nat (150 - 30)) (createSineTable exact) 0
          - nth (Z.to_nat (150 + 30)) (createSineTable exact) 0) <= 1)%Z.
Proof.
  apply (table_symmetric_about_quarters exact 150 30).
  - intros i. unfold exact. lra.
  - left. reflexivity.
  - lia.
  - lia.
  - unfold SAMPLES_PER_CYCLE. lia.
Defined.

(** X23: the entry a quarter of a cycle ahead is the cosine sample: under
    every accurate evaluation, [sineTable[i + 150]] is the midpoint
    [4095 / 2] scaled by [1 + cos] of the angle of index [i], cut to an
    integer (at most a quarter unit above, less than five quarters
    below). *)
Theorem quarter_ahead_is_cosine (err : Z -> R) (i : Z) :
  accurate err -> (0 <= i)%Z -> (i + 150 < SAMPLES_PER_CYCLE)%Z ->
  let c := (1 + cos (2 * PI / IZR SAMPLES_PER_CYCLE * IZR i))
           * dacBitRange / 2 in
  c - 5 / 4 < IZR (nth (Z.to_nat (i + 150)) (createSineTable err) 0%Z)
  /\ IZR (nth (Z.to_nat (i + 150)) (createSineTable err) 0%Z) <= c + / 4.
Proof.
  intros H Hi Hhi. cbn zeta.
  rewrite (createSineTable_at err _ H) by (unfold SAMPLES_PER_CYCLE in *; lia).
  pose proof (sineSample_bounds err (i + 150) H) as [Hs _].
  pose proof (accurate_bounds err (i + 150) H) as He.
  destruct (Rtrunc_spec _ Hs) as (T0 & T1 & T2 & T3).
  assert (E : exactSample (i + 150)
              = (1 + cos (2 * PI / IZR SAMPLES_PER_CYCLE * IZR i))
                * dacBitRange / 2).
  { unfold exactSample, SAMPLES_PER_CYCLE. rewrite plus_IZR.
    replace (2 * PI / 600 * (IZR i + 150))
      with (PI / 2 + 2 * PI / 600 * IZR i) by lra.
    rewrite <- cos_sin. reflexivity. }
  pose proof (exactSample_bounds (i + 150)) as Hb.
  unfold sineSample in *. rewrite E in *.
  set (c := (1 + cos (2 * PI / IZR SAMPLES_PER_CYCLE * IZR i))
            * dacBitRange / 2) in *.
  split; [lra |].
  destruct (Rle_dec 0 (c + err (i + 150)%Z)) as [P | N].
  - specialize (T2 P). lra.
  - rewrite T3 by lra. simpl. lra.
Qed.

(** X23 at index 0 for the evaluation without rounding error. *)
Lemma quarter_ahead_is_cosine_witness :
  (1 + cos (2 * PI / IZR SAMPLES_PER_CYCLE * IZR 0)) * dacBitRange / 2 - 5 / 4
  < IZR (nth (Z.to_nat (0 + 150)) (createSineTable exact) 0%Z)
  /\ IZR (nth (Z.to_nat (0 + 150)) (createSineTable exact) 0%Z)
     <= (1 + cos (2 * PI / IZR SAMPLES_PER_CYCLE * IZR 0)) * dacBitRange / 2
        + / 4.
Proof.
  apply (quarter_ahead_is_cosine exact 0).
  - intros i. unfold exact. lra.
  - lia.
  - unfold SAMPLES_PER_CYCLE. lia.
Defined.


(** X6: with the table of an accurate evaluation, every value that
    [sample] hands to a converter while its index is inside the table is
    a valid 12-bit code; the only other write is the read past the end,
    at index [SAMPLES_PER_CYCLE]. *)
Theorem dac_writes_fit (err : Z -> R) (s : wave) (p : dac_pin) (v : option Z) :
  accurate err ->
  In (AnalogWrite p v) (snd (sample (createSineTable err) s)) ->
  (exists c, v = Some c /\ (0 <= c <= 2 ^ DAC_RESOLUTION - 1)%Z)
  \/ (v = None
      /\ (waveIndexA (fst (sample (createSineTable err) s)) = SAMPLES_PER_CYCLE
          \/ waveIndexB (fst (sample (createSineTable err) s))
             = SAMPLES_PER_CYCLE)).
Proof.
  intros H Hin. change (2 ^ DAC_RESOLUTION - 1)%Z with 4095%Z.
  apply (SamplerCycle.sample_writes (createSineTable err) 4095 s p v);
    [| exact Hin].
  intros i Hi. apply entry_range; assumption.
Qed.

(** X6 for the first call of [sample] on channel A, with the table of the
    evaluation without rounding error. *)
Lemma dac_writes_fit_witness :
  (exists c, sineTable_at (createSineTable exact) 151 = Some c
             /\ (0 <= c <= 2 ^ DAC_RESOLUTION - 1)%Z)
  \/ (sineTable_at (createSineTable exact) 151 = None
      /\ (waveIndexA (fst (sample (createSineTable exact) init))
          = SAMPLES_PER_CYCLE
          \/ waveIndexB (fst (sample (createSineTable exact) init))
             = SAMPLES_PER_CYCLE)).
Proof.
  apply (dac_writes_fit exact init DAC_PIN_A).
  - intros i. unfold exact. lra.
  - left. reflexivity.
Defined.

End TableShape.

(** ** The range of the slider loop *)

Module TeensySineRange.
Import F32 F32Facts F32Order F32OrderFacts TeensySine TeensyRange.

Lemma normalised_reading v :
  1 <= v <= 8191 ->
  exists m e,
    div (of_Z v) (of_Z adcBitRange) = S754_finite false m e
    /\ valid (S754_finite false m e) = true
    /\ raw (Zpos m) e * 8192 = v * 2 ^ 400.
Proof.
  intros Hv.
  destruct (of_Z_exact v) as (mx & ex & -> & Hvx & Ex);
    [change (2 ^ 24) with 16777216; lia |].
  change (of_Z adcBitRange) with (S754_finite false 8388608 (-10)).
  assert (H400 : 0 < 2 ^ 400) by (apply pow2_pos; lia).
  destruct (div_8192_exact mx ex Hvx) as (m & e & -> & Hvm & Em);
    [rewrite Ex; nia |].
  exists m, e. rewrite Em, Ex. auto.
Qed.

(** X16: for every non-zero reading of the 13-bit converter, the
    argument that [loop] passes to [log10] is a canonical positive float,
    is exactly [vFreq / adcBitRange] (the conversion and the division
    commit no rounding error) and is strictly below 1; the call is the
    first thing the iteration does. *)
Theorem slider_reading_normalised_exactly
  (log10 : float -> float) (v : Z) (s : state) :
  1 <= v <= adcBitRange - 1 ->
  let x := div (of_Z v) (of_Z adcBitRange) in
  pos x = true
  /\ mag x * adcBitRange = v * 2 ^ 400
  /\ ltb x (of_Z 1) = true
  /\ exists rest, snd (loop log10 v s) = CallLog10 x :: rest.
Proof.
  intros Hv. cbn zeta.
  change (adcBitRange - 1) with 8191 in Hv.
  destruct (normalised_reading v Hv) as (m & e & E & Hvm & Em).
  assert (H400 : 0 < 2 ^ 400) by (apply pow2_pos; lia).
  repeat split.
  - rewrite E. exact Hvm.
  - rewrite E. exact Em.
  - rewrite E. change (of_Z 1) with (S754_finite false 8388608 (-23)).
    apply ltb_pos; [exact Hvm | reflexivity |].
    change (raw (Zpos 8388608) (-23)) with (1 * 2 ^ 400). nia.
  - unfold loop, useSlider.
    replace (v =? 0) with false by (symmetry; apply Z.eqb_neq; lia).
    eexists. reflexivity.
Qed.

(** X16 at mid-scale, the reading 4096. *)
Lemma slider_reading_normalised_exactly_witness :
  pos (div (of_Z 4096) (of_Z adcBitRange)) = true
  /\ mag (div (of_Z 4096) (of_Z adcBitRange)) * adcBitRange = 4096 * 2 ^ 400
  /\ ltb (div (of_Z 4096) (of_Z adcBitRange)) (of_Z 1) = true
  /\ exists rest,
       snd (loop (fun _ => of_Z (-1)) 4096 init)
       = CallLog10 (div (of_Z 4096) (of_Z adcBitRange)) :: rest.
Proof.
  apply (slider_reading_normalised_exactly (fun _ => of_Z (-1)) 4096 init).
  vm_compute. split; discriminate.
Defined.

Lemma SFcompare_neg m1 e1 m2 e2 :
  valid (S754_finite true m1 e1) = true ->
  valid (S754_finite true m2 e2) = true ->
  SFcompare (S754_finite true m1 e1) (S754_finite true m2 e2)
  = Some (raw (Zpos m2) e2 ?= raw (Zpos m1) e1).
Proof.
  intros H1 H2.
  rewrite <- (SFcompare_pos m2 e2 m1 e1 H2 H1).
  cbn [SFcompare]. f_equal.
  rewrite (Z.compare_antisym e1 e2).
  destruct (e1 ?= e2); cbn [CompOpp]; try reflexivity.
  apply (Pos.compare_cont_antisym m1 m2 Eq).
Qed.

Lemma log10_in_range_inv y :
  log10_in_range y = true ->
  (exists s, y = S754_zero s)
  \/ exists m e,
       y = S754_finite true m e /\ valid (S754_finite true m e) = true
       /\ raw (Zpos m) e <= 4 * 2 ^ 400.
Proof.
  unfold log10_in_range. intros H.
  apply andb_prop in H. destruct H as [H H3].
  apply andb_prop in H. destruct H as [H1 H2].
  destruct y as [s | s | | s m e]; try destruct s; try discriminate;
    [left; eauto .. | right].
  exists m, e. split; [reflexivity |]. split; [exact H1 |].
  change (of_Z (-4)) with (S754_finite true 8388608 (-21)) in H2.
  unfold leb, SFleb in H2. rewrite SFcompare_neg in H2; [| reflexivity | exact H1].
  change (raw (Zpos 8388608) (-21)) with (4 * 2 ^ 400) in H2.
  destruct (Z.compare_spec (raw (Zpos m) e) (4 * 2 ^ 400)); try discriminate; lia.
Qed.

(** [1.0 - log10(x)] for a logarithm between -4 and 0. *)
Lemma denominator_Encl y :
  log10_in_range y = true -> Encl (of_Z 1) (of_Z 5) (sub (of_Z 1) y).
Proof.
  intros H. destruct (log10_in_range_inv y H) as [[s ->] | (m & e & -> & Hv & Hm)].
  - change (sub (of_Z 1) (S754_zero s)) with (of_Z 1).
    apply Encl_weaken with (a := of_Z 1) (b := of_Z 1); try closed.
    apply Encl_self. closed.
  - change (of_Z 1) with (S754_finite false 8388608 (-23)) at 2.
    destruct (valid_bounds _ _ _ Hv) as (He & _).
    pose proof (raw_pos (Zpos m) e) as Hp.
    destruct (sub_neg_between 8388608 (-23) m e 8388608 (-23) 10485760 (-21))
      as (m3 & e3 & -> & Hv3 & Hb3); try assumption; try reflexivity.
    + change (raw (Zpos 8388608) (-23)) with (1 * 2 ^ 400). lia.
    + change (raw (Zpos 8388608) (-23)) with (1 * 2 ^ 400).
      change (raw (Zpos 10485760) (-21)) with (5 * 2 ^ 400). lia.
    + apply Encl_intro; try closed; assumption.
Qed.

Lemma sineFrequency_of_Encl rpm :
  Encl (of_Z 100) (of_Z 500) rpm ->
  Encl (lit 1999 100) (lit 10001 100) (sineFrequency_of rpm).
Proof.
  intros H. unfold sineFrequency_of.
  apply div_Encl with (a1 := lit 7999 100) (b1 := lit 40001 100)
                      (a2 := of_Z 4) (b2 := of_Z 4); try closed.
  - apply mul_Encl with (a1 := of_Z 48) (b1 := of_Z 48)
                        (a2 := lit 16666 10000) (b2 := lit 83334 10000);
      try closed.
    + apply (Encl_self (of_Z 48)). closed.
    + apply div_Encl with (a1 := of_Z 100) (b1 := of_Z 500)
                          (a2 := of_Z 60) (b2 := of_Z 60); try closed.
      * exact H.
      * apply Encl_self. closed.
  - apply Encl_self. closed.
Qed.

Lemma interruptMicroseconds_of_Encl f :
  Encl (lit 1999 100) (lit 10001 100) f ->
  Encl (lit 1666 100) (lit 8339 100) (interruptMicroseconds_of f).
Proof.
  intros H. unfold interruptMicroseconds_of.
  apply div_Encl with (a1 := of_Z 1000000) (b1 := of_Z 1000000)
                      (a2 := of_Z 11993) (b2 := of_Z 60007); try closed.
  - apply Encl_self. closed.
  - apply mul_Encl with (a1 := lit 1999 100) (b1 := lit 10001 100)
                        (a2 := of_Z SAMPLES_PER_CYCLE)
                        (b2 := of_Z SAMPLES_PER_CYCLE); try closed.
    + exact H.
    + apply Encl_self. closed.
Qed.

(** X17: on a non-zero reading, provided the value that [log10] returns
    on the normalised reading is a canonical float between -4 and 0, the
    iteration stores a stepper speed between 100 and 500 rpm, a sine
    frequency between 19.99 and 100.01 Hz and a finite sample period
    between 16.66 and 83.39 microseconds, stops the timer and restarts it
    with that period. *)
Theorem slider_frequency_range
  (log10 : float -> float) (v : Z) (s : state) :
  v <> 0 ->
  log10_in_range (log10 (div (of_Z v) (of_Z adcBitRange))) = true ->
  let r := fst (loop log10 v s) in
  (valid (stepperRPM r) = true
   /\ between (of_Z 100) (of_Z 500) (stepperRPM r) = true)
  /\ (valid (sineFrequency r) = true
      /\ between (lit 1999 100) (lit 10001 100) (sineFrequency r) = true)
  /\ (valid (interruptMicroseconds r) = true
      /\ between (lit 1666 100) (lit 8339 100) (interruptMicroseconds r)
         = true)
  /\ snd (loop log10 v s)
     = [CallLog10 (div (of_Z v) (of_Z adcBitRange)); TimerEnd;
        TimerBegin (interruptMicroseconds r)].
Proof.
  intros Hv Hl. cbn zeta. unfold loop, useSlider.
  replace (v =? 0) with false by (symmetry; apply Z.eqb_neq; exact Hv).
  cbn [fst snd stepperRPM sineFrequency interruptMicroseconds].
  set (x := div (of_Z v) (of_Z adcBitRange)) in *.
  assert (Hrpm : Encl (of_Z 100) (of_Z 500)
                   (div (mul (of_Z 500) (of_Z 1)) (sub (of_Z 1) (log10 x)))).
  { apply div_Encl with (a1 := of_Z 500) (b1 := of_Z 500)
                        (a2 := of_Z 1) (b2 := of_Z 5); try closed.
    - apply (Encl_self (of_Z 500)). closed.
    - apply denominator_Encl. exact Hl. }
  pose proof (sineFrequency_of_Encl _ Hrpm) as Hf.
  pose proof (interruptMicroseconds_of_Encl _ Hf) as Hus.
  destruct Hrpm as (_ & _ & ? & ?). destruct Hf as (_ & _ & ? & ?).
  destruct Hus as (_ & _ & ? & ?). auto 10.
Qed.

(** X17 at mid-scale, for a logarithm that returns -1. *)
Lemma slider_frequency_range_witness :
  let r := fst (loop (fun _ => of_Z (-1)) 4096 init) in
  (valid (stepperRPM r) = true
   /\ between (of_Z 100) (of_Z 500) (stepperRPM r) = true)
  /\ (valid (sineFrequency r) = true
      /\ between (lit 1999 100) (lit 10001 100) (sineFrequency r) = true)
  /\ (valid (interruptMicroseconds r) = true
      /\ between (lit 1666 100) (lit 8339 100) (interruptMicroseconds r)
         = true)
  /\ snd (loop (fun _ => of_Z (-1)) 4096 init)
     = [CallLog10 (div (of_Z 4096) (of_Z adcBitRange)); TimerEnd;
        TimerBegin (interruptMicroseconds r)].
Proof.
  apply (slider_frequency_range (fun _ => of_Z (-1)) 4096 init);
    [discriminate | reflexivity].
Defined.

End TeensySineRange.
